(** * Comment extractor: response normaliser, batch orchestrator, CSV export

    A shallow embedding of the decision logic of the comment-extractor
    repository:

    - [processImage], [convertPdfToImages] and [POST] of the API route
      that handles PDF documents and parses the response in layers
      ([src/unnamed/part_000]): modules [Normalizer] and [Batch];
    - the parsing ladder of the image-only route
      ([src/app/api/process-images/route.ts]): module [RouteTs];
    - [escapeCSV] and [generateCSV] of [src/lib/csv-export.ts]: modules
      [Csv] and [CsvDocument];
    - the loop of the image-only route and the first version of the
      route that handles documents ([src/unnamed/part_001]): modules
      [RouteTsBatch] and [PdfRouteV1];
    - [onDrop] and [removeFile] of [src/components/file-upload.tsx]:
      module [FileUpload];
    - the handlers of [src/app/page.tsx]: modules [Page] and
      [PageExport].

    JavaScript strings are sequences of UTF-16 code units; regular
    expressions are interpreted by a backtracking matcher with the
    priorities of ECMAScript; a thrown error is a value of a result type;
    the [results] array of the route and the state of the model service
    are threaded through the loop. [JSON.parse], the model client, PDF.js
    and the canvas module are parameters of the definitions that use
    them. *)

From Stdlib Require Import String Ascii List ZArith NArith Lia Bool.
Import ListNotations.

Set Implicit Arguments.
#[local] Set Warnings "-register-all".

(* ================================================================== *)
(** * JavaScript strings *)
(* ================================================================== *)

Module Js.

(** A code unit of a JavaScript string. *)
Definition char := N.

(** A JavaScript string: its sequence of code units. *)
Definition jsstring := list char.

Definition char_eqb (a b : char) : bool := N.eqb a b.

Fixpoint str_eqb (a b : jsstring) : bool :=
  match a, b with
  | [], [] => true
  | x :: a', y :: b' => char_eqb x y && str_eqb a' b'
  | _, _ => false
  end.

(** A literal of the source, written as a Rocq string (ASCII only). *)
Definition js (s : string) : jsstring :=
  map (fun a => N_of_ascii a) (list_ascii_of_string s).

Definition DQUOTE : char := 34%N.
Definition SQUOTE : char := 39%N.
Definition LF : char := 10%N.
Definition CR : char := 13%N.
Definition COMMA : char := 44%N.
Definition LBRACE : char := 123%N.
Definition RBRACE : char := 125%N.
Definition BACKTICK : char := 96%N.

(** A literal in which every apostrophe stands for a double quote, for
    texts that contain JSON or CSV quoting. *)
Definition jsq (s : string) : jsstring :=
  map (fun c => if char_eqb c SQUOTE then DQUOTE else c) (js s).

(** ECMAScript WhiteSpace and LineTerminator code units: the class [\s]
    of regular expressions and the characters removed by [trim]. *)
Definition is_space (c : char) : bool :=
  ((9 <=? c) && (c <=? 13) || (c =? 32) || (c =? 160) || (c =? 5760)
   || (8192 <=? c) && (c <=? 8202) || (c =? 8232) || (c =? 8233)
   || (c =? 8239) || (c =? 8287) || (c =? 12288) || (c =? 65279))%N.

Fixpoint trimStart (s : jsstring) : jsstring :=
  match s with
  | c :: s' => if is_space c then trimStart s' else s
  | [] => []
  end.

Definition trimEnd (s : jsstring) : jsstring := rev (trimStart (rev s)).

(** [String.prototype.trim]. *)
Definition trim (s : jsstring) : jsstring := trimEnd (trimStart s).

(** [s.startsWith(p)]. *)
Fixpoint startsWith (p s : jsstring) : bool :=
  match p, s with
  | [], _ => true
  | x :: p', y :: s' => char_eqb x y && startsWith p' s'
  | _ :: _, [] => false
  end.

(** [s.endsWith(p)]. *)
Definition endsWith (p s : jsstring) : bool := startsWith (rev p) (rev s).

(** [s.indexOf(p)] from position 0: the least index at which [p] occurs,
    or -1. *)
Fixpoint indexOf (p s : jsstring) : Z :=
  if startsWith p s then 0%Z
  else match s with
       | [] => (-1)%Z
       | _ :: s' => let i := indexOf p s' in
                    if (i <? 0)%Z then (-1)%Z else (i + 1)%Z
       end.

(** [s.lastIndexOf(p)]: the greatest index at which [p] occurs, or -1. *)
Fixpoint lastIndexOf (p s : jsstring) : Z :=
  match s with
  | [] => if startsWith p [] then 0%Z else (-1)%Z
  | _ :: s' =>
      let i := lastIndexOf p s' in
      if (0 <=? i)%Z then (i + 1)%Z
      else if startsWith p s then 0%Z else (-1)%Z
  end.

(** [s.includes(p)]. *)
Definition includes (p s : jsstring) : bool := (0 <=? indexOf p s)%Z.

(** [s.substring(a, b)]: both ends are clamped to [0, length] and swapped
    when out of order. *)
Definition substring (s : jsstring) (a b : Z) : jsstring :=
  let len := Z.of_nat (length s) in
  let a' := Z.min (Z.max a 0) len in
  let b' := Z.min (Z.max b 0) len in
  let lo := Z.min a' b' in
  let hi := Z.max a' b' in
  firstn (Z.to_nat (hi - lo)) (skipn (Z.to_nat lo) s).

(** [a.join(sep)] on an array of strings. *)
Fixpoint join (sep : jsstring) (l : list jsstring) : jsstring :=
  match l with
  | [] => []
  | [x] => x
  | x :: l' => x ++ sep ++ join sep l'
  end.

(** Lower case of one code unit, on the ASCII letters. No code unit outside
    ASCII has a lower case among the characters of [".pdf"], the only text
    the route compares a lower-cased string with. *)
Definition toLowerChar (c : char) : char :=
  if ((65 <=? c) && (c <=? 90))%N then (c + 32)%N else c.

Definition toLowerCase (s : jsstring) : jsstring := map toLowerChar s.

(** Decimal digits of a natural number, as [String(n)] prints an integer. *)
Fixpoint digits_fuel (fuel : nat) (n : N) (acc : jsstring) : jsstring :=
  match fuel with
  | O => acc
  | S f =>
      let acc' := (48 + n mod 10)%N :: acc in
      if (n <? 10)%N then acc' else digits_fuel f (n / 10)%N acc'
  end.

Definition numberToString (n : nat) : jsstring :=
  let m := N.of_nat n in digits_fuel (S (N.to_nat (N.log2 m))) m [].

(** The longest prefix of [s] whose code units satisfy [f], and what is
    left after it. *)
Fixpoint take_while (f : char -> bool) (s : jsstring) : jsstring :=
  match s with
  | x :: s' => if f x then x :: take_while f s' else []
  | [] => []
  end.

Fixpoint drop_while (f : char -> bool) (s : jsstring) : jsstring :=
  match s with
  | x :: s' => if f x then drop_while f s' else s
  | [] => []
  end.

End Js.

Import Js.

(** ** Facts on strings *)

Module JsFacts.

Ltac list_norm :=
  repeat (rewrite <- app_assoc || rewrite <- app_comm_cons); reflexivity.

Lemma startsWith_app p s : startsWith p (p ++ s) = true.
Proof.
  induction p as [|x p IH]; simpl; [reflexivity|].
  unfold char_eqb. rewrite N.eqb_refl. exact IH.
Qed.

Lemma startsWith_inv p s :
  startsWith p s = true -> s = p ++ skipn (length p) s.
Proof.
  revert s. induction p as [|x p IH]; intros s H; simpl in *.
  - reflexivity.
  - destruct s as [|y s]; [discriminate|].
    apply andb_true_iff in H. destruct H as [H1 H2].
    apply N.eqb_eq in H1. subst y. simpl. f_equal. apply IH, H2.
Qed.

Lemma take_drop_while f s : take_while f s ++ drop_while f s = s.
Proof.
  induction s as [|x s IH]; simpl; [reflexivity|].
  destruct (f x); simpl; [rewrite IH|]; reflexivity.
Qed.

Lemma trimStart_spaces ws s :
  forallb is_space ws = true -> trimStart (ws ++ s) = trimStart s.
Proof.
  induction ws as [|x ws IH]; simpl; intros H; [reflexivity|].
  apply andb_true_iff in H. destruct H as [Hx Hws].
  rewrite Hx. apply IH, Hws.
Qed.

Lemma trimStart_nonspace x s :
  is_space x = false -> trimStart (x :: s) = x :: s.
Proof. intros H. simpl. rewrite H. reflexivity. Qed.

Lemma forallb_rev (A : Type) (f : A -> bool) l :
  forallb f (rev l) = forallb f l.
Proof.
  induction l as [|x l IH]; simpl; [reflexivity|].
  rewrite forallb_app, IH. simpl. rewrite andb_true_r. apply andb_comm.
Qed.

Lemma forallb_impl (A : Type) (f g : A -> bool) l :
  (forall x, f x = true -> g x = true) ->
  forallb f l = true -> forallb g l = true.
Proof.
  intros H. induction l as [|x l IH]; simpl; [reflexivity|].
  intros E. apply andb_true_iff in E. destruct E as [E1 E2].
  rewrite (H x E1), (IH E2). reflexivity.
Qed.

Lemma trimEnd_spaces s ws :
  forallb is_space ws = true -> trimEnd (s ++ ws) = trimEnd s.
Proof.
  intros H. unfold trimEnd. rewrite rev_app_distr.
  rewrite trimStart_spaces by (rewrite forallb_rev; exact H). reflexivity.
Qed.

Lemma trimEnd_nonspace s y :
  is_space y = false -> trimEnd (s ++ [y]) = s ++ [y].
Proof.
  intros H. unfold trimEnd. rewrite rev_app_distr. simpl app.
  rewrite trimStart_nonspace by exact H.
  change (y :: rev s) with (rev [y] ++ rev s).
  rewrite <- rev_app_distr. apply rev_involutive.
Qed.

(** [trim] removes the white space around a text whose first and last
    code units are not white space. *)
Lemma trim_core ws1 ws2 x mid y :
  forallb is_space ws1 = true -> forallb is_space ws2 = true ->
  is_space x = false -> is_space y = false ->
  trim (ws1 ++ (x :: mid ++ [y]) ++ ws2) = x :: mid ++ [y].
Proof.
  intros H1 H2 Hx Hy. unfold trim.
  rewrite trimStart_spaces by exact H1.
  simpl app. rewrite trimStart_nonspace by exact Hx.
  change (x :: (mid ++ [y]) ++ ws2) with (((x :: mid) ++ [y]) ++ ws2).
  rewrite trimEnd_spaces by exact H2.
  rewrite trimEnd_nonspace by exact Hy. reflexivity.
Qed.

Lemma trim_self x mid y :
  is_space x = false -> is_space y = false ->
  trim (x :: mid ++ [y]) = x :: mid ++ [y].
Proof.
  intros Hx Hy.
  pose proof (@trim_core [] [] x mid y eq_refl eq_refl Hx Hy) as H.
  simpl in H. rewrite app_nil_r in H. exact H.
Qed.

Lemma indexOf_head c s : indexOf [c] (c :: s) = 0%Z.
Proof. simpl. unfold char_eqb. rewrite N.eqb_refl. reflexivity. Qed.

Lemma indexOf_skip c pre rest :
  forallb (fun x => negb (char_eqb c x)) pre = true ->
  indexOf [c] (pre ++ c :: rest) = Z.of_nat (length pre).
Proof.
  intros Hpre. induction pre as [|x pre IH]; simpl app.
  - apply indexOf_head.
  - cbn [forallb] in Hpre. apply andb_true_iff in Hpre.
    destruct Hpre as [Hx Hpre].
    apply negb_true_iff in Hx. cbn [indexOf startsWith].
    rewrite Hx. cbn [andb]. rewrite (IH Hpre).
    replace (Z.of_nat (length pre) <? 0)%Z with false
      by (symmetry; apply Z.ltb_ge; lia).
    simpl length. lia.
Qed.

Lemma lastIndexOf_nonneg_bound p s : (-1 <= lastIndexOf p s)%Z.
Proof.
  induction s as [|x s IH]; simpl.
  - destruct (startsWith p []); lia.
  - destruct (0 <=? lastIndexOf p s)%Z eqn:E.
    + apply Z.leb_le in E. lia.
    + destruct (startsWith p (x :: s)); lia.
Qed.

Lemma lastIndexOf_last c s :
  lastIndexOf [c] (s ++ [c]) = Z.of_nat (length s).
Proof.
  induction s as [|x s IH].
  - simpl. unfold char_eqb. rewrite N.eqb_refl. reflexivity.
  - change ((x :: s) ++ [c]) with (x :: (s ++ [c])).
    cbn [lastIndexOf]. rewrite IH.
    replace (0 <=? Z.of_nat (length s))%Z with true
      by (symmetry; apply Z.leb_le; lia).
    simpl length. lia.
Qed.

Lemma substring_in_range s a b :
  (0 <= a <= b)%Z -> (b <= Z.of_nat (length s))%Z ->
  substring s a b = firstn (Z.to_nat (b - a)) (skipn (Z.to_nat a) s).
Proof.
  intros Ha Hb. unfold substring.
  replace (Z.max a 0) with a by lia.
  replace (Z.max b 0) with b by lia.
  replace (Z.min a (Z.of_nat (length s))) with a by lia.
  replace (Z.min b (Z.of_nat (length s))) with b by lia.
  replace (Z.min a b) with a by lia.
  replace (Z.max a b) with b by lia.
  reflexivity.
Qed.

Lemma substring_clamped s b :
  (Z.of_nat (length s) <= b)%Z -> substring s 0 b = s.
Proof.
  intros Hb. unfold substring.
  replace (Z.max 0 0) with 0%Z by lia.
  replace (Z.max b 0) with b by lia.
  replace (Z.min 0 (Z.of_nat (length s))) with 0%Z by lia.
  replace (Z.min b (Z.of_nat (length s))) with (Z.of_nat (length s)) by lia.
  replace (Z.min 0 (Z.of_nat (length s))) with 0%Z by lia.
  replace (Z.max 0 (Z.of_nat (length s))) with (Z.of_nat (length s)) by lia.
  rewrite Z.sub_0_r, Nat2Z.id. simpl. apply firstn_all.
Qed.

Lemma substring_prefix s n :
  substring s 0 (Z.of_nat n) = firstn n s.
Proof.
  destruct (Nat.le_gt_cases n (length s)) as [H|H].
  - rewrite substring_in_range by lia.
    rewrite Z.sub_0_r, Nat2Z.id. reflexivity.
  - rewrite substring_clamped by lia.
    symmetry. apply firstn_all2. lia.
Qed.

Lemma substring_whole s : substring s 0 (Z.of_nat (length s)) = s.
Proof. rewrite substring_prefix. apply firstn_all. Qed.

Lemma substring_middle a b c :
  substring (a ++ b ++ c) (Z.of_nat (length a))
            (Z.of_nat (length a + length b)) = b.
Proof.
  rewrite substring_in_range by (rewrite ?length_app; lia).
  replace (Z.to_nat (Z.of_nat (length a + length b) - Z.of_nat (length a)))
    with (length b) by lia.
  rewrite Nat2Z.id.
  rewrite skipn_app, skipn_all, Nat.sub_diag. simpl.
  rewrite firstn_app, firstn_all, Nat.sub_diag. simpl. apply app_nil_r.
Qed.

Lemma includes_cons_false p x s :
  includes p (x :: s) = false ->
  startsWith p (x :: s) = false /\ includes p s = false.
Proof.
  unfold includes. cbn [indexOf].
  destruct (startsWith p (x :: s)) eqn:E; [discriminate|].
  intros H. split; [reflexivity|].
  destruct (indexOf p s <? 0)%Z eqn:E2.
  - apply Z.ltb_lt in E2. apply Z.leb_gt. exact E2.
  - apply Z.ltb_ge in E2. apply Z.leb_gt in H. lia.
Qed.

Lemma includes_nil_false p : includes p [] = false -> startsWith p [] = false.
Proof.
  unfold includes. cbn [indexOf].
  destruct (startsWith p []); [discriminate | reflexivity].
Qed.

Lemma includes_false_startsWith p s :
  includes p s = false -> startsWith p s = false.
Proof.
  destruct s; [apply includes_nil_false|].
  intros H. apply includes_cons_false in H. apply H.
Qed.

Lemma includes_false_suffix p a b :
  includes p (a ++ b) = false -> includes p b = false.
Proof.
  induction a as [|x a IH]; simpl; intros H; [exact H|].
  apply includes_cons_false in H. apply IH, H.
Qed.

Lemma indexOf_split c s :
  (0 <= indexOf [c] s)%Z ->
  exists pre rest,
    s = pre ++ c :: rest /\ Z.of_nat (length pre) = indexOf [c] s.
Proof.
  induction s as [|x s IH]; cbn [indexOf startsWith].
  - intros H. lia.
  - rewrite andb_true_r. destruct (char_eqb c x) eqn:E.
    + intros _. apply N.eqb_eq in E. subst x.
      exists [], s. split; reflexivity.
    + destruct (indexOf [c] s <? 0)%Z eqn:E2; [intros H; lia|].
      intros _. apply Z.ltb_ge in E2.
      destruct (IH E2) as [pre [rest [E3 E4]]].
      exists (x :: pre), rest. split; [rewrite E3; reflexivity|].
      cbn [length]. lia.
Qed.

Lemma lastIndexOf_split c s :
  (0 <= lastIndexOf [c] s)%Z ->
  exists pre rest,
    s = pre ++ c :: rest /\ Z.of_nat (length pre) = lastIndexOf [c] s.
Proof.
  induction s as [|x s IH]; cbn [lastIndexOf startsWith].
  - intros H. lia.
  - destruct (0 <=? lastIndexOf [c] s)%Z eqn:E.
    + intros _. apply Z.leb_le in E.
      destruct (IH E) as [pre [rest [E3 E4]]].
      exists (x :: pre), rest. split; [rewrite E3; reflexivity|].
      cbn [length]. lia.
    + rewrite andb_true_r. destruct (char_eqb c x) eqn:E2; [|intros H; lia].
      intros _. apply N.eqb_eq in E2. subst x.
      exists [], s. split; reflexivity.
Qed.

(** The text between an occurrence of [c] and a later occurrence of [d],
    both included. *)
Lemma substring_between c d s i j :
  (0 <= i)%Z -> (i < j)%Z ->
  (exists pre rest, s = pre ++ c :: rest /\ Z.of_nat (length pre) = i) ->
  (exists pre rest, s = pre ++ d :: rest /\ Z.of_nat (length pre) = j) ->
  exists mid, substring s i (j + 1) = c :: mid ++ [d].
Proof.
  intros Hi Hij [pre1 [rest1 [E1 L1]]] [pre2 [rest2 [E2 L2]]].
  assert (E : pre1 ++ c :: rest1 = pre2 ++ d :: rest2) by congruence.
  apply app_eq_app in E. destruct E as [l [[Ea Eb]|[Ea Eb]]].
  - exfalso. rewrite Ea, length_app in L1. lia.
  - destruct l as [|y l].
    + exfalso. rewrite Ea, app_nil_r in L2. lia.
    + cbn [app] in Eb. inversion Eb; subst y. exists l.
      assert (Es : s = pre1 ++ (c :: l ++ [d]) ++ rest2).
      { rewrite E1, H1. list_norm. }
      rewrite Es, <- L1, <- L2, Ea.
      replace (Z.of_nat (length (pre1 ++ c :: l)) + 1)%Z
        with (Z.of_nat (length pre1 + length (c :: l ++ [d])))
        by (rewrite length_app; cbn [length]; rewrite length_app;
            cbn [length]; lia).
      apply substring_middle.
Qed.

End JsFacts.

(* ================================================================== *)
(** * Regular expressions *)
(* ================================================================== *)

(** The fragment of ECMAScript regular expressions the route uses:
    character classes, concatenation, alternation, greedy and lazy
    repetition and capturing groups. The source's patterns have no
    assertion and no back-reference, so a match attempt at a position
    depends on the text from that position on only, and the matcher works
    on suffixes. *)
Module Regex.

Inductive regex : Type :=
| Empty : regex
| Char (p : char -> bool) : regex
| Cat (r1 r2 : regex) : regex
| Alt (r1 r2 : regex) : regex
| Star (greedy : bool) (r : regex) : regex
| Group (n : nat) (r : regex) : regex.

(** Captures: the latest binding of a group number comes first. *)
Definition captures := list (nat * jsstring).

Fixpoint capture (n : nat) (c : captures) : option jsstring :=
  match c with
  | [] => None
  | (m, s) :: c' => if Nat.eqb m n then Some s else capture n c'
  end.

(** The part of [s] in front of its suffix [rest]. *)
Definition consumed (s rest : jsstring) : jsstring :=
  firstn (length s - length rest) s.

Section Matcher.

Variable R : Type.

(** The repetition of a matcher [step]: one more iteration first when
    [greedy], the continuation first otherwise. An iteration that consumes
    nothing is rejected, as by the RepeatMatcher of ECMAScript, so at most
    [length s] iterations can succeed and [fuel] never runs out when it
    starts from there. *)
Fixpoint star_loop
         (step : jsstring -> captures ->
                 (jsstring -> captures -> option R) -> option R)
         (greedy : bool) (k : jsstring -> captures -> option R)
         (fuel : nat) (s : jsstring) (c : captures) {struct fuel}
  : option R :=
  match fuel with
  | O => k s c
  | S f =>
      if greedy then
        match step s c
                (fun s' c' =>
                   if length s' <? length s
                   then star_loop step greedy k f s' c'
                   else None) with
        | Some x => Some x
        | None => k s c
        end
      else
        match k s c with
        | Some x => Some x
        | None =>
            step s c
              (fun s' c' =>
                 if length s' <? length s
                 then star_loop step greedy k f s' c'
                 else None)
        end
  end.

(** [run r s c k] matches [r] at the head of [s] and hands the rest of the
    text to the continuation [k]; alternatives are tried in the order of
    the backtracking matcher of the language: the left branch of [Alt]
    first, then the right one. *)
Fixpoint run (r : regex) (s : jsstring) (c : captures)
         (k : jsstring -> captures -> option R) {struct r} : option R :=
  match r with
  | Empty => k s c
  | Char p =>
      match s with
      | x :: s' => if p x then k s' c else None
      | [] => None
      end
  | Cat r1 r2 => run r1 s c (fun s' c' => run r2 s' c' k)
  | Alt r1 r2 =>
      match run r1 s c k with
      | Some x => Some x
      | None => run r2 s c k
      end
  | Star greedy r' => star_loop (run r') greedy k (length s) s c
  | Group n r' =>
      run r' s c (fun s' c' => k s' ((n, consumed s s') :: c'))
  end.

End Matcher.

(** One match attempt at the head of [s]: the text left after the match
    and the captures. *)
Definition exec_at (r : regex) (s : jsstring)
  : option (jsstring * captures) :=
  run r s [] (fun s' c => Some (s', c)).

(** The result of [s.match(r)] for a pattern without the [g] flag: the
    leftmost match, as the matched text and its captures. *)
Fixpoint search (r : regex) (s : jsstring)
  : option (jsstring * captures) :=
  match exec_at r s with
  | Some (rest, c) => Some (consumed s rest, c)
  | None =>
      match s with
      | [] => None
      | _ :: s' => search r s'
      end
  end.

(** The matches of a pattern with the [g] flag, left to right. After a
    match of length [n] the next attempt starts [n] code units further
    (one further after an empty match); [skip] counts the code units of
    the last match still to be passed over. *)
Fixpoint match_all_from (r : regex) (skip : nat) (s : jsstring)
  : list jsstring :=
  match skip with
  | S n =>
      match s with
      | [] => []
      | _ :: s' => match_all_from r n s'
      end
  | O =>
      match exec_at r s with
      | Some (rest, _) =>
          consumed s rest ::
            match s with
            | [] => []
            | _ :: s' =>
                match_all_from r (length (consumed s rest) - 1) s'
            end
      | None =>
          match s with
          | [] => []
          | _ :: s' => match_all_from r 0 s'
          end
      end
  end.

(** [s.match(r)] for a pattern with the [g] flag: [null] when nothing
    matches, else the array of the matched texts. *)
Definition match_global (r : regex) (s : jsstring)
  : option (list jsstring) :=
  match match_all_from r 0 s with
  | [] => None
  | l => Some l
  end.

(** ** Pattern syntax *)

Definition any : char -> bool := fun _ => true.

Definition opt (r : regex) : regex := Alt r Empty.

Definition star (p : char -> bool) : regex := Star true (Char p).
Definition lazy_star (p : char -> bool) : regex := Star false (Char p).
Definition plus (p : char -> bool) : regex := Cat (Char p) (star p).

Fixpoint sequence (l : list regex) : regex :=
  match l with
  | [] => Empty
  | [r] => r
  | r :: l' => Cat r (sequence l')
  end.

(** A literal text. *)
Definition lit (s : jsstring) : regex :=
  sequence (map (fun x => Char (char_eqb x)) s).

(** Canonicalize of ECMAScript without the [u] flag, on the code units
    that can be equal to an ASCII letter after it: a code unit above 127
    is never mapped into ASCII, so only the two cases of an ASCII letter
    have its upper case as canonical form. *)
Definition canonicalize (c : char) : char :=
  if ((97 <=? c) && (c <=? 122))%N then (c - 32)%N else c.

(** A literal text of ASCII letters under the [i] flag. *)
Definition lit_i (s : jsstring) : regex :=
  sequence (map (fun x => Char (fun c => char_eqb (canonicalize c)
                                              (canonicalize x))) s).

(** ** Closed forms of the repetitions of a class

    What [star p] and [lazy_star p] compute, as recursions on the text. *)

Fixpoint greedy_class (R : Type) (p : char -> bool)
         (k : jsstring -> captures -> option R) (s : jsstring) (c : captures)
  : option R :=
  match s with
  | x :: s' =>
      if p x then
        match greedy_class p k s' c with
        | Some r => Some r
        | None => k s c
        end
      else k s c
  | [] => k [] c
  end.

Fixpoint lazy_class (R : Type) (p : char -> bool)
         (k : jsstring -> captures -> option R) (s : jsstring) (c : captures)
  : option R :=
  match k s c with
  | Some r => Some r
  | None =>
      match s with
      | x :: s' => if p x then lazy_class p k s' c else None
      | [] => None
      end
  end.

(** [s] starts with [l] up to the case of ASCII letters. *)
Fixpoint startsWith_i (l s : jsstring) : bool :=
  match l, s with
  | [], _ => true
  | x :: l', y :: s' =>
      char_eqb (canonicalize y) (canonicalize x) && startsWith_i l' s'
  | _ :: _, [] => false
  end.

End Regex.

Import Regex.

(** ** Facts on the matcher *)

Module RegexFacts.
Import JsFacts.

Lemma run_seq_cons (R : Type) r l s c (k : jsstring -> captures -> option R) :
  run (sequence (r :: l)) s c k
  = run r s c (fun s' c' => run (sequence l) s' c' k).
Proof. destruct l; reflexivity. Qed.

Lemma run_lit (R : Type) l s c (k : jsstring -> captures -> option R) :
  run (lit l) s c k =
  if startsWith l s then k (skipn (length l) s) c else None.
Proof.
  unfold lit. revert s. induction l as [|x l IH]; intros s.
  - reflexivity.
  - simpl map. rewrite run_seq_cons. simpl run.
    destruct s as [|y s]; simpl; [reflexivity|].
    destruct (char_eqb x y) eqn:E; simpl; [apply IH | reflexivity].
Qed.

Lemma run_lit_i (R : Type) l s c (k : jsstring -> captures -> option R) :
  run (lit_i l) s c k =
  if startsWith_i l s then k (skipn (length l) s) c else None.
Proof.
  unfold lit_i. revert s. induction l as [|x l IH]; intros s.
  - reflexivity.
  - cbn [map]. rewrite run_seq_cons. cbn [run].
    destruct s as [|y s]; cbn [startsWith_i]; [reflexivity|].
    destruct (char_eqb (canonicalize y) (canonicalize x)); cbn [andb];
      [apply IH | reflexivity].
Qed.

Lemma star_loop_greedy_class (R : Type) p
      (k : jsstring -> captures -> option R) :
  forall fuel s c, length s <= fuel ->
    star_loop (run (Char p)) true k fuel s c = greedy_class p k s c.
Proof.
  induction fuel as [|f IH]; intros s c Hlen.
  - destruct s; [reflexivity | simpl in Hlen; lia].
  - destruct s as [|x s]; [reflexivity|].
    cbn [star_loop run greedy_class]. destruct (p x); [|reflexivity].
    assert (E : (length s <? length (x :: s)) = true)
      by (apply Nat.ltb_lt; simpl; lia).
    rewrite E, IH by (simpl in Hlen; lia). reflexivity.
Qed.

Lemma run_star (R : Type) p s c (k : jsstring -> captures -> option R) :
  run (star p) s c k = greedy_class p k s c.
Proof. apply star_loop_greedy_class. apply Nat.le_refl. Qed.

Lemma star_loop_lazy_class (R : Type) p
      (k : jsstring -> captures -> option R) :
  forall fuel s c, length s <= fuel ->
    star_loop (run (Char p)) false k fuel s c = lazy_class p k s c.
Proof.
  induction fuel as [|f IH]; intros s c Hlen.
  - destruct s; [|simpl in Hlen; lia]. simpl. destruct (k [] c); reflexivity.
  - destruct s as [|x s]; cbn [star_loop run lazy_class].
    + destruct (k [] c); reflexivity.
    + destruct (k (x :: s) c); [reflexivity|].
      destruct (p x); [|reflexivity].
      assert (E : (length s <? length (x :: s)) = true)
        by (apply Nat.ltb_lt; simpl; lia).
      rewrite E. apply IH. simpl in Hlen; lia.
Qed.

Lemma run_lazy_star (R : Type) p s c (k : jsstring -> captures -> option R) :
  run (lazy_star p) s c k = lazy_class p k s c.
Proof. apply star_loop_lazy_class. apply Nat.le_refl. Qed.

Lemma star_loop_ext (R : Type)
      (step : jsstring -> captures ->
              (jsstring -> captures -> option R) -> option R)
      g (k1 k2 : jsstring -> captures -> option R) :
  (forall s c ka kb, (forall s' c', ka s' c' = kb s' c') ->
                     step s c ka = step s c kb) ->
  (forall s c, k1 s c = k2 s c) ->
  forall fuel s c, star_loop step g k1 fuel s c = star_loop step g k2 fuel s c.
Proof.
  intros Hstep Hk. induction fuel as [|f IH]; intros s c; cbn [star_loop].
  - apply Hk.
  - assert (E : step s c
                  (fun s' c' => if length s' <? length s
                                then star_loop step g k1 f s' c' else None) =
                step s c
                  (fun s' c' => if length s' <? length s
                                then star_loop step g k2 f s' c' else None)).
    { apply Hstep. intros s' c'. destruct (length s' <? length s); auto. }
    rewrite E, Hk. reflexivity.
Qed.

(** Two continuations that agree everywhere give the same match. *)
Lemma run_ext (R : Type) r :
  forall s c (k1 k2 : jsstring -> captures -> option R),
    (forall s' c', k1 s' c' = k2 s' c') -> run r s c k1 = run r s c k2.
Proof.
  induction r as [|p|r1 IH1 r2 IH2|r1 IH1 r2 IH2|g r IH|n r IH];
    intros s c k1 k2 H; cbn [run].
  - apply H.
  - destruct s as [|x s]; [reflexivity|]. destruct (p x); auto.
  - apply IH1. intros s' c'. apply IH2, H.
  - rewrite (IH1 s c k1 k2 H), (IH2 s c k1 k2 H). reflexivity.
  - apply star_loop_ext; [|exact H]. intros s0 c0 ka kb Hab. apply IH, Hab.
  - apply IH. intros s' c'. apply H.
Qed.

Lemma greedy_class_ext (R : Type) p (k1 k2 : jsstring -> captures -> option R) :
  (forall s c, k1 s c = k2 s c) ->
  forall s c, greedy_class p k1 s c = greedy_class p k2 s c.
Proof.
  intros H. induction s as [|x s IH]; intros c; cbn [greedy_class].
  - apply H.
  - rewrite IH, H. reflexivity.
Qed.

Lemma lazy_class_ext (R : Type) p (k1 k2 : jsstring -> captures -> option R) :
  (forall s c, k1 s c = k2 s c) ->
  forall s c, lazy_class p k1 s c = lazy_class p k2 s c.
Proof.
  intros H. induction s as [|x s IH]; intros c; cbn [lazy_class];
    rewrite H; [reflexivity|].
  rewrite IH. reflexivity.
Qed.

(** A greedy run over a class stops in front of the first code unit
    outside the class when the continuation accepts there. *)
Lemma greedy_class_skip (R : Type) p (k : jsstring -> captures -> option R)
      ws s c r :
  forallb p ws = true ->
  match s with x :: _ => p x = false | [] => True end ->
  k s c = Some r ->
  greedy_class p k (ws ++ s) c = Some r.
Proof.
  intros Hws Hs Hk. induction ws as [|w ws IH]; simpl app.
  - destruct s as [|x s]; cbn [greedy_class]; [exact Hk|].
    rewrite Hs. exact Hk.
  - simpl in Hws. apply andb_true_iff in Hws. destruct Hws as [Hw Hws].
    cbn [greedy_class]. rewrite Hw, (IH Hws). reflexivity.
Qed.

Lemma greedy_class_longest (R : Type) p
      (k : jsstring -> captures -> option R) s c r :
  k (drop_while p s) c = Some r -> greedy_class p k s c = Some r.
Proof.
  induction s as [|x s IH]; cbn [drop_while greedy_class]; intros H.
  - exact H.
  - destruct (p x); [rewrite (IH H); reflexivity | exact H].
Qed.

(** A lazy run over any code unit stops at the first place where the
    continuation accepts. *)
Lemma lazy_any_first (R : Type) (k : jsstring -> captures -> option R)
      pre t c r :
  (forall a b, pre = a ++ b -> b <> [] -> k (b ++ t) c = None) ->
  k t c = Some r ->
  lazy_class any k (pre ++ t) c = Some r.
Proof.
  intros Hpre Ht. induction pre as [|x pre IH]; simpl app.
  - destruct t; cbn [lazy_class]; rewrite Ht; reflexivity.
  - cbn [lazy_class].
    assert (E0 : k (x :: pre ++ t) c = None)
      by (apply (Hpre [] (x :: pre) eq_refl); discriminate).
    rewrite E0. cbn [any]. apply IH. intros a b E Hb.
    apply (Hpre (x :: a) b); [rewrite E; reflexivity | exact Hb].
Qed.

Lemma consumed_app (a b : jsstring) : consumed (a ++ b) b = a.
Proof.
  unfold consumed. rewrite length_app.
  replace (length a + length b - length b) with (length a) by lia.
  rewrite firstn_app, firstn_all, Nat.sub_diag. simpl. apply app_nil_r.
Qed.

Lemma consumed_nil (a : jsstring) : consumed a [] = a.
Proof.
  unfold consumed. simpl. rewrite Nat.sub_0_r. apply firstn_all.
Qed.

Lemma star_loop_suffix (R : Type)
      (step : jsstring -> captures ->
              (jsstring -> captures -> option R) -> option R)
      g (k : jsstring -> captures -> option R) :
  (forall s c k' x, step s c k' = Some x ->
                    exists m s' c', s = m ++ s' /\ k' s' c' = Some x) ->
  forall fuel s c x,
    star_loop step g k fuel s c = Some x ->
    exists m s' c', s = m ++ s' /\ k s' c' = Some x.
Proof.
  intros Hstep. induction fuel as [|f IH]; intros s c x H; cbn [star_loop] in H.
  - exists [], s, c. split; [reflexivity | exact H].
  - assert (Hiter : forall y,
               step s c (fun s' c' => if length s' <? length s
                                      then star_loop step g k f s' c'
                                      else None) = Some y ->
               exists m s' c', s = m ++ s' /\ k s' c' = Some y).
    { intros y Hy. apply Hstep in Hy.
      destruct Hy as [m [s' [c' [E Hy]]]].
      destruct (length s' <? length s); [|discriminate].
      apply IH in Hy. destruct Hy as [m2 [s2 [c2 [E2 Hy]]]].
      exists (m ++ m2), s2, c2. split; [|exact Hy].
      rewrite E, E2, app_assoc. reflexivity. }
    destruct g.
    + destruct (step s c _) as [y|] eqn:Es.
      * inversion H; subst y. apply Hiter. reflexivity.
      * exists [], s, c. split; [reflexivity | exact H].
    + destruct (k s c) as [y|] eqn:Ek.
      * inversion H; subst y. exists [], s, c. split; [reflexivity | exact Ek].
      * apply Hiter, H.
Qed.

(** A successful match hands a suffix of its text to the continuation. *)
Lemma run_suffix (R : Type) r :
  forall s c (k : jsstring -> captures -> option R) x,
    run r s c k = Some x ->
    exists m s' c', s = m ++ s' /\ k s' c' = Some x.
Proof.
  induction r as [|p|r1 IH1 r2 IH2|r1 IH1 r2 IH2|g r IH|n r IH];
    intros s c k x H; cbn [run] in H.
  - exists [], s, c. split; [reflexivity | exact H].
  - destruct s as [|y s]; [discriminate|].
    destruct (p y); [|discriminate].
    exists [y], s, c. split; [reflexivity | exact H].
  - apply IH1 in H. destruct H as [m [s' [c' [E H]]]].
    apply IH2 in H. destruct H as [m2 [s2 [c2 [E2 H]]]].
    exists (m ++ m2), s2, c2. split; [|exact H].
    rewrite E, E2, app_assoc. reflexivity.
  - destruct (run r1 s c k) as [y|] eqn:E1.
    + inversion H; subst y. apply IH1 in E1. exact E1.
    + apply IH2 in H. exact H.
  - apply star_loop_suffix in H; [exact H|].
    intros s0 c0 k' y Hy. apply IH in Hy. exact Hy.
  - apply IH in H. destruct H as [m [s' [c' [E H]]]].
    exists m, s', ((n, consumed s s') :: c'). split; assumption.
Qed.

Lemma startsWith_i_app l s t :
  startsWith_i l s = true -> startsWith_i l (s ++ t) = true.
Proof.
  revert s. induction l as [|x l IH]; intros s H; [reflexivity|].
  destruct s as [|y s]; [discriminate|]. cbn [startsWith_i app] in *.
  apply andb_true_iff in H. destruct H as [H1 H2].
  rewrite H1, (IH _ H2). reflexivity.
Qed.

Lemma startsWith_i_firstn l s :
  startsWith_i l s = true -> startsWith_i l (firstn (length l) s) = true.
Proof.
  revert s. induction l as [|x l IH]; intros s H; [reflexivity|].
  destruct s as [|y s]; [discriminate|]. cbn [startsWith_i length firstn] in *.
  apply andb_true_iff in H. destruct H as [H1 H2].
  rewrite H1, (IH _ H2). reflexivity.
Qed.

End RegexFacts.

(* ================================================================== *)
(** * Exceptions *)
(* ================================================================== *)

(** A thrown JavaScript error, with the [message] the route prints. *)
Record exn : Type := Exn { message : jsstring }.

(** The outcome of an expression that may throw. *)
Inductive result (A : Type) : Type :=
| Ok (a : A) : result A
| Throw (e : exn) : result A.

Arguments Ok {A} a.
Arguments Throw {A} e.

Definition rbind {A B : Type} (m : result A) (f : A -> result B)
  : result B :=
  match m with
  | Ok a => f a
  | Throw e => Throw e
  end.

(** [try { m } catch (e) { h e }]. *)
Definition try_catch {A : Type} (m : result A) (h : exn -> result A)
  : result A :=
  match m with
  | Ok a => Ok a
  | Throw e => h e
  end.

Declare Scope result_scope.
Delimit Scope result_scope with result.
Notation "x <- m ;; f" := (rbind m (fun x => f))
  (at level 61, m at next level, right associativity) : result_scope.

(* ================================================================== *)
(** * JSON values and [JSON.parse] *)
(* ================================================================== *)

Module Json.

(** A value as [JSON.parse] builds it. A number is kept as the decimal
    [m * 10^e] its text denotes; an object keeps one binding per key, in
    the order of first insertion (the enumeration order of integer-like
    keys is not modelled). *)
Inductive json : Type :=
| JNull : json
| JBool (b : bool) : json
| JNumber (m e : Z) : json
| JString (s : jsstring) : json
| JArray (l : list json) : json
| JObject (fields : list (jsstring * json)) : json.

(** The own property [key] of an object: [None] is [undefined]. *)
Fixpoint lookup (key : jsstring) (fields : list (jsstring * json))
  : option json :=
  match fields with
  | [] => None
  | (k, v) :: fields' => if str_eqb k key then Some v else lookup key fields'
  end.

(** [o[key] = v] on an object under construction. *)
Fixpoint obj_set (key : jsstring) (v : json)
         (fields : list (jsstring * json)) : list (jsstring * json) :=
  match fields with
  | [] => [(key, v)]
  | (k, w) :: fields' =>
      if str_eqb k key then (k, v) :: fields'
      else (k, w) :: obj_set key v fields'
  end.

(** [v.key] for a key that no prototype defines (such as [comments]):
    reading a property of [null] throws a TypeError; a primitive or an
    array has no such property. *)
Definition getProp (v : json) (key : jsstring) : result (option json) :=
  match v with
  | JNull => Throw (Exn (js "Cannot read properties of null"))
  | JObject fields => Ok (lookup key fields)
  | _ => Ok None
  end.

(** The decimal [m * 10^e] is read as the nearest double; it is [0] when
    [m] is, and when it is so small that it rounds to zero, that is at
    most [2^-1075] in absolute value. *)
Definition number_is_zero (m e : Z) : bool :=
  (m =? 0)%Z
  || ((e <? 0)%Z && (Z.abs m * 2 ^ 1075 <=? 10 ^ (- e))%Z).

(** ToBoolean; [None] is [undefined]. *)
Definition truthy (v : option json) : bool :=
  match v with
  | None => false
  | Some JNull => false
  | Some (JBool b) => b
  | Some (JNumber m e) => negb (number_is_zero m e)
  | Some (JString s) => match s with [] => false | _ => true end
  | Some (JArray _) => true
  | Some (JObject _) => true
  end.

(** [Array.isArray]. *)
Definition isArray (v : option json) : bool :=
  match v with
  | Some (JArray _) => true
  | _ => false
  end.

(** ** A reference reading of the JSON grammar

    [JSON.parse] belongs to the platform, not to the repository: the
    normaliser below takes the parser as a parameter. [parse] is a reading
    of the grammar of ECMA-404 used to run the normaliser on concrete
    texts. *)

Definition is_json_ws (c : char) : bool :=
  ((c =? 32) || (c =? 9) || (c =? 10) || (c =? 13))%N.

Fixpoint skip_ws (s : jsstring) : jsstring :=
  match s with
  | c :: s' => if is_json_ws c then skip_ws s' else s
  | [] => []
  end.

Definition is_digit (c : char) : bool := ((48 <=? c) && (c <=? 57))%N.

Definition hex_value (c : char) : option N :=
  if is_digit c then Some (c - 48)%N
  else if ((97 <=? c) && (c <=? 102))%N then Some (c - 87)%N
  else if ((65 <=? c) && (c <=? 70))%N then Some (c - 55)%N
  else None.

(** The characters of a string literal after its opening quote. *)
Fixpoint parse_string (s : jsstring) : option (jsstring * jsstring) :=
  match s with
  | [] => None
  | 34%N :: s' => Some ([], s')
  | 92%N :: 117%N :: a :: b :: c :: d :: s' =>
      match hex_value a, hex_value b, hex_value c, hex_value d with
      | Some x, Some y, Some z, Some w =>
          match parse_string s' with
          | Some (t, r) =>
              Some ((x * 4096 + y * 256 + z * 16 + w)%N :: t, r)
          | None => None
          end
      | _, _, _, _ => None
      end
  | 92%N :: e :: s' =>
      let unescaped :=
        match e with
        | 34%N => Some 34%N
        | 92%N => Some 92%N
        | 47%N => Some 47%N
        | 98%N => Some 8%N
        | 102%N => Some 12%N
        | 110%N => Some 10%N
        | 114%N => Some 13%N
        | 116%N => Some 9%N
        | _ => None
        end in
      match unescaped with
      | Some x =>
          match parse_string s' with
          | Some (t, r) => Some (x :: t, r)
          | None => None
          end
      | None => None
      end
  | 92%N :: [] => None
  | x :: s' =>
      if (x <? 32)%N then None
      else match parse_string s' with
           | Some (t, r) => Some (x :: t, r)
           | None => None
           end
  end.

Fixpoint span_digits (s : jsstring) : jsstring * jsstring :=
  match s with
  | c :: s' =>
      if is_digit c then let (d, r) := span_digits s' in (c :: d, r)
      else ([], s)
  | [] => ([], [])
  end.

Definition digits_value (d : jsstring) : Z :=
  fold_left (fun acc c => (acc * 10 + Z.of_N (c - 48))%Z) d 0%Z.

(** [-? int frac? exp?]; an integer part has no leading zero. *)
Definition parse_number (s : jsstring) : option (json * jsstring) :=
  let (neg, s1) :=
    match s with
    | 45%N :: s' => (true, s')
    | _ => (false, s)
    end in
  let (int, s2) := span_digits s1 in
  match int with
  | [] => None
  | d :: int' =>
      if char_eqb d 48%N && negb (match int' with [] => true | _ => false end)
      then None
      else
        let frac_r :=
          match s2 with
          | 46%N :: s' =>
              let (f, r) := span_digits s' in
              match f with
              | [] => None
              | _ => Some (f, r)
              end
          | _ => Some ([], s2)
          end in
        match frac_r with
        | None => None
        | Some (frac, s3) =>
            let exp_r :=
              match s3 with
              | c :: s' =>
                  if char_eqb c 101%N || char_eqb c 69%N then
                    let (eneg, s4) :=
                      match s' with
                      | 45%N :: s'' => (true, s'')
                      | 43%N :: s'' => (false, s'')
                      | _ => (false, s')
                      end in
                    let (ed, r) := span_digits s4 in
                    match ed with
                    | [] => None
                    | _ => Some ((if eneg then - digits_value ed
                                  else digits_value ed)%Z, r)
                    end
                  else Some (0%Z, s3)
              | [] => Some (0%Z, s3)
              end in
            match exp_r with
            | None => None
            | Some (ex, r) =>
                let m := digits_value (int ++ frac) in
                Some (JNumber (if neg then - m else m)%Z
                              (ex - Z.of_nat (length frac))%Z, r)
            end
        end
  end.

Fixpoint parse_value (fuel : nat) (s : jsstring) {struct fuel}
  : option (json * jsstring) :=
  match fuel with
  | O => None
  | S f =>
      match skip_ws s with
      | 110%N :: 117%N :: 108%N :: 108%N :: r => Some (JNull, r)
      | 116%N :: 114%N :: 117%N :: 101%N :: r => Some (JBool true, r)
      | 102%N :: 97%N :: 108%N :: 115%N :: 101%N :: r =>
          Some (JBool false, r)
      | 34%N :: r =>
          match parse_string r with
          | Some (t, r') => Some (JString t, r')
          | None => None
          end
      | 91%N :: r =>
          match skip_ws r with
          | 93%N :: r' => Some (JArray [], r')
          | _ => parse_elements f r []
          end
      | 123%N :: r =>
          match skip_ws r with
          | 125%N :: r' => Some (JObject [], r')
          | _ => parse_members f r []
          end
      | s' => parse_number s'
      end
  end

with parse_elements (fuel : nat) (s : jsstring) (acc : list json)
                    {struct fuel} : option (json * jsstring) :=
  match fuel with
  | O => None
  | S f =>
      match parse_value f s with
      | Some (v, r) =>
          match skip_ws r with
          | 44%N :: r' => parse_elements f r' (acc ++ [v])
          | 93%N :: r' => Some (JArray (acc ++ [v]), r')
          | _ => None
          end
      | None => None
      end
  end

with parse_members (fuel : nat) (s : jsstring)
                   (acc : list (jsstring * json))
                   {struct fuel} : option (json * jsstring) :=
  match fuel with
  | O => None
  | S f =>
      match skip_ws s with
      | 34%N :: r =>
          match parse_string r with
          | Some (key, r1) =>
              match skip_ws r1 with
              | 58%N :: r2 =>
                  match parse_value f r2 with
                  | Some (v, r3) =>
                      match skip_ws r3 with
                      | 44%N :: r4 => parse_members f r4 (obj_set key v acc)
                      | 125%N :: r4 =>
                          Some (JObject (obj_set key v acc), r4)
                      | _ => None
                      end
                  | None => None
                  end
              | _ => None
              end
          | None => None
          end
      | _ => None
      end
  end.

(** The whole text must be one value, with white space around it only. *)
Definition parse (s : jsstring) : option json :=
  match parse_value (2 * length s + 2) s with
  | Some (v, r) =>
      match skip_ws r with
      | [] => Some v
      | _ => None
      end
  | None => None
  end.

End Json.

Import Json.

(* ================================================================== *)
(** * The response normaliser of [processImage] *)
(* ================================================================== *)

(** The part of [processImage] that turns the model's [responseText] into
    the [comments] of the page. The calls that post a debug record to the
    local log collector do not touch the variables of the function (their
    rejections are swallowed by [.catch(()=>{})]) and are left out. *)
Module Normalizer.

(** [/```(?:json)?\s*([\s\S]*?)\s*```/] *)
Definition jsonBlock_re : regex :=
  sequence [lit (js "```"); opt (lit (js "json")); star is_space;
            Group 1 (lazy_star any); star is_space; lit (js "```")].

(** The class [[:\s]]. *)
Definition is_colon_or_space (c : char) : bool :=
  char_eqb c 58%N || is_space c.

(** The class of the two quotes. *)
Definition is_quote (c : char) : bool :=
  char_eqb c DQUOTE || char_eqb c SQUOTE.

(** The negated class of the two scraping patterns: every code unit but
    the double quote, the apostrophe and the line feed. *)
Definition not_quote_or_newline (c : char) : bool :=
  negb (char_eqb c DQUOTE || char_eqb c SQUOTE || char_eqb c LF).

(** [/(?:comment|text|username)[:\s]+[Q']?([^Q'\n]+)[Q']?/gi], with [Q]
    written for the double quote. *)
Definition commentPatterns_re : regex :=
  sequence [Alt (lit_i (js "comment"))
                (Alt (lit_i (js "text")) (lit_i (js "username")));
            plus is_colon_or_space; opt (Char is_quote);
            Group 1 (plus not_quote_or_newline); opt (Char is_quote)].

(** [/[Q']?([^Q'\n]+)[Q']?/], with [Q] written for the double quote. *)
Definition value_re : regex :=
  sequence [opt (Char is_quote); Group 1 (plus not_quote_or_newline);
            opt (Char is_quote)].

(** The object [{ text: t }]. *)
Definition text_comment (t : jsstring) : json :=
  JObject [(js "text", JString t)].

(** The object [{ comments: [...] }]. *)
Definition comments_object (l : list json) : json :=
  JObject [(js "comments", JArray l)].

(** Strategy 2 of the [try] block, on the current [jsonString]: the text
    from its first opening brace to its last closing brace, when the two
    exist in that order. *)
Definition braceSpan (jsonString : jsstring) : jsstring :=
  let firstBrace := indexOf [LBRACE] jsonString in
  let lastBrace := lastIndexOf [RBRACE] jsonString in
  if negb (firstBrace =? -1)%Z && negb (lastBrace =? -1)%Z
     && (firstBrace <? lastBrace)%Z
  then substring jsonString firstBrace (lastBrace + 1)
  else jsonString.

(** Strategy 1 and 2 of the [try] block: the text handed to
    [JSON.parse]. Reading group 1 of a match in which it did not take part
    would give [undefined], whose [trim] throws. *)
Definition jsonCandidate (responseText : jsstring) : result jsstring :=
  (jsonString <-
     match search jsonBlock_re (trim responseText) with
     | Some (_, caps) =>
         match capture 1 caps with
         | Some inner => Ok (trim inner)
         | None => Throw (Exn (js "Cannot read properties of undefined"))
         end
     | None => Ok (trim responseText)
     end ;;
   Ok (braceSpan jsonString))%result.

(** One element of [commentPatterns.map(...)]. A [text] that is
    [undefined] leaves no field in the serialised response. *)
Definition scraped_comment (pattern : jsstring) : json :=
  match search value_re pattern with
  | Some (_, caps) =>
      match capture 1 caps with
      | Some t => text_comment t
      | None => JObject []
      end
  | None => text_comment pattern
  end.

(** The [catch (parseError)] block: pattern scraping, then the last
    resort. *)
Definition fallback (responseText : jsstring) : json :=
  match match_global commentPatterns_re responseText with
  | Some (p :: ps) => comments_object (map scraped_comment (p :: ps))
  | _ => comments_object [text_comment (substring responseText 0 500)]
  end.

Section WithParser.

(** [JSON.parse], [None] standing for its SyntaxError. *)
Variable JSON_parse : jsstring -> option json.

Definition JSON_parse_throw (s : jsstring) : result json :=
  match JSON_parse s with
  | Some v => Ok v
  | None => Throw (Exn (js "Unexpected token in JSON"))
  end.

(** The [try] block: the value of [parsedComments] when it completes. *)
Definition structured (responseText : jsstring) : result json :=
  (jsonString <- jsonCandidate responseText ;;
   parsedComments <- JSON_parse_throw jsonString ;;
   comments <- getProp parsedComments (js "comments") ;;
   if negb (truthy comments) || negb (isArray comments)
   then Throw (Exn (js "Invalid JSON structure: missing comments array"))
   else Ok parsedComments)%result.

(** [parsedComments] after the [try]/[catch] statement. *)
Definition parsedComments_of (responseText : jsstring) : result json :=
  try_catch (structured responseText)
            (fun parseError => Ok (fallback responseText)).

(** The [comments] field of the object [processImage] returns:
    [parsedComments.comments || []]. *)
Definition normalize (responseText : jsstring) : result json :=
  (parsedComments <- parsedComments_of responseText ;;
   comments <- getProp parsedComments (js "comments") ;;
   match comments with
   | Some v => if truthy comments then Ok v else Ok (JArray [])
   | None => Ok (JArray [])
   end)%result.

End WithParser.

End Normalizer.

(* ================================================================== *)
(** * The normaliser as the specification words it *)
(* ================================================================== *)

(** Section 4.3 of the specification, read literally, to be compared with
    [Normalizer.normalize]. *)
Module Spec.

(** The fields of a Comment. *)
Definition recognised (key : jsstring) : bool :=
  str_eqb key (js "username") || str_eqb key (js "text")
  || str_eqb key (js "timestamp") || str_eqb key (js "likes").

(** Step 4: an element is coerced into a Comment by keeping only the
    recognised fields and dropping everything else. Nothing is said of an
    element that is not an object; it is left as it is. *)
Definition coerce (v : json) : json :=
  match v with
  | JObject fields => JObject (filter (fun kv => recognised (fst kv)) fields)
  | _ => v
  end.

(** Step 2: the text from the first opening brace to the last closing
    brace of the raw text, when there is one. *)
Definition braceCandidate (raw : jsstring) : option jsstring :=
  let firstBrace := indexOf [LBRACE] raw in
  let lastBrace := lastIndexOf [RBRACE] raw in
  if (0 <=? firstBrace)%Z && (firstBrace <? lastBrace)%Z
  then Some (substring raw firstBrace (lastBrace + 1))
  else None.

(** Step 1: the inner content of a fenced block, optionally tagged. *)
Definition fenced (raw : jsstring) : option jsstring :=
  match search Normalizer.jsonBlock_re raw with
  | Some (_, caps) => capture 1 caps
  | None => None
  end.

Section WithParser.

Variable JSON_parse : jsstring -> option json.

(** Step 4 on one candidate: the parsed value must be an object with a
    field holding an array, whose elements are coerced. *)
Inductive attempt : Type :=
| Recovered (l : list json) : attempt
| WrongShape : attempt
| NoParse : attempt.

Definition attempt_of (candidate : jsstring) : attempt :=
  match JSON_parse candidate with
  | Some (JObject fields) =>
      match lookup (js "comments") fields with
      | Some (JArray l) => Recovered (map coerce l)
      | _ => WrongShape
      end
  | Some _ => WrongShape
  | None => NoParse
  end.

(** Steps 5 and 6 are taken as the code has them. *)
Definition lastLayers (raw : jsstring) : list json :=
  match Normalizer.fallback raw with
  | JObject [(_, JArray l)] => l
  | _ => []
  end.

(** Step 3: the raw text itself, when neither a fence nor a brace span
    gave a candidate. *)
Definition wholeLayer (raw : jsstring) : list json :=
  match attempt_of raw with
  | Recovered l => l
  | _ => lastLayers raw
  end.

(** Step 2: the brace span of the raw text. *)
Definition braceLayer (raw : jsstring) : list json :=
  match braceCandidate raw with
  | Some span =>
      match attempt_of span with
      | Recovered l => l
      | _ => lastLayers raw
      end
  | None =>
      match fenced raw with
      | Some _ => lastLayers raw
      | None => wholeLayer raw
      end
  end.

(** The layers in order, the first success winning: the fenced content;
    if no fence matched or its content did not parse, the brace span of
    the raw text; if neither gave a candidate, the raw text itself. A
    parsed value of the wrong shape falls through to the pattern
    scraping. *)
Definition ladder (raw : jsstring) : list json :=
  match fenced raw with
  | Some inner =>
      match attempt_of inner with
      | Recovered l => l
      | WrongShape => lastLayers raw
      | NoParse => braceLayer raw
      end
  | None => braceLayer raw
  end.

End WithParser.

End Spec.

(* ================================================================== *)
(** * The parsing ladder of [src/app/api/process-images/route.ts] *)
(* ================================================================== *)

(** The image-only route parses the response with three patterns tried in
    turn and has neither a scraping step nor a length limit. *)
Module RouteTs.

(** [/```json\s*([\s\S]*?)\s*```/] *)
Definition jsonFence_re : regex :=
  sequence [lit (js "```json"); star is_space; Group 1 (lazy_star any);
            star is_space; lit (js "```")].

(** [/```\s*([\s\S]*?)\s*```/] *)
Definition fence_re : regex :=
  sequence [lit (js "```"); star is_space; Group 1 (lazy_star any);
            star is_space; lit (js "```")].

(** [/\{[\s\S]*\}/] *)
Definition braces_re : regex :=
  sequence [Char (char_eqb LBRACE); star any; Char (char_eqb RBRACE)].

(** [a || b || c] on the results of [match]. *)
Definition jsonMatch (responseText : jsstring)
  : option (jsstring * captures) :=
  match search jsonFence_re responseText with
  | Some m => Some m
  | None =>
      match search fence_re responseText with
      | Some m => Some m
      | None => search braces_re responseText
      end
  end.

(** [jsonMatch[1] || jsonMatch[0]]: an empty or missing group 1 is falsy. *)
Definition matched_text (m : jsstring * captures) : jsstring :=
  match capture 1 (snd m) with
  | Some (x :: g) => x :: g
  | _ => fst m
  end.

Section WithParser.

Variable JSON_parse : jsstring -> option json.

Definition parsedComments_of (responseText : jsstring) : json :=
  match
    match jsonMatch responseText with
    | Some m => JSON_parse (matched_text m)
    | None => JSON_parse responseText
    end
  with
  | Some v => v
  | None =>
      Normalizer.comments_object [Normalizer.text_comment responseText]
  end.

(** [parsedComments.comments || []], evaluated outside the inner [try]. *)
Definition normalize (responseText : jsstring) : result json :=
  (comments <- getProp (parsedComments_of responseText) (js "comments") ;;
   match comments with
   | Some v => if truthy comments then Ok v else Ok (JArray [])
   | None => Ok (JArray [])
   end)%result.

End WithParser.

(** ** Facts on the ladder of [route.ts] *)

Section Facts.

Variable P : jsstring -> option json.

(** The text [route.ts] hands to the parser. *)
Definition selected (responseText : jsstring) : jsstring :=
  match jsonMatch responseText with
  | Some m => matched_text m
  | None => responseText
  end.

(** When the selected text does not parse, [route.ts] returns one comment
    holding the whole response: it has no scraping step and no limit on
    the length. *)
Lemma route_last_resort_whole_text (responseText : jsstring) :
  P (selected responseText) = None ->
  normalize P responseText
  = Ok (JArray [JObject [(js "text", JString responseText)]]).
Proof.
  intros H. unfold normalize, parsedComments_of.
  replace (match jsonMatch responseText with
           | Some m => P (matched_text m)
           | None => P responseText
           end) with (P (selected responseText))
    by (unfold selected; destruct (jsonMatch responseText); reflexivity).
  rewrite H. reflexivity.
Qed.

(** When the selected text parses to [null], reading [comments] throws,
    outside the inner [try]. *)
Lemma route_null_throws (responseText : jsstring) :
  P (selected responseText) = Some JNull ->
  exists e, normalize P responseText = Throw e.
Proof.
  intros H. unfold normalize, parsedComments_of.
  replace (match jsonMatch responseText with
           | Some m => P (matched_text m)
           | None => P responseText
           end) with (P (selected responseText))
    by (unfold selected; destruct (jsonMatch responseText); reflexivity).
  rewrite H. eexists. reflexivity.
Qed.

End Facts.

(** 600 code units of prose. *)
Definition long_prose : jsstring := concat (repeat (js "no comments ") 50).

Lemma route_last_resort_whole_text_witness :
  parse (selected long_prose) = None
  /\ normalize parse long_prose
     = Ok (JArray [JObject [(js "text", JString long_prose)]])
  /\ length long_prose = 600.
Proof.
  assert (H : parse (selected long_prose) = None)
    by (vm_compute; reflexivity).
  split; [exact H|]. split; [|vm_compute; reflexivity].
  apply (route_last_resort_whole_text parse _ H).
Defined.

Lemma route_null_throws_witness :
  parse (selected (js "null")) = Some JNull
  /\ exists e, normalize parse (js "null") = Throw e.
Proof.
  assert (H : parse (selected (js "null")) = Some JNull)
    by (vm_compute; reflexivity).
  split; [exact H|].
  apply (route_null_throws parse _ H).
Defined.

End RouteTs.


(* ================================================================== *)
(** * Facts on the normaliser *)
(* ================================================================== *)

Module NormalizerFacts.
Import JsFacts RegexFacts Normalizer.

(** ** Notions used in the statements *)

(** The fence: three backticks. *)
Definition bt3 : jsstring := js "```".

(** A text that starts with an opening brace and ends with a closing
    one, as the text of a JSON object does. *)
Definition braced (body : jsstring) : Prop :=
  exists mid, body = LBRACE :: mid ++ [RBRACE].

(** The comments the [catch] block builds. *)
Definition fallback_comments (raw : jsstring) : list json :=
  match match_global commentPatterns_re raw with
  | Some (p :: ps) => map scraped_comment (p :: ps)
  | _ => [text_comment (substring raw 0 500)]
  end.

(** The content of the first fenced block of a text, if there is one. *)
Definition fenced_inner (s : jsstring) : option jsstring :=
  match search jsonBlock_re s with
  | Some (_, caps) => capture 1 caps
  | None => None
  end.

(** The text [jsonCandidate] narrows before taking the brace span. *)
Definition narrowed (responseText : jsstring) : jsstring :=
  match fenced_inner (trim responseText) with
  | Some inner => trim inner
  | None => trim responseText
  end.

(** A language tag after the opening fence: no white space, no backtick,
    no opening brace. *)
Definition tag_char (c : char) : bool :=
  negb (is_space c) && negb (char_eqb BACKTICK c) && negb (char_eqb LBRACE c).

(** What [\s*([\s\S]*?)\s*```] captures in front of a braced text that is
    followed by white space and the closing fence. *)
Definition captured (tag ws1 body : jsstring) : jsstring :=
  match tag with
  | [] => body
  | _ => tag ++ ws1 ++ body
  end.

(** The labels of [commentPatterns_re]. *)
Definition labels : list jsstring :=
  [js "comment"; js "text"; js "username"].

(** A lower-case ASCII letter. *)
Definition is_lower (c : char) : bool := ((97 <=? c) && (c <=? 122))%N.

(** The end of [jsonBlock_re]: white space, then the closing fence. *)
Definition closes (s : jsstring) : bool := startsWith bt3 (trimStart s).

(** The closing fence in front of a continuation. *)
Definition close_k (R : Type) (k : jsstring -> captures -> option R)
  : jsstring -> captures -> option R :=
  fun s c => if startsWith bt3 s then k (skipn 3 s) c else None.

(** The continuation of a whole pattern: the match is complete. *)
Definition done : jsstring -> captures -> option (jsstring * captures) :=
  fun s c => Some (s, c).

(** [([\s\S]*?)\s*```] at [s]: the group ends at the first place from
    which only white space separates it from three backticks. *)
Definition group_k (s : jsstring) (c : captures)
  : option (jsstring * captures) :=
  lazy_class any
    (fun s' c' => close_k done (trimStart s') ((1, consumed s s') :: c')) s c.

(** [\s*([\s\S]*?)\s*```] *)
Definition after_tag (s : jsstring) (c : captures)
  : option (jsstring * captures) :=
  greedy_class is_space group_k s c.

(** ** The shape of [normalize] *)

Lemma candidate_no_fence s :
  search jsonBlock_re (trim s) = None ->
  jsonCandidate s = Ok (braceSpan (trim s)).
Proof.
  intros H. unfold jsonCandidate. rewrite H. reflexivity.
Qed.

Lemma candidate_fence s whole caps inner :
  search jsonBlock_re (trim s) = Some (whole, caps) ->
  capture 1 caps = Some inner ->
  jsonCandidate s = Ok (braceSpan (trim inner)).
Proof.
  intros H G. unfold jsonCandidate. rewrite H, G. reflexivity.
Qed.

Lemma brace_span_braced body : braced body -> braceSpan body = body.
Proof.
  intros [mid ->]. unfold braceSpan.
  rewrite indexOf_head.
  change (LBRACE :: mid ++ [RBRACE]) with ((LBRACE :: mid) ++ [RBRACE]).
  rewrite lastIndexOf_last.
  destruct (_ && _); [|reflexivity].
  replace (Z.of_nat (length (LBRACE :: mid)) + 1)%Z
    with (Z.of_nat (length ((LBRACE :: mid) ++ [RBRACE])))
    by (rewrite length_app; simpl; lia).
  apply substring_whole.
Qed.

(** The brace span of a braced text behind a prefix without opening
    brace is the braced text. *)
Lemma brace_span_prefixed pre body :
  forallb (fun x => negb (char_eqb LBRACE x)) pre = true ->
  braced body -> braceSpan (pre ++ body) = body.
Proof.
  intros Hpre [mid ->]. unfold braceSpan.
  rewrite (indexOf_skip LBRACE pre (mid ++ [RBRACE]) Hpre).
  replace (pre ++ LBRACE :: mid ++ [RBRACE])
    with ((pre ++ LBRACE :: mid) ++ [RBRACE])
    by list_norm.
  rewrite lastIndexOf_last.
  rewrite length_app. simpl length.
  replace (negb (Z.of_nat (length pre) =? -1)%Z) with true
    by (symmetry; apply negb_true_iff, Z.eqb_neq; lia).
  replace (negb (Z.of_nat (length pre + S (length mid)) =? -1)%Z) with true
    by (symmetry; apply negb_true_iff, Z.eqb_neq; lia).
  replace (Z.of_nat (length pre) <? Z.of_nat (length pre + S (length mid)))%Z
    with true by (symmetry; apply Z.ltb_lt; lia).
  cbn [andb].
  replace ((pre ++ LBRACE :: mid) ++ [RBRACE])
    with (pre ++ (LBRACE :: mid ++ [RBRACE]) ++ [])
    by (rewrite app_nil_r; list_norm).
  replace (Z.of_nat (length pre + S (length mid)) + 1)%Z
    with (Z.of_nat (length pre + length (LBRACE :: mid ++ [RBRACE])))
    by (simpl length; rewrite length_app; simpl; lia).
  apply substring_middle.
Qed.

(** The brace span is the text itself or a braced part of it. *)
Lemma brace_span_cases s : braceSpan s = s \/ braced (braceSpan s).
Proof.
  unfold braceSpan.
  destruct (negb (indexOf [LBRACE] s =? -1)%Z
            && negb (lastIndexOf [RBRACE] s =? -1)%Z
            && (indexOf [LBRACE] s <? lastIndexOf [RBRACE] s)%Z) eqn:E;
    [|left; reflexivity].
  right.
  apply andb_true_iff in E. destruct E as [E E3].
  apply andb_true_iff in E. destruct E as [E1 E2].
  apply negb_true_iff, Z.eqb_neq in E1, E2. apply Z.ltb_lt in E3.
  pose proof (lastIndexOf_nonneg_bound [RBRACE] s) as B2.
  assert (B1 : (0 <= indexOf [LBRACE] s)%Z).
  { clear -E1. induction s as [|x s IH]; cbn [indexOf startsWith] in *.
    - contradiction.
    - destruct (char_eqb LBRACE x && true); [lia|].
      destruct (indexOf [LBRACE] s <? 0)%Z eqn:E; [contradiction|].
      apply Z.ltb_ge in E. lia. }
  destruct (@substring_between LBRACE RBRACE s (indexOf [LBRACE] s)
              (lastIndexOf [RBRACE] s) B1 E3) as [mid Hmid].
  - destruct (indexOf_split LBRACE s B1) as [pre [rest [Ea Eb]]].
    exists pre, rest. split; assumption.
  - destruct (lastIndexOf_split RBRACE s ltac:(lia)) as [pre [rest [Ea Eb]]].
    exists pre, rest. split; assumption.
  - exists mid. exact Hmid.
Qed.

Lemma braced_trim ws1 ws2 body :
  forallb is_space ws1 = true -> forallb is_space ws2 = true ->
  braced body -> trim (ws1 ++ body ++ ws2) = body.
Proof.
  intros H1 H2 [mid ->]. apply trim_core; auto.
Qed.

Section WithParser.

Variable P : jsstring -> option json.

Lemma structured_ok_shape raw v :
  structured P raw = Ok v ->
  exists l, getProp v (js "comments") = Ok (Some (JArray l)).
Proof.
  unfold structured, JSON_parse_throw.
  destruct (jsonCandidate raw) as [c|e]; cbn [rbind]; [|discriminate].
  destruct (P c) as [w|]; cbn [rbind]; [|discriminate].
  destruct (getProp w (js "comments")) as [o|e] eqn:G; cbn [rbind];
    [|discriminate].
  destruct o as [[| | | |l|]|]; cbn; try discriminate.
  - destruct b; discriminate.
  - destruct (number_is_zero m e); discriminate.
  - destruct s; discriminate.
  - intros H. inversion H. subst w. exists l. exact G.
Qed.

Lemma structured_accepts raw c fields l :
  jsonCandidate raw = Ok c -> P c = Some (JObject fields) ->
  lookup (js "comments") fields = Some (JArray l) ->
  structured P raw = Ok (JObject fields).
Proof.
  intros Hc Hp Hl. unfold structured, JSON_parse_throw.
  rewrite Hc. cbn [rbind]. rewrite Hp. cbn [rbind getProp].
  rewrite Hl. reflexivity.
Qed.

Lemma structured_rejects raw c v :
  jsonCandidate raw = Ok c -> P c = Some v ->
  (forall l, getProp v (js "comments") <> Ok (Some (JArray l))) ->
  exists e, structured P raw = Throw e.
Proof.
  intros Hc Hp Hs. unfold structured, JSON_parse_throw.
  rewrite Hc. cbn [rbind]. rewrite Hp. cbn [rbind].
  destruct (getProp v (js "comments")) as [o|e] eqn:G; cbn [rbind].
  - destruct o as [[| | | |l|]|]; cbn [isArray]; rewrite ?orb_true_r;
      try (eexists; reflexivity).
    exfalso. apply (Hs l). reflexivity.
  - eexists. reflexivity.
Qed.

Lemma structured_parse_failure raw c :
  jsonCandidate raw = Ok c -> P c = None ->
  exists e, structured P raw = Throw e.
Proof.
  intros Hc Hp. unfold structured, JSON_parse_throw.
  rewrite Hc. cbn [rbind]. rewrite Hp. eexists. reflexivity.
Qed.

Lemma normalize_of_structured raw v l :
  structured P raw = Ok v ->
  getProp v (js "comments") = Ok (Some (JArray l)) ->
  normalize P raw = Ok (JArray l).
Proof.
  intros H G. unfold normalize, parsedComments_of.
  rewrite H. cbn [try_catch rbind]. rewrite G. reflexivity.
Qed.

Lemma fallback_object raw :
  fallback raw = comments_object (fallback_comments raw).
Proof.
  unfold fallback, fallback_comments.
  destruct (match_global commentPatterns_re raw) as [[|p ps]|]; reflexivity.
Qed.

Lemma fallback_comments_nonempty raw : fallback_comments raw <> [].
Proof.
  unfold fallback_comments.
  destruct (match_global commentPatterns_re raw) as [[|p ps]|];
    discriminate.
Qed.

Lemma normalize_of_failure raw e :
  structured P raw = Throw e ->
  normalize P raw = Ok (JArray (fallback_comments raw)).
Proof.
  intros H. unfold normalize, parsedComments_of.
  rewrite H. cbn [try_catch rbind]. rewrite fallback_object. reflexivity.
Qed.

(** [normalize] returns an array, whatever the parser and the text. *)
Lemma normalize_ok raw : exists l, normalize P raw = Ok (JArray l).
Proof.
  destruct (structured P raw) as [v|e] eqn:E.
  - destruct (structured_ok_shape _ E) as [l G].
    exists l. apply (normalize_of_structured _ E G).
  - eexists. apply (normalize_of_failure _ E).
Qed.

End WithParser.

(** ** The fence pattern *)

Lemma space_not_backtick x : is_space x = true -> char_eqb BACKTICK x = false.
Proof.
  intros H. unfold char_eqb. destruct (N.eqb_spec BACKTICK x) as [E|E];
    [|reflexivity].
  subst x. discriminate H.
Qed.

Lemma space_not_lbrace x : is_space x = true -> char_eqb LBRACE x = false.
Proof.
  intros H. unfold char_eqb. destruct (N.eqb_spec LBRACE x) as [E|E];
    [|reflexivity].
  subst x. discriminate H.
Qed.

(** A match of [jsonBlock_re] starts on three backticks. *)
Lemma exec_jsonBlock_open s :
  startsWith bt3 s = false -> exec_at jsonBlock_re s = None.
Proof.
  intros H. unfold exec_at, jsonBlock_re.
  rewrite run_seq_cons, run_lit. fold bt3. rewrite H. reflexivity.
Qed.

Lemma search_jsonBlock_none s :
  includes bt3 s = false -> search jsonBlock_re s = None.
Proof.
  induction s as [|x s IH]; intros H.
  - cbn [search]. rewrite exec_jsonBlock_open; [reflexivity|].
    apply includes_false_startsWith, H.
  - cbn [search]. rewrite exec_jsonBlock_open
      by (apply includes_false_startsWith, H).
    apply IH. apply includes_cons_false in H. apply H.
Qed.

Lemma candidate_plain ws1 ws2 body :
  forallb is_space ws1 = true -> forallb is_space ws2 = true ->
  braced body -> includes bt3 body = false ->
  jsonCandidate (ws1 ++ body ++ ws2) = Ok body.
Proof.
  intros H1 H2 Hb Hf.
  rewrite candidate_no_fence; rewrite (braced_trim _ _ H1 H2 Hb).
  - f_equal. apply brace_span_braced, Hb.
  - apply search_jsonBlock_none, Hf.
Qed.

Lemma greedy_space_close (R : Type) (k : jsstring -> captures -> option R) s c :
  greedy_class is_space (close_k k) s c = close_k k (trimStart s) c.
Proof.
  induction s as [|x s IH]; cbn [greedy_class trimStart]; [reflexivity|].
  destruct (is_space x) eqn:E; [|reflexivity].
  rewrite IH. destruct (close_k k (trimStart s) c) eqn:E2; [reflexivity|].
  unfold close_k. cbn [bt3 js list_ascii_of_string map startsWith].
  change (N_of_ascii "`"%char) with BACKTICK.
  rewrite (space_not_backtick _ E). reflexivity.
Qed.

Lemma run_after_tag s c :
  run (sequence [star is_space; Group 1 (lazy_star any); star is_space;
            lit (js "```")]) s c done = after_tag s c.
Proof.
  rewrite run_seq_cons, run_star. unfold after_tag.
  apply greedy_class_ext. clear s c. intros s c.
  rewrite run_seq_cons. cbn [run]. rewrite run_lazy_star. unfold group_k.
  apply lazy_class_ext. intros s' c'.
  rewrite run_seq_cons, run_star.
  rewrite (greedy_class_ext is_space
             (fun s0 c0 => run (sequence [lit (js "```")]) s0 c0 done)
             (close_k done)).
  - apply greedy_space_close.
  - intros s0 c0. cbn [sequence]. rewrite run_lit. reflexivity.
Qed.

Lemma exec_jsonBlock_eq s :
  exec_at jsonBlock_re s =
  if startsWith bt3 s then
    match (if startsWith (js "json") (skipn 3 s)
           then after_tag (skipn 4 (skipn 3 s)) [] else None) with
    | Some x => Some x
    | None => after_tag (skipn 3 s) []
    end
  else None.
Proof.
  unfold exec_at, jsonBlock_re. rewrite run_seq_cons, run_lit.
  fold bt3. destruct (startsWith bt3 s); [|reflexivity].
  change (length bt3) with 3.
  rewrite run_seq_cons. unfold opt. cbn [run]. rewrite run_lit.
  change (length (js "json")) with 4.
  fold done. rewrite !run_after_tag. reflexivity.
Qed.

(** No nonempty suffix of a text that ends with a closing brace and holds
    no three backticks in a row can be closed by what follows it. *)
Lemma no_close_inside b0 t :
  includes bt3 (b0 ++ [RBRACE]) = false ->
  closes (b0 ++ [RBRACE] ++ t) = false.
Proof.
  unfold closes. induction b0 as [|x b0 IH]; intros H.
  - reflexivity.
  - change ((x :: b0) ++ [RBRACE] ++ t) with (x :: (b0 ++ [RBRACE] ++ t)).
    change ((x :: b0) ++ [RBRACE]) with (x :: (b0 ++ [RBRACE])) in H.
    apply includes_cons_false in H. destruct H as [H1 H2].
    cbn [trimStart]. destruct (is_space x); [apply IH, H2|].
    change bt3 with [BACKTICK; BACKTICK; BACKTICK] in *.
    destruct b0 as [|y [|z b0]]; cbn [startsWith app] in *.
    + destruct (char_eqb BACKTICK x); reflexivity.
    + destruct (char_eqb BACKTICK x), (char_eqb BACKTICK y); reflexivity.
    + exact H1.
Qed.

Lemma suffix_of_braced_tail (a b X0 : jsstring) :
  X0 ++ [RBRACE] = a ++ b -> b <> [] -> exists b0, b = b0 ++ [RBRACE].
Proof.
  intros E Hb.
  destruct (exists_last Hb) as [b0 [y ->]].
  exists b0. rewrite app_assoc in E. apply app_inj_tail in E.
  destruct E as [_ ->]. reflexivity.
Qed.

Lemma group_k_closes X0 ws2 c :
  includes bt3 (X0 ++ [RBRACE]) = false ->
  forallb is_space ws2 = true ->
  group_k ((X0 ++ [RBRACE]) ++ ws2 ++ bt3) c =
  Some ([], (1, X0 ++ [RBRACE]) :: c).
Proof.
  intros Hx Hws. unfold group_k.
  apply lazy_any_first.
  - intros a b E Hb.
    destruct (suffix_of_braced_tail _ _ E Hb) as [b0 ->].
    assert (Hc : closes ((b0 ++ [RBRACE]) ++ ws2 ++ bt3) = false).
    { rewrite <- app_assoc. apply no_close_inside.
      rewrite E in Hx. apply includes_false_suffix in Hx. exact Hx. }
    unfold closes in Hc. unfold close_k. rewrite Hc. reflexivity.
  - rewrite trimStart_spaces by exact Hws.
    rewrite consumed_app. reflexivity.
Qed.

Lemma tag_char_inv c :
  tag_char c = true ->
  is_space c = false /\ char_eqb BACKTICK c = false
  /\ char_eqb LBRACE c = false.
Proof.
  unfold tag_char. intros H.
  apply andb_true_iff in H. destruct H as [H H3].
  apply andb_true_iff in H. destruct H as [H1 H2].
  apply negb_true_iff in H1, H2, H3. auto.
Qed.

Lemma includes_bt3_prefix pre s :
  forallb (fun c => negb (char_eqb BACKTICK c)) pre = true ->
  includes bt3 s = false -> includes bt3 (pre ++ s) = false.
Proof.
  intros Hpre Hs. induction pre as [|x pre IH]; simpl app; [exact Hs|].
  cbn [forallb] in Hpre. apply andb_true_iff in Hpre.
  destruct Hpre as [Hx Hpre].
  apply negb_true_iff in Hx. specialize (IH Hpre).
  unfold includes in *. cbn [indexOf].
  change bt3 with [BACKTICK; BACKTICK; BACKTICK] at 1.
  cbn [startsWith]. rewrite Hx. cbn [andb].
  apply Z.leb_gt in IH.
  replace (indexOf bt3 (pre ++ s) <? 0)%Z with true
    by (symmetry; apply Z.ltb_lt; exact IH).
  reflexivity.
Qed.

Lemma after_tag_wrapped tag ws1 body ws2 :
  forallb tag_char tag = true ->
  forallb is_space ws1 = true -> forallb is_space ws2 = true ->
  braced body -> includes bt3 body = false ->
  after_tag (tag ++ ws1 ++ body ++ ws2 ++ bt3) [] =
  Some ([], [(1, captured tag ws1 body)]).
Proof.
  intros Ht H1 H2 [mid Hb] Hf. unfold after_tag.
  assert (Hws1 : forallb (fun c => negb (char_eqb BACKTICK c)) ws1 = true).
  { revert H1. apply forallb_impl. intros x Hx.
    apply negb_true_iff, space_not_backtick, Hx. }
  destruct tag as [|x tag].
  - simpl app. unfold captured.
    apply greedy_class_skip; [exact H1 | subst body; reflexivity |].
    subst body.
    change ((LBRACE :: mid ++ [RBRACE]) ++ ws2 ++ bt3)
      with (((LBRACE :: mid) ++ [RBRACE]) ++ ws2 ++ bt3).
    apply group_k_closes; [exact Hf | exact H2].
  - unfold captured.
    cbn [forallb] in Ht. apply andb_true_iff in Ht. destruct Ht as [Hx Ht].
    destruct (tag_char_inv _ Hx) as [Hx1 [Hx2 Hx3]].
    assert (Htag : forallb (fun c => negb (char_eqb BACKTICK c))
                           (x :: tag) = true).
    { cbn [forallb]. rewrite Hx2. cbn [negb andb]. revert Ht.
      apply forallb_impl.
      intros y Hy. apply negb_true_iff. apply (tag_char_inv _ Hy). }
    subst body.
    change ((x :: tag) ++ ws1 ++ (LBRACE :: mid ++ [RBRACE]) ++ ws2 ++ bt3)
      with (x :: (tag ++ ws1 ++ (LBRACE :: mid ++ [RBRACE]) ++ ws2 ++ bt3)).
    cbn [greedy_class]. rewrite Hx1.
    replace (x :: tag ++ ws1 ++ (LBRACE :: mid ++ [RBRACE]) ++ ws2 ++ bt3)
      with ((((x :: tag) ++ ws1 ++ LBRACE :: mid) ++ [RBRACE]) ++ ws2 ++ bt3)
      by list_norm.
    replace ((x :: tag) ++ ws1 ++ LBRACE :: mid ++ [RBRACE])
      with (((x :: tag) ++ ws1 ++ LBRACE :: mid) ++ [RBRACE])
      by list_norm.
    apply group_k_closes; [|exact H2].
    replace (((x :: tag) ++ ws1 ++ LBRACE :: mid) ++ [RBRACE])
      with ((x :: tag) ++ ws1 ++ LBRACE :: mid ++ [RBRACE])
      by list_norm.
    apply includes_bt3_prefix; [exact Htag|].
    apply includes_bt3_prefix; [exact Hws1|].
    exact Hf.
Qed.

Lemma captured_span tag ws1 body :
  forallb tag_char tag = true -> forallb is_space ws1 = true ->
  braced body ->
  braceSpan (trim (captured tag ws1 body)) = body.
Proof.
  intros Ht H1 Hb. unfold captured. destruct tag as [|x tag].
  - destruct Hb as [mid ->]. rewrite trim_self by reflexivity.
    apply brace_span_braced. exists mid. reflexivity.
  - cbn [forallb] in Ht. apply andb_true_iff in Ht. destruct Ht as [Hx Ht].
    destruct (tag_char_inv _ Hx) as [Hx1 [Hx2 Hx3]].
    assert (E : trim ((x :: tag) ++ ws1 ++ body) = (x :: tag) ++ ws1 ++ body).
    { destruct Hb as [mid ->].
      replace ((x :: tag) ++ ws1 ++ LBRACE :: mid ++ [RBRACE])
        with (x :: (tag ++ ws1 ++ LBRACE :: mid) ++ [RBRACE])
        by list_norm.
      apply trim_self; [exact Hx1 | reflexivity]. }
    rewrite E. rewrite app_assoc. apply brace_span_prefixed; [|exact Hb].
    rewrite forallb_app. apply andb_true_iff. split.
    + cbn [forallb]. rewrite Hx3. cbn [negb andb]. revert Ht.
      apply forallb_impl.
      intros y Hy. apply negb_true_iff. apply (tag_char_inv _ Hy).
    + revert H1. apply forallb_impl. intros y Hy.
      apply negb_true_iff, space_not_lbrace, Hy.
Qed.

Lemma letter_not_head c h :
  is_space h = true \/ h = LBRACE ->
  is_space c = false -> char_eqb c LBRACE = false ->
  char_eqb c h = false.
Proof.
  intros [H|H] Hc1 Hc2.
  - unfold char_eqb. destruct (N.eqb_spec c h) as [E|E]; [|reflexivity].
    subst h. rewrite Hc1 in H. discriminate.
  - subst h. exact Hc2.
Qed.

Lemma head_after_tag ws1 body rest :
  forallb is_space ws1 = true -> braced body ->
  exists h r, ws1 ++ body ++ rest = h :: r
              /\ (is_space h = true \/ h = LBRACE).
Proof.
  intros H1 [mid ->]. destruct ws1 as [|w ws1].
  - exists LBRACE. eexists. split; [reflexivity | right; reflexivity].
  - cbn [forallb] in H1. apply andb_true_iff in H1.
    exists w. eexists. split; [reflexivity | left; apply H1].
Qed.

(** When the text after the opening fence starts with [json], these four
    letters belong to the tag. *)
Lemma json_prefix_tag tag ws1 body rest :
  forallb is_space ws1 = true -> braced body ->
  startsWith (js "json") (tag ++ ws1 ++ body ++ rest) = true ->
  exists tag', tag = js "json" ++ tag'.
Proof.
  intros H1 Hb H.
  destruct (@head_after_tag ws1 body rest H1 Hb) as [h [r [E Hh]]].
  rewrite E in H.
  change (js "json") with [106%N; 115%N; 111%N; 110%N] in *.
  assert (L : forall c, In c [106%N; 115%N; 111%N; 110%N] ->
                        char_eqb c h = false).
  { intros c Hc. apply letter_not_head; [exact Hh| |];
      simpl in Hc; decompose [or] Hc; subst; try reflexivity; contradiction. }
  destruct tag as [|a [|b [|c [|d tag']]]]; cbn [app startsWith] in H.
  - rewrite (L 106%N) in H by (simpl; auto). discriminate.
  - rewrite (L 115%N) in H by (simpl; auto).
    rewrite andb_false_r in H. discriminate.
  - rewrite (L 111%N) in H by (simpl; auto).
    rewrite !andb_false_r in H. discriminate.
  - rewrite (L 110%N) in H by (simpl; auto).
    rewrite !andb_false_r in H. discriminate.
  - exists tag'.
    apply andb_true_iff in H. destruct H as [Ha H].
    apply andb_true_iff in H. destruct H as [Hb' H].
    apply andb_true_iff in H. destruct H as [Hc H].
    apply andb_true_iff in H. destruct H as [Hd H].
    apply N.eqb_eq in Ha, Hb', Hc, Hd. subst. reflexivity.
Qed.

Lemma trim_fenced X : trim (bt3 ++ X ++ bt3) = bt3 ++ X ++ bt3.
Proof.
  replace (bt3 ++ X ++ bt3)
    with (BACKTICK :: ([BACKTICK; BACKTICK] ++ X ++ [BACKTICK; BACKTICK])
                   ++ [BACKTICK]).
  - apply trim_self; reflexivity.
  - change bt3 with ([BACKTICK; BACKTICK; BACKTICK]).
    change [BACKTICK; BACKTICK; BACKTICK]
      with ([BACKTICK; BACKTICK] ++ [BACKTICK]) at 2.
    list_norm.
Qed.

(** The JSON candidate of a fenced block is the braced text it wraps. *)
Lemma candidate_wrapped tag ws1 body ws2 :
  forallb tag_char tag = true ->
  forallb is_space ws1 = true -> forallb is_space ws2 = true ->
  braced body -> includes bt3 body = false ->
  jsonCandidate (bt3 ++ tag ++ ws1 ++ body ++ ws2 ++ bt3) = Ok body.
Proof.
  intros Ht H1 H2 Hb Hf.
  assert (Htrim : trim (bt3 ++ tag ++ ws1 ++ body ++ ws2 ++ bt3)
                  = bt3 ++ tag ++ ws1 ++ body ++ ws2 ++ bt3).
  { replace (tag ++ ws1 ++ body ++ ws2 ++ bt3)
      with ((tag ++ ws1 ++ body ++ ws2) ++ bt3) by list_norm.
    apply trim_fenced. }
  assert (Hsearch : exists tg,
             forallb tag_char tg = true /\
             search jsonBlock_re (bt3 ++ tag ++ ws1 ++ body ++ ws2 ++ bt3) =
             Some (bt3 ++ tag ++ ws1 ++ body ++ ws2 ++ bt3,
                   [(1, captured tg ws1 body)])).
  { assert (Hexec : exists tg,
               forallb tag_char tg = true /\
               exec_at jsonBlock_re
                       (bt3 ++ tag ++ ws1 ++ body ++ ws2 ++ bt3) =
               Some ([], [(1, captured tg ws1 body)])).
    { rewrite exec_jsonBlock_eq, startsWith_app.
      change (skipn 3 (bt3 ++ tag ++ ws1 ++ body ++ ws2 ++ bt3))
        with (tag ++ ws1 ++ body ++ ws2 ++ bt3).
      destruct (startsWith (js "json") (tag ++ ws1 ++ body ++ ws2 ++ bt3))
        eqn:Ej.
      - destruct (@json_prefix_tag _ _ _ _ H1 Hb Ej) as [tag' ->].
        exists tag'. cbn [forallb js list_ascii_of_string map app] in Ht.
        repeat (apply andb_true_iff in Ht; destruct Ht as [_ Ht]).
        split; [exact Ht|].
        change (skipn 4 ((js "json" ++ tag') ++ ws1 ++ body ++ ws2 ++ bt3))
          with (tag' ++ ws1 ++ body ++ ws2 ++ bt3).
        rewrite (@after_tag_wrapped tag' ws1 body ws2 Ht H1 H2 Hb Hf).
        reflexivity.
      - exists tag. split; [exact Ht|].
        rewrite (@after_tag_wrapped tag ws1 body ws2 Ht H1 H2 Hb Hf).
        reflexivity. }
    destruct Hexec as [tg [Htg Hexec]]. exists tg. split; [exact Htg|].
    change bt3 with [BACKTICK; BACKTICK; BACKTICK] in *.
    cbn [app] in *. cbn [search]. cbn [app] in Hexec. rewrite Hexec.
    rewrite consumed_nil. reflexivity. }
  destruct Hsearch as [tg [Htg Hsearch]].
  rewrite (@candidate_fence (bt3 ++ tag ++ ws1 ++ body ++ ws2 ++ bt3)
             (bt3 ++ tag ++ ws1 ++ body ++ ws2 ++ bt3)
             [(1, captured tg ws1 body)]
             (captured tg ws1 body)).
  - f_equal. apply captured_span; assumption.
  - rewrite Htrim. exact Hsearch.
  - reflexivity.
Qed.

Lemma greedy_class_inv (R : Type) p (k : jsstring -> captures -> option R) :
  forall s c x, greedy_class p k s c = Some x ->
                exists m s', s = m ++ s' /\ k s' c = Some x.
Proof.
  induction s as [|y s IH]; intros c x H; cbn [greedy_class] in H.
  - exists [], []. split; [reflexivity | exact H].
  - destruct (p y).
    + destruct (greedy_class p k s c) as [z|] eqn:E.
      * inversion H; subst z. apply IH in E.
        destruct E as [m [s' [E1 E2]]]. exists (y :: m), s'.
        split; [rewrite E1; reflexivity | exact E2].
      * exists [], (y :: s). split; [reflexivity | exact H].
    + exists [], (y :: s). split; [reflexivity | exact H].
Qed.

Lemma lazy_class_inv (R : Type) p (k : jsstring -> captures -> option R) :
  forall s c x, lazy_class p k s c = Some x ->
                exists m s', s = m ++ s' /\ k s' c = Some x.
Proof.
  induction s as [|y s IH]; intros c x H; cbn [lazy_class] in H.
  - destruct (k [] c) as [z|] eqn:E; [|discriminate].
    exists [], []. split; [reflexivity|]. rewrite E. exact H.
  - destruct (k (y :: s) c) as [z|] eqn:E.
    + exists [], (y :: s). split; [reflexivity|]. rewrite E. exact H.
    + destruct (p y); [|discriminate]. apply IH in H.
      destruct H as [m [s' [E1 E2]]]. exists (y :: m), s'.
      split; [rewrite E1; reflexivity | exact E2].
Qed.

(** Group 1 takes part in every match of [jsonBlock_re]. *)
Lemma after_tag_group s c rest caps :
  after_tag s c = Some (rest, caps) ->
  exists inner, caps = (1, inner) :: c.
Proof.
  unfold after_tag. intros H. apply greedy_class_inv in H.
  destruct H as [m [s1 [_ H]]]. unfold group_k in H.
  apply lazy_class_inv in H. destruct H as [m2 [s2 [_ H]]].
  unfold close_k, done in H.
  destruct (startsWith bt3 (trimStart s2)); [|discriminate].
  inversion H. eexists. reflexivity.
Qed.

Lemma exec_jsonBlock_group s rest caps :
  exec_at jsonBlock_re s = Some (rest, caps) ->
  exists inner, caps = [(1, inner)].
Proof.
  rewrite exec_jsonBlock_eq.
  destruct (startsWith bt3 s); [|discriminate].
  destruct (startsWith (js "json") (skipn 3 s)).
  - destruct (after_tag (skipn 4 (skipn 3 s)) []) as [[r c]|] eqn:E.
    + intros H. inversion H; subst. apply (after_tag_group _ _ E).
    + apply after_tag_group.
  - apply after_tag_group.
Qed.

Lemma search_jsonBlock_group s whole caps :
  search jsonBlock_re s = Some (whole, caps) ->
  exists inner, caps = [(1, inner)].
Proof.
  induction s as [|x s IH]; cbn [search].
  - destruct (exec_at jsonBlock_re []) as [[r c]|] eqn:E; [|discriminate].
    intros H. inversion H; subst. apply (exec_jsonBlock_group _ E).
  - destruct (exec_at jsonBlock_re (x :: s)) as [[r c]|] eqn:E.
    + intros H. inversion H; subst. apply (exec_jsonBlock_group _ E).
    + exact IH.
Qed.

Lemma candidate_narrowed raw :
  jsonCandidate raw = Ok (braceSpan (narrowed raw)).
Proof.
  unfold jsonCandidate, narrowed, fenced_inner.
  destruct (search jsonBlock_re (trim raw)) as [[w caps]|] eqn:E;
    [|reflexivity].
  destruct (search_jsonBlock_group _ E) as [inner ->]. reflexivity.
Qed.

Lemma structured_one_parse P Q raw :
  P (braceSpan (narrowed raw)) = Q (braceSpan (narrowed raw)) ->
  structured P raw = structured Q raw.
Proof.
  intros H. unfold structured, JSON_parse_throw.
  rewrite candidate_narrowed. cbn [rbind]. rewrite H. reflexivity.
Qed.

(** ** The scraping patterns *)

Lemma labels_alt (R : Type) (k : jsstring -> captures -> option R) s c x :
  run (Alt (lit_i (js "comment"))
           (Alt (lit_i (js "text")) (lit_i (js "username")))) s c k = Some x ->
  exists label, In label labels /\ startsWith_i label s = true
                /\ k (skipn (length label) s) c = Some x.
Proof.
  cbn [run]. rewrite !run_lit_i. intros H.
  destruct (startsWith_i (js "comment") s) eqn:E1;
    [destruct (k (skipn (length (js "comment")) s) c) as [y|] eqn:K1;
     [inversion H; subst y; exists (js "comment"); simpl; auto|]|];
    (destruct (startsWith_i (js "text") s) eqn:E2;
     [destruct (k (skipn (length (js "text")) s) c) as [y|] eqn:K2;
      [inversion H; subst y; exists (js "text"); simpl; auto|]|]);
    (destruct (startsWith_i (js "username") s) eqn:E3; [|discriminate]);
    exists (js "username"); simpl; auto.
Qed.

(** Every match of [commentPatterns_re] starts with one of the three
    labels, in any case. *)
Lemma exec_commentPatterns_label s rest caps :
  exec_at commentPatterns_re s = Some (rest, caps) ->
  exists label, In label labels
                /\ startsWith_i label (consumed s rest) = true.
Proof.
  unfold exec_at, commentPatterns_re. rewrite run_seq_cons. intros H.
  apply labels_alt in H. destruct H as [label [Hin [Hl Hk]]].
  exists label. split; [exact Hin|].
  apply run_suffix in Hk.
  destruct Hk as [m [s' [c' [E Hk]]]]. inversion Hk; subst s' c'.
  rewrite <- (firstn_skipn (length label) s) at 1.
  rewrite E, app_assoc, consumed_app.
  apply startsWith_i_app, startsWith_i_firstn, Hl.
Qed.

Lemma match_all_from_label skip s p :
  In p (match_all_from commentPatterns_re skip s) ->
  exists label, In label labels /\ startsWith_i label p = true.
Proof.
  revert skip. induction s as [|x s IH]; intros skip H.
  - destruct skip; cbn [match_all_from] in H; [|contradiction].
    destruct (exec_at commentPatterns_re []) as [[rest caps]|] eqn:E;
      [|contradiction].
    destruct H as [H|[]]. subst p.
    apply (exec_commentPatterns_label _ E).
  - destruct skip; cbn [match_all_from] in H.
    + destruct (exec_at commentPatterns_re (x :: s)) as [[rest caps]|] eqn:E.
      * destruct H as [H|H].
        -- subst p. apply (exec_commentPatterns_label _ E).
        -- apply IH in H. exact H.
      * apply IH in H. exact H.
    + apply IH in H. exact H.
Qed.

Lemma ci_letter x y :
  is_lower y = true ->
  char_eqb (canonicalize x) (canonicalize y) = true ->
  not_quote_or_newline x = true /\ is_quote x = false.
Proof.
  unfold is_lower, canonicalize, char_eqb, not_quote_or_newline, is_quote,
    char_eqb, DQUOTE, SQUOTE, LF.
  intros Hy H. rewrite Hy in H.
  apply andb_true_iff in Hy. destruct Hy as [Hy1 Hy2].
  apply N.leb_le in Hy1, Hy2. apply N.eqb_eq in H.
  assert (Hx : (65 <= x <= 90 \/ 97 <= x <= 122)%N).
  { destruct ((97 <=? x) && (x <=? 122))%N eqn:Ex.
    - apply andb_true_iff in Ex. destruct Ex as [E1 E2].
      apply N.leb_le in E1, E2. lia.
    - lia. }
  assert (E1 : (x =? 34)%N = false) by (apply N.eqb_neq; lia).
  assert (E2 : (x =? 39)%N = false) by (apply N.eqb_neq; lia).
  assert (E3 : (x =? 10)%N = false) by (apply N.eqb_neq; lia).
  rewrite E1, E2, E3. split; reflexivity.
Qed.

Lemma startsWith_i_take_while l p :
  forallb is_lower l = true ->
  startsWith_i l p = true ->
  startsWith_i l (take_while not_quote_or_newline p) = true.
Proof.
  revert p. induction l as [|y l IH]; intros p Hl H; [reflexivity|].
  destruct p as [|x p]; [discriminate|].
  cbn [forallb] in Hl. apply andb_true_iff in Hl. destruct Hl as [Hy Hl].
  cbn [startsWith_i] in H. apply andb_true_iff in H. destruct H as [H1 H2].
  destruct (@ci_letter x y Hy H1) as [Hn _].
  cbn [take_while]. rewrite Hn. cbn [startsWith_i].
  rewrite H1, (@IH p Hl H2). reflexivity.
Qed.

Lemma labels_lower label :
  In label labels -> forallb is_lower label = true.
Proof.
  intros H. simpl in H. decompose [or] H; subst; try reflexivity.
  contradiction.
Qed.

Lemma opt_quote_done s c :
  exists rest, run (opt (Char is_quote)) s c done = Some (rest, c).
Proof.
  unfold opt, done. cbn [run]. destruct s as [|x s].
  - exists []. reflexivity.
  - destruct (is_quote x); eexists; reflexivity.
Qed.

(** On a text whose first code unit is neither a quote nor a line feed,
    group 1 of [value_re] is the longest prefix without quote and line
    feed. *)
Lemma exec_value_re x p :
  is_quote x = false -> not_quote_or_newline x = true ->
  exists rest,
    exec_at value_re (x :: p) =
    Some (rest, [(1, take_while not_quote_or_newline (x :: p))]).
Proof.
  intros Hq Hn. unfold exec_at, value_re.
  rewrite run_seq_cons. unfold opt at 1. cbn [run]. rewrite Hq.
  rewrite run_seq_cons. cbn [run]. unfold plus. cbn [run]. rewrite Hn.
  fold (star not_quote_or_newline). rewrite run_star.
  destruct (opt_quote_done (drop_while not_quote_or_newline p)
              [(1, consumed (x :: p) (drop_while not_quote_or_newline p))])
    as [rest Hrest].
  exists rest.
  rewrite (greedy_class_longest not_quote_or_newline _ p []
             (r := (rest, [(1, take_while not_quote_or_newline (x :: p))]))).
  - reflexivity.
  - cbn [sequence]. fold done. rewrite Hrest.
    f_equal. f_equal. f_equal. f_equal.
    cbn [take_while]. rewrite Hn.
    rewrite <- (take_drop_while not_quote_or_newline p) at 1.
    change (x :: take_while not_quote_or_newline p
              ++ drop_while not_quote_or_newline p)
      with ((x :: take_while not_quote_or_newline p)
              ++ drop_while not_quote_or_newline p).
    apply consumed_app.
Qed.

Lemma scraped_comment_label label p :
  In label labels -> startsWith_i label p = true ->
  scraped_comment p = text_comment (take_while not_quote_or_newline p).
Proof.
  intros Hin H.
  assert (Hl := labels_lower Hin).
  destruct label as [|y label];
    [simpl in Hin; decompose [or] Hin; try discriminate; contradiction|].
  destruct p as [|x p]; [discriminate|].
  cbn [forallb] in Hl. apply andb_true_iff in Hl. destruct Hl as [Hy _].
  cbn [startsWith_i] in H. apply andb_true_iff in H. destruct H as [H1 _].
  destruct (@ci_letter x y Hy H1) as [Hn Hq].
  destruct (@exec_value_re x p Hq Hn) as [rest E].
  unfold scraped_comment. cbn [search]. rewrite E. cbn [capture Nat.eqb].
  reflexivity.
Qed.

(** Every comment the [catch] block builds is an object with the single
    field [text]. *)
Lemma fallback_comments_text raw :
  Forall (fun c => exists t, c = JObject [(js "text", JString t)])
         (fallback_comments raw).
Proof.
  unfold fallback_comments.
  destruct (match_global commentPatterns_re raw) as [[|p ps]|] eqn:Hm;
    try (constructor; [eexists; reflexivity | constructor]).
  apply Forall_forall. intros c Hc. apply in_map_iff in Hc.
  destruct Hc as [q [<- Hq]]. unfold match_global in Hm.
  destruct (match_all_from commentPatterns_re 0 raw) as [|a l] eqn:Ea;
    [discriminate|].
  inversion Hm; subst a l. rewrite <- Ea in Hq.
  destruct (match_all_from_label _ _ _ Hq) as [label [Hin Hl]].
  rewrite (@scraped_comment_label label q Hin Hl). eexists. reflexivity.
Qed.

End NormalizerFacts.

(* ================================================================== *)
(** * The normaliser: claims *)
(* ================================================================== *)

Module NormalizerClaims.
Import JsFacts RegexFacts Normalizer NormalizerFacts.

(** ** Concrete responses *)

(** A well-shaped response whose comment carries a field outside the
    data model. *)
Definition raw_extra_field : jsstring :=
  jsq "{'comments':[{'username':'ann','text':'hi','id':'7'}]}".

Definition elem_extra_field : json :=
  JObject [(js "username", JString (js "ann")); (js "text", JString (js "hi"));
           (js "id", JString (js "7"))].

(** A well-shaped response whose comment quotes a fenced word. *)
Definition raw_fence_in_text : jsstring :=
  jsq "{'comments':[{'text':'use ```code``` here'}]}".

(** A well-shaped response whose comment holds three backticks, and the
    same response inside a fenced block tagged [json]. *)
Definition json_with_backticks : jsstring :=
  jsq "{'comments':[{'text':'a```b'}]}".

Definition fenced_json_with_backticks : jsstring :=
  js "```json" ++ [LF] ++ json_with_backticks ++ [LF] ++ js "```".

(** Two comments, and the same text in a fenced block. *)
Definition two_comments : jsstring :=
  jsq "{'comments':[{'username':'ann','text':'hi'},{'text':'yo','likes':'3'}]}".

Definition two_comments_parsed : list json :=
  [JObject [(js "username", JString (js "ann"));
            (js "text", JString (js "hi"))];
   JObject [(js "text", JString (js "yo")); (js "likes", JString (js "3"))]].

(** 680 code units of prose. *)
Definition prose : jsstring :=
  concat (repeat (js "Sorry, I can not read this image. ") 20).

(** A response in the label and value form, the value in quotes. *)
Definition labelled_line : jsstring := jsq "username: 'bob'".

(** A fenced block whose content is a JSON array around a well-shaped
    object. *)
Definition raw_fenced_array : jsstring :=
  js "```" ++ [LF] ++ jsq "[{'comments':[]}]" ++ [LF] ++ js "```".

(** A JSON text of another shape, alone and in a fenced block. *)
Definition json_list : jsstring := js "[1]".

Definition fenced_json_list : jsstring :=
  js "```json" ++ [LF] ++ json_list ++ [LF] ++ js "```".

(** A well-shaped response whose array holds [null], a number and an
    object without [text]. *)
Definition raw_mixed : jsstring :=
  jsq "{'comments':[null,7,{'username':'ann'}]}".

(** ** The claims of the specification that the code does not meet *)

(** An optional field of type [string]: absent, or a string. *)
Definition optional_string (v : option json) : bool :=
  match v with
  | None | Some (JString _) => true
  | _ => false
  end.

(** A value of the element type of [ProcessedComment.comments]: an
    object whose [text] is a string and whose [username], [timestamp] and
    [likes], when present, are strings. *)
Definition is_comment (c : json) : bool :=
  match c with
  | JObject fields =>
      match lookup (js "text") fields with
      | Some (JString _) => true
      | _ => false
      end
      && optional_string (lookup (js "username") fields)
      && optional_string (lookup (js "timestamp") fields)
      && optional_string (lookup (js "likes") fields)
  | _ => false
  end.

(** Section 4.3: the normaliser returns a sequence of comments. *)
Definition returns_comments (P : jsstring -> option json) (raw : jsstring)
  : Prop :=
  exists l, normalize P raw = Ok (JArray l) /\ forallb is_comment l = true.

(** Section 8: a response that is valid JSON of the expected shape gives
    every comment, each coerced to the fields of the data model. *)
Definition recovers_coerced (P : jsstring -> option json) (raw : jsstring)
  : Prop :=
  forall fields arr,
    P raw = Some (JObject fields) ->
    lookup (js "comments") fields = Some (JArray arr) ->
    normalize P raw = Ok (JArray (map Spec.coerce arr)).

(** Section 8: a fenced block around valid JSON gives the result of the
    JSON alone. *)
Definition fence_transparent (P : jsstring -> option json)
           (fencedText inner : jsstring) : Prop :=
  forall v, P inner = Some v -> normalize P fencedText = normalize P inner.

(** What the two statements on well-shaped responses share. *)
Lemma normalize_accepts (P : jsstring -> option json) raw c fields arr :
  jsonCandidate raw = Ok c -> P c = Some (JObject fields) ->
  lookup (js "comments") fields = Some (JArray arr) ->
  normalize P raw = Ok (JArray arr).
Proof.
  intros Hc Hp Hl.
  apply normalize_of_structured with (v := JObject fields).
  - apply structured_accepts with (c := c) (l := arr); assumption.
  - cbn [getProp]. rewrite Hl. reflexivity.
Qed.

(** C1, as amended. For every parser and every response text,
    [normalize] returns an array and does not throw. Either the [try]
    block completed and the array is the [comments] array of the parsed
    object, its elements as they were parsed, whatever they are; or a
    step of the [try] block failed and the array is the one the [catch]
    block builds, which is not empty and whose elements are objects with
    the single field [text], a string. *)
Theorem normalize_never_throws (P : jsstring -> option json)
        (responseText : jsstring) :
  exists l,
    normalize P responseText = Ok (JArray l)
    /\ ((exists v, structured P responseText = Ok v
                   /\ getProp v (js "comments") = Ok (Some (JArray l)))
        \/ (exists e, structured P responseText = Throw e
                      /\ l = fallback_comments responseText
                      /\ l <> []
                      /\ Forall (fun c =>
                                   exists t,
                                     c = JObject [(js "text", JString t)])
                                l
                      /\ forallb is_comment l = true)).
Proof.
  destruct (structured P responseText) as [v|e] eqn:E.
  - destruct (structured_ok_shape _ _ E) as [l G].
    exists l. split.
    + apply (normalize_of_structured _ _ E G).
    + left. exists v. split; [reflexivity | exact G].
  - exists (fallback_comments responseText). split.
    + apply (normalize_of_failure _ _ E).
    + right. exists e. split; [reflexivity|]. split; [reflexivity|].
      split; [apply fallback_comments_nonempty|].
      pose proof (fallback_comments_text responseText) as H.
      split; [exact H|].
      apply forallb_forall. rewrite Forall_forall in H.
      intros c Hc. destruct (H c Hc) as [t ->]. reflexivity.
Qed.

(** C1 fails as stated: the elements of the parsed array are returned as
    they are, so a well-shaped response whose array holds [null] and a
    number gives an array that starts with [null], which is no
    comment. *)
Lemma parsed_elements_returned_as_they_are :
  normalize parse raw_mixed
  = Ok (JArray [JNull; JNumber 7 0;
                JObject [(js "username", JString (js "ann"))]])
  /\ is_comment JNull = false
  /\ is_comment (JNumber 7 0) = false
  /\ is_comment (JObject [(js "username", JString (js "ann"))]) = false
  /\ ~ returns_comments parse raw_mixed.
Proof.
  assert (E : normalize parse raw_mixed
              = Ok (JArray [JNull; JNumber 7 0;
                            JObject [(js "username",
                                      JString (js "ann"))]]))
    by (vm_compute; reflexivity).
  split; [exact E|]. split; [reflexivity|]. split; [reflexivity|].
  split; [reflexivity|].
  intros [l [Hl Hc]]. rewrite E in Hl. inversion Hl; subst l.
  discriminate Hc.
Qed.

(** C4. When the JSON candidate of a response does not parse and the
    scraping pattern matches nowhere in it, [normalize] returns exactly
    one comment: the object whose only field is [text], holding the
    first 500 code units of the response, which is the whole response
    when it is no longer than that. *)
Theorem last_resort_truncates (P : jsstring -> option json)
        (responseText : jsstring) :
  (forall c, jsonCandidate responseText = Ok c -> P c = None) ->
  match_global commentPatterns_re responseText = None ->
  normalize P responseText
  = Ok (JArray [JObject [(js "text",
                          JString (firstn 500 responseText))]])
  /\ length (firstn 500 responseText) = Nat.min 500 (length responseText)
  /\ (length responseText <= 500 ->
      firstn 500 responseText = responseText).
Proof.
  intros Hparse Hscrape.
  split; [|split; [apply length_firstn | apply firstn_all2]].
  destruct (structured_parse_failure P responseText
              (candidate_narrowed responseText)
              (Hparse _ (candidate_narrowed responseText))) as [e E].
  rewrite (normalize_of_failure _ _ E).
  unfold fallback_comments. rewrite Hscrape.
  change 500%Z with (Z.of_nat 500). rewrite substring_prefix. reflexivity.
Qed.

Lemma last_resort_truncates_witness :
  (forall c, jsonCandidate prose = Ok c -> parse c = None)
  /\ match_global commentPatterns_re prose = None
  /\ length prose = 680
  /\ normalize parse prose
     = Ok (JArray [JObject [(js "text", JString (firstn 500 prose))]])
  /\ length (firstn 500 prose) = 500.
Proof.
  assert (H1 : forall c, jsonCandidate prose = Ok c -> parse c = None).
  { intros c H. vm_compute in H. inversion H. vm_compute. reflexivity. }
  assert (H2 : match_global commentPatterns_re prose = None)
    by (vm_compute; reflexivity).
  split; [exact H1|]. split; [exact H2|].
  split; [vm_compute; reflexivity|]. split.
  - apply (last_resort_truncates parse prose H1 H2).
  - vm_compute. reflexivity.
Defined.

(** The object [{ text: t }] as a reader of the response sees it: its
    [text] is the string [t] and it has no [username], [timestamp] or
    [likes]. *)
Definition only_text (c : json) (t : jsstring) : Prop :=
  c = JObject [(js "text", JString t)]
  /\ getProp c (js "text") = Ok (Some (JString t))
  /\ getProp c (js "username") = Ok None
  /\ getProp c (js "timestamp") = Ok None
  /\ getProp c (js "likes") = Ok None.

(** C10. When the [try] block fails and the scraping pattern matches,
    [normalize] returns one comment per matched fragment, in order. Each
    is an object with the single field [text]: it has no [username],
    [timestamp] or [likes], whatever label the fragment starts with. Its
    [text] is the longest prefix of the fragment free of quote and line
    feed, and starts with the label that matched (comment, text or
    username, in any case): the label is kept in the text. *)
Theorem scraped_comments_keep_label (P : jsstring -> option json)
        (responseText : jsstring) (e : exn) (p : jsstring)
        (ps : list jsstring) :
  structured P responseText = Throw e ->
  match_global commentPatterns_re responseText = Some (p :: ps) ->
  exists comments,
    normalize P responseText = Ok (JArray comments)
    /\ comments
       = map (fun q =>
                JObject [(js "text",
                          JString (take_while not_quote_or_newline q))])
             (p :: ps)
    /\ Forall2 (fun q c =>
                  only_text c (take_while not_quote_or_newline q)
                  /\ exists label,
                      In label labels
                      /\ startsWith_i label
                           (take_while not_quote_or_newline q) = true)
               (p :: ps) comments.
Proof.
  intros E Hm.
  assert (Hall : Forall (fun q => exists label,
                             In label labels /\ startsWith_i label q = true)
                        (p :: ps)).
  { apply Forall_forall. intros q Hq. unfold match_global in Hm.
    destruct (match_all_from commentPatterns_re 0 responseText) as [|a l]
      eqn:Ea; [discriminate|].
    inversion Hm; subst a l. rewrite <- Ea in Hq.
    eapply match_all_from_label. exact Hq. }
  eexists. split; [|split; [reflexivity|]].
  - rewrite (normalize_of_failure _ _ E). unfold fallback_comments.
    rewrite Hm. f_equal. f_equal. apply map_ext_in. intros q Hq.
    rewrite Forall_forall in Hall. destruct (Hall q Hq) as [label [Hin Hl]].
    rewrite (@scraped_comment_label label q Hin Hl). reflexivity.
  - clear Hm. induction Hall as [|q qs [label [Hin Hl]] _ IH];
      cbn [map]; constructor; [|exact IH].
    split; [repeat split|].
    exists label. split; [exact Hin|].
    apply startsWith_i_take_while; [apply labels_lower, Hin | exact Hl].
Qed.

Lemma scraped_comments_keep_label_witness :
  structured parse labelled_line
  = Throw (Exn (js "Unexpected token in JSON"))
  /\ match_global commentPatterns_re labelled_line = Some [labelled_line]
  /\ take_while not_quote_or_newline labelled_line = js "username: "
  /\ exists comments,
      normalize parse labelled_line = Ok (JArray comments)
      /\ comments = [JObject [(js "text", JString (js "username: "))]]
      /\ Forall (fun c => getProp c (js "username") = Ok None) comments.
Proof.
  assert (H1 : structured parse labelled_line
               = Throw (Exn (js "Unexpected token in JSON")))
    by (vm_compute; reflexivity).
  assert (H2 : match_global commentPatterns_re labelled_line
               = Some [labelled_line]) by (vm_compute; reflexivity).
  assert (H3 : take_while not_quote_or_newline labelled_line
               = js "username: ") by (vm_compute; reflexivity).
  split; [exact H1|]. split; [exact H2|]. split; [exact H3|].
  destruct (scraped_comments_keep_label parse labelled_line H1 H2)
    as [comments [Hn [Hc Hall]]].
  exists comments. split; [exact Hn|]. cbn [map] in Hc. rewrite H3 in Hc.
  split; [exact Hc|]. subst comments.
  constructor; [reflexivity | constructor].
Defined.

(** C3, as amended. A response that is a JSON object text of the expected
    shape, with white space around it at most and no three backticks in a
    row inside, gives the elements of its [comments] array, in order and
    as parsed: no field of an element is dropped or changed. *)
Theorem valid_json_elements_unchanged (P : jsstring -> option json)
        (ws1 ws2 body : jsstring) (fields : list (jsstring * json))
        (arr : list json) :
  forallb is_space ws1 = true -> forallb is_space ws2 = true ->
  braced body -> includes bt3 body = false ->
  P body = Some (JObject fields) ->
  lookup (js "comments") fields = Some (JArray arr) ->
  normalize P (ws1 ++ body ++ ws2) = Ok (JArray arr).
Proof.
  intros H1 H2 Hb Hf Hp Hl.
  apply normalize_accepts with (c := body) (fields := fields);
    [apply candidate_plain|..]; assumption.
Qed.

Lemma valid_json_elements_unchanged_witness :
  normalize parse ([LF] ++ two_comments ++ js "  ")
  = Ok (JArray two_comments_parsed).
Proof.
  apply (valid_json_elements_unchanged parse [LF] (js "  ")
           (body := two_comments)
           (fields := [(js "comments", JArray two_comments_parsed)])).
  - reflexivity.
  - reflexivity.
  - exists (removelast (tl two_comments)). vm_compute. reflexivity.
  - vm_compute. reflexivity.
  - vm_compute. reflexivity.
  - reflexivity.
Defined.

(** C3 fails as stated: a field outside the data model stays in the
    comment, and a well-shaped response whose text quotes a fenced word
    ends in the last resort. *)
Lemma elements_not_coerced :
  parse raw_extra_field = Some (comments_object [elem_extra_field])
  /\ normalize parse raw_extra_field = Ok (JArray [elem_extra_field])
  /\ ~ recovers_coerced parse raw_extra_field
  /\ normalize parse raw_fence_in_text
     = Ok (JArray [text_comment raw_fence_in_text])
  /\ ~ recovers_coerced parse raw_fence_in_text.
Proof.
  split; [vm_compute; reflexivity|].
  split; [vm_compute; reflexivity|].
  split.
  - intros H.
    specialize (H [(js "comments", JArray [elem_extra_field])]
                  [elem_extra_field]).
    assert (K := H ltac:(vm_compute; reflexivity) eq_refl).
    vm_compute in K. discriminate K.
  - split; [vm_compute; reflexivity|].
    intros H.
    specialize (H [(js "comments",
                    JArray [text_comment (js "use ```code``` here")])]
                  [text_comment (js "use ```code``` here")]).
    assert (K := H ltac:(vm_compute; reflexivity) eq_refl).
    vm_compute in K. discriminate K.
Qed.

(** C8, as amended. A fenced block (three backticks, a tag without white
    space, backtick or opening brace, possibly empty, white space, a JSON
    object text of the expected shape with no three backticks in a row
    inside, white space, three backticks) gives the comments of the JSON
    text alone. *)
Theorem fenced_json_same_result (P : jsstring -> option json)
        (tag ws1 ws2 body : jsstring) (fields : list (jsstring * json))
        (arr : list json) :
  forallb tag_char tag = true ->
  forallb is_space ws1 = true -> forallb is_space ws2 = true ->
  braced body -> includes bt3 body = false ->
  P body = Some (JObject fields) ->
  lookup (js "comments") fields = Some (JArray arr) ->
  normalize P (bt3 ++ tag ++ ws1 ++ body ++ ws2 ++ bt3) = normalize P body
  /\ normalize P body = Ok (JArray arr).
Proof.
  intros Ht H1 H2 Hb Hf Hp Hl.
  assert (Hplain : normalize P body = Ok (JArray arr)).
  { apply normalize_accepts with (c := body) (fields := fields);
      [|assumption..].
    pose proof (@candidate_plain [] [] body eq_refl eq_refl Hb Hf) as Hc.
    rewrite app_nil_r in Hc. exact Hc. }
  split; [|exact Hplain]. rewrite Hplain.
  apply normalize_accepts with (c := body) (fields := fields);
    [apply candidate_wrapped|..]; assumption.
Qed.

Lemma fenced_json_same_result_witness :
  normalize parse (js "```json" ++ [LF] ++ two_comments ++ [LF] ++ js "```")
  = normalize parse two_comments
  /\ normalize parse two_comments = Ok (JArray two_comments_parsed).
Proof.
  apply (fenced_json_same_result parse (js "json") [LF] [LF]
           (body := two_comments)
           (fields := [(js "comments", JArray two_comments_parsed)])).
  - reflexivity.
  - reflexivity.
  - reflexivity.
  - exists (removelast (tl two_comments)). vm_compute. reflexivity.
  - vm_compute. reflexivity.
  - vm_compute. reflexivity.
  - reflexivity.
Defined.

(** C8 fails as stated: the lazy group of the fence pattern stops at the
    first three backticks, so a fenced block around a well-shaped response
    that holds three backticks ends in the last resort, while the response
    alone gives its comment; and valid JSON of another shape ends in the
    last resort both ways, whose comment is the whole response, fence
    included. *)
Lemma fence_inside_json_breaks_wrapping :
  parse json_with_backticks
  = Some (comments_object [text_comment (js "a```b")])
  /\ normalize parse json_with_backticks
     = Ok (JArray [text_comment (js "a```b")])
  /\ normalize parse fenced_json_with_backticks
     = Ok (JArray [text_comment fenced_json_with_backticks])
  /\ ~ fence_transparent parse fenced_json_with_backticks
                         json_with_backticks
  /\ parse json_list = Some (JArray [JNumber 1 0])
  /\ normalize parse json_list = Ok (JArray [text_comment json_list])
  /\ normalize parse fenced_json_list
     = Ok (JArray [text_comment fenced_json_list])
  /\ ~ fence_transparent parse fenced_json_list json_list.
Proof.
  split; [vm_compute; reflexivity|].
  split; [vm_compute; reflexivity|].
  split; [vm_compute; reflexivity|].
  split.
  { intros H.
    assert (K := H _ ltac:(vm_compute; reflexivity)).
    vm_compute in K. discriminate K. }
  split; [vm_compute; reflexivity|].
  split; [vm_compute; reflexivity|].
  split; [vm_compute; reflexivity|].
  intros H.
  assert (K := H _ ltac:(vm_compute; reflexivity)).
  vm_compute in K. discriminate K.
Qed.

(** C2, as amended. [normalize] builds one JSON candidate and parses it
    once: the candidate is the brace span (first opening brace to last
    closing brace, or the text itself when it has none in that order) of
    the fenced content when a fence matches and of the trimmed response
    otherwise. When the candidate does not parse, or
    parses to a value without a [comments] array, the result is the one
    of the [catch] block, computed from the whole response; when it parses
    to an object with a [comments] array, the result is that array. The
    parser is consulted on the candidate only. *)
Theorem one_candidate_one_parse (P : jsstring -> option json)
        (responseText : jsstring) :
  let candidate := braceSpan (narrowed responseText) in
  jsonCandidate responseText = Ok candidate
  /\ (candidate = narrowed responseText \/ braced candidate)
  /\ (P candidate = None ->
      normalize P responseText
      = Ok (JArray (fallback_comments responseText)))
  /\ (forall v, P candidate = Some v ->
                (forall l, getProp v (js "comments")
                           <> Ok (Some (JArray l))) ->
                normalize P responseText
                = Ok (JArray (fallback_comments responseText)))
  /\ (forall v l, P candidate = Some v ->
                  getProp v (js "comments") = Ok (Some (JArray l)) ->
                  normalize P responseText = Ok (JArray l))
  /\ (forall Q, Q candidate = P candidate ->
                normalize Q responseText = normalize P responseText).
Proof.
  cbv zeta. pose proof (candidate_narrowed responseText) as Hc.
  split; [exact Hc|]. split; [apply brace_span_cases|].
  split; [|split; [|split]].
  - intros Hp.
    destruct (structured_parse_failure P responseText Hc Hp) as [e E].
    apply (normalize_of_failure _ _ E).
  - intros v Hp Hs.
    destruct (structured_rejects P responseText Hc Hp Hs) as [e E].
    apply (normalize_of_failure _ _ E).
  - intros v l Hp G.
    apply normalize_of_structured with (v := v); [|exact G].
    unfold structured, JSON_parse_throw.
    rewrite Hc. cbn [rbind]. rewrite Hp. cbn [rbind]. rewrite G.
    reflexivity.
  - intros Q HQ. unfold normalize, parsedComments_of.
    rewrite (structured_one_parse Q P responseText HQ). reflexivity.
Qed.

(** C2 fails as stated, both ways. On a well-shaped response whose text
    quotes a fenced word, the ladder of the specification leaves the
    fenced word, which does not parse, for the brace span of the raw text,
    which does; [normalize] never takes the brace span of the raw text
    once a fence matched, and ends in the last resort. On a fenced JSON
    array, which parses and has the wrong shape, the ladder falls through
    to the last layers; [normalize] takes the brace span of the fenced
    content before any parse and returns the comments of the object
    inside the array. *)
Lemma ladder_differs_on_fence_in_text :
  Spec.fenced raw_fence_in_text = Some (js "code")
  /\ Spec.braceCandidate raw_fence_in_text = Some raw_fence_in_text
  /\ Spec.ladder parse raw_fence_in_text
     = [text_comment (js "use ```code``` here")]
  /\ normalize parse raw_fence_in_text
     = Ok (JArray [text_comment raw_fence_in_text])
  /\ normalize parse raw_fence_in_text
     <> Ok (JArray (Spec.ladder parse raw_fence_in_text))
  /\ Spec.fenced raw_fenced_array = Some (jsq "[{'comments':[]}]")
  /\ Spec.attempt_of parse (jsq "[{'comments':[]}]") = Spec.WrongShape
  /\ Spec.ladder parse raw_fenced_array = [text_comment raw_fenced_array]
  /\ jsonCandidate raw_fenced_array = Ok (jsq "{'comments':[]}")
  /\ normalize parse raw_fenced_array = Ok (JArray [])
  /\ normalize parse raw_fenced_array
     <> Ok (JArray (Spec.ladder parse raw_fenced_array)).
Proof.
  split; [vm_compute; reflexivity|].
  split; [vm_compute; reflexivity|].
  split; [vm_compute; reflexivity|].
  split; [vm_compute; reflexivity|].
  split; [intros K; vm_compute in K; discriminate K|].
  split; [vm_compute; reflexivity|].
  split; [vm_compute; reflexivity|].
  split; [vm_compute; reflexivity|].
  split; [vm_compute; reflexivity|].
  split; [vm_compute; reflexivity|].
  intros K. vm_compute in K. discriminate K.
Qed.

End NormalizerClaims.
(* ================================================================== *)
(** * CSV export: [src/lib/csv-export.ts] *)
(* ================================================================== *)

Module Csv.
Import JsFacts.

(** The interface [Comment] of the export: an absent optional field is
    [None]. *)
Record Comment : Type := MkComment {
  imageName : jsstring;
  username : option jsstring;
  text : jsstring;
  timestamp : option jsstring;
  likes : option jsstring
}.

Definition headers : list jsstring :=
  [js "Image Name"; js "Username"; js "Comment Text"; js "Timestamp";
   js "Likes"].

(** [value.replace(/Q/g, QQ)] for the double quote [Q]. *)
Definition double_quotes (value : jsstring) : jsstring :=
  flat_map (fun c => if char_eqb c DQUOTE then [DQUOTE; DQUOTE] else [c])
           value.

(** [escapeCSV]: [undefined], [null] and the empty string are falsy. *)
Definition escapeCSV (value : option jsstring) : jsstring :=
  match value with
  | None => []
  | Some [] => []
  | Some v =>
      let escaped := double_quotes v in
      if includes [COMMA] escaped || includes [DQUOTE] escaped
         || includes [LF] escaped
      then DQUOTE :: escaped ++ [DQUOTE]
      else escaped
  end.

Definition row (comment : Comment) : list jsstring :=
  [escapeCSV (Some (imageName comment)); escapeCSV (username comment);
   escapeCSV (Some (text comment)); escapeCSV (timestamp comment);
   escapeCSV (likes comment)].

Definition generateCSV (comments : list Comment) : jsstring :=
  join [LF] (join [COMMA] headers
             :: map (fun r => join [COMMA] r) (map row comments)).

(** ** Reading a field back

    The quoting rules of RFC 4180 for one field: an escaped field is
    enclosed in double quotes and a double quote inside it is written
    twice; a field that is not enclosed holds no double quote and is its
    own text. *)

(** The text of an escaped field after its opening quote. *)
Fixpoint unquote (s : jsstring) : option jsstring :=
  match s with
  | [] => None
  | c :: s' =>
      if char_eqb c DQUOTE then
        match s' with
        | [] => Some []
        | d :: s'' =>
            if char_eqb d DQUOTE then
              match unquote s'' with
              | Some t => Some (DQUOTE :: t)
              | None => None
              end
            else None
        end
      else
        match unquote s' with
        | Some t => Some (c :: t)
        | None => None
        end
  end.

Definition parseField (field : jsstring) : option jsstring :=
  match field with
  | c :: s' =>
      if char_eqb c DQUOTE then unquote s'
      else if includes [DQUOTE] field then None else Some field
  | [] => Some []
  end.

(** The fields of one record: the text is cut at the commas that are not
    inside double quotes. [quoted] tells whether a quote is open and
    [field] holds the field read so far. *)
Fixpoint splitRecord (s : jsstring) (quoted : bool) (field : jsstring)
  : list jsstring :=
  match s with
  | [] => [field]
  | c :: s' =>
      if char_eqb c DQUOTE then splitRecord s' (negb quoted) (field ++ [c])
      else if char_eqb c COMMA && negb quoted
           then field :: splitRecord s' false []
           else splitRecord s' quoted (field ++ [c])
  end.

Definition parseRecord (line : jsstring) : list (option jsstring) :=
  map parseField (splitRecord line false []).

(** The text an absent value stands for. *)
Definition text_of (value : option jsstring) : jsstring :=
  match value with
  | Some v => v
  | None => []
  end.

(** ** Facts and the claim *)

(** The characters that make [escapeCSV] quote a field. *)
Definition needs_quoting (value : jsstring) : bool :=
  existsb (fun c => char_eqb COMMA c || char_eqb DQUOTE c || char_eqb LF c)
          value.



Lemma includes_char c s : includes [c] s = existsb (char_eqb c) s.
Proof.
  unfold includes. induction s as [|x s IH]; cbn [indexOf startsWith existsb].
  - reflexivity.
  - rewrite andb_true_r. destruct (char_eqb c x); [reflexivity|].
    cbn [orb]. rewrite <- IH.
    destruct (indexOf [c] s <? 0)%Z eqn:E.
    + apply Z.ltb_lt in E. symmetry. apply Z.leb_gt. exact E.
    + apply Z.ltb_ge in E. transitivity true.
      * apply Z.leb_le. lia.
      * symmetry. apply Z.leb_le. exact E.
Qed.

Lemma existsb_double_quotes c v :
  existsb (char_eqb c) (double_quotes v) = existsb (char_eqb c) v.
Proof.
  unfold double_quotes. induction v as [|x v IH]; [reflexivity|].
  cbn [flat_map existsb]. destruct (char_eqb x DQUOTE) eqn:E.
  - apply N.eqb_eq in E. subst x. cbn [app existsb]. rewrite IH.
    destruct (char_eqb c DQUOTE); reflexivity.
  - cbn [app existsb]. rewrite IH. reflexivity.
Qed.

Lemma double_quotes_plain v :
  existsb (char_eqb DQUOTE) v = false -> double_quotes v = v.
Proof.
  unfold double_quotes. induction v as [|x v IH]; [reflexivity|].
  cbn [existsb flat_map]. intros H. apply orb_false_iff in H.
  destruct H as [Hx Hv].
  assert (E : char_eqb x DQUOTE = false).
  { unfold char_eqb in *. rewrite N.eqb_sym. exact Hx. }
  rewrite E. cbn [app]. rewrite (IH Hv). reflexivity.
Qed.

Lemma needs_quoting_spec v :
  needs_quoting v
  = existsb (char_eqb COMMA) v || existsb (char_eqb DQUOTE) v
    || existsb (char_eqb LF) v.
Proof.
  unfold needs_quoting. induction v as [|x v IH]; [reflexivity|].
  cbn [existsb]. rewrite IH.
  destruct (char_eqb COMMA x), (char_eqb DQUOTE x), (char_eqb LF x),
    (existsb (char_eqb COMMA) v), (existsb (char_eqb DQUOTE) v),
    (existsb (char_eqb LF) v); reflexivity.
Qed.

Lemma unquote_double_quotes v :
  unquote (double_quotes v ++ [DQUOTE]) = Some v.
Proof.
  unfold double_quotes. induction v as [|x v IH].
  - reflexivity.
  - cbn [flat_map]. destruct (char_eqb x DQUOTE) eqn:E.
    + apply N.eqb_eq in E. subst x. cbn [app unquote].
      change (char_eqb DQUOTE DQUOTE) with true. cbn iota.
      rewrite IH. reflexivity.
    + cbn [app unquote]. rewrite E, IH. reflexivity.
Qed.

(** The two forms of an escaped value. *)
Lemma escapeCSV_form v :
  escapeCSV (Some v)
  = if needs_quoting v then DQUOTE :: double_quotes v ++ [DQUOTE] else v.
Proof.
  destruct v as [|x v]; [reflexivity|].
  unfold escapeCSV. rewrite !includes_char, !existsb_double_quotes.
  rewrite <- needs_quoting_spec.
  destruct (needs_quoting (x :: v)) eqn:E; [reflexivity|].
  apply double_quotes_plain.
  rewrite needs_quoting_spec in E.
  apply orb_false_iff in E. destruct E as [E _].
  apply orb_false_iff in E. apply E.
Qed.

Lemma parseField_escapeCSV v : parseField (escapeCSV (Some v)) = Some v.
Proof.
  rewrite escapeCSV_form. destruct (needs_quoting v) eqn:E.
  - cbn [parseField]. change (char_eqb DQUOTE DQUOTE) with true. cbn iota.
    apply unquote_double_quotes.
  - destruct v as [|x v]; [reflexivity|].
    rewrite needs_quoting_spec in E.
    apply orb_false_iff in E. destruct E as [E _].
    apply orb_false_iff in E. destruct E as [_ E].
    cbn [parseField]. rewrite includes_char, E.
    cbn [existsb] in E. apply orb_false_iff in E. destruct E as [Ex _].
    assert (E2 : char_eqb x DQUOTE = false).
    { unfold char_eqb in *. rewrite N.eqb_sym. exact Ex. }
    rewrite E2. reflexivity.
Qed.


(** ** Whole records *)

Lemma split_inside_quotes v rest field :
  splitRecord (double_quotes v ++ rest) true field
  = splitRecord rest true (field ++ double_quotes v).
Proof.
  unfold double_quotes. revert field.
  induction v as [|x v IH]; intros field.
  - cbn. rewrite app_nil_r. reflexivity.
  - cbn [flat_map]. destruct (char_eqb x DQUOTE) eqn:E.
    + apply N.eqb_eq in E. subst x. cbn [app splitRecord].
      change (char_eqb DQUOTE DQUOTE) with true. cbn iota. cbn [negb].
      rewrite IH. f_equal. list_norm.
    + cbn [app splitRecord]. rewrite E, andb_false_r, IH.
      f_equal. list_norm.
Qed.

Lemma split_plain v rest field :
  needs_quoting v = false ->
  splitRecord (v ++ rest) false field = splitRecord rest false (field ++ v).
Proof.
  unfold needs_quoting. revert field.
  induction v as [|x v IH]; intros field H.
  - cbn. rewrite app_nil_r. reflexivity.
  - cbn [existsb] in H. apply orb_false_iff in H. destruct H as [Hx Hv].
    apply orb_false_iff in Hx. destruct Hx as [Hx _].
    apply orb_false_iff in Hx. destruct Hx as [Hc Hq].
    assert (E1 : char_eqb x DQUOTE = false)
      by (unfold char_eqb in *; rewrite N.eqb_sym; exact Hq).
    assert (E2 : char_eqb x COMMA = false)
      by (unfold char_eqb in *; rewrite N.eqb_sym; exact Hc).
    cbn [app splitRecord]. rewrite E1, E2. cbn [andb].
    rewrite (IH _ Hv). f_equal. list_norm.
Qed.

(** An escaped field is read as one field, whatever follows it. *)
Lemma split_escaped value rest field :
  splitRecord (escapeCSV value ++ rest) false field
  = splitRecord rest false (field ++ escapeCSV value).
Proof.
  destruct value as [v|]; [|cbn; rewrite app_nil_r; reflexivity].
  rewrite escapeCSV_form. destruct (needs_quoting v) eqn:E.
  - cbn [app splitRecord]. change (char_eqb DQUOTE DQUOTE) with true.
    cbn iota. cbn [negb]. rewrite <- app_assoc, split_inside_quotes.
    cbn [app splitRecord]. change (char_eqb DQUOTE DQUOTE) with true.
    cbn iota. cbn [negb]. f_equal. list_norm.
  - apply split_plain, E.
Qed.

Lemma split_joined value values :
  splitRecord (join [COMMA] (map escapeCSV (value :: values))) false []
  = map escapeCSV (value :: values).
Proof.
  revert value. induction values as [|w values IH]; intros value.
  - cbn [map join].
    rewrite <- (app_nil_r (escapeCSV value)) at 1.
    rewrite split_escaped. reflexivity.
  - change (join [COMMA] (map escapeCSV (value :: w :: values)))
      with (escapeCSV value
            ++ [COMMA] ++ join [COMMA] (map escapeCSV (w :: values))).
    rewrite split_escaped. cbn [app splitRecord].
    change (char_eqb COMMA DQUOTE) with false.
    change (char_eqb COMMA COMMA) with true. cbn iota. cbn [andb negb].
    rewrite IH. reflexivity.
Qed.

(** A line of escaped values, cut at the commas outside quotes and read
    back field by field, gives the values, an absent one as the empty
    text. *)
Lemma record_round_trips value values :
  parseRecord (join [COMMA] (map escapeCSV (value :: values)))
  = map (fun v => Some (text_of v)) (value :: values).
Proof.
  unfold parseRecord. rewrite split_joined, map_map.
  apply map_ext. intros [v|]; [|reflexivity].
  apply parseField_escapeCSV.
Qed.

(** With no comment, [generateCSV] gives the header line alone. *)
Lemma generateCSV_header :
  generateCSV [] = js "Image Name,Username,Comment Text,Timestamp,Likes".
Proof. vm_compute. reflexivity. Qed.

(** [generateCSV] gives the header line and then one line per comment, in
    the order of the comments, joined by line feeds and with no line feed
    at the end; a line is the five escaped values of its comment joined
    by commas. *)
Lemma generateCSV_lines comments :
  generateCSV comments
  = join [LF] (js "Image Name,Username,Comment Text,Timestamp,Likes"
               :: map (fun comment => join [COMMA] (row comment)) comments).
Proof.
  unfold generateCSV. rewrite map_map. reflexivity.
Qed.

(** A data line of [generateCSV], cut at the commas outside quotes and
    read back field by field, gives the five values of its comment: image
    name, user name, text, time stamp and likes, an absent one as the
    empty text. *)
Lemma row_round_trips comment :
  parseRecord (join [COMMA] (row comment))
  = [Some (imageName comment); Some (text_of (username comment));
     Some (text comment); Some (text_of (timestamp comment));
     Some (text_of (likes comment))].
Proof.
  unfold row.
  apply (record_round_trips (Some (imageName comment))
           [username comment; Some (text comment); timestamp comment;
            likes comment]).
Qed.

End Csv.

(* ================================================================== *)
(** * The batch orchestrator: [POST] *)
(* ================================================================== *)

Module Batch.

(** The bytes of a file or of a rendered page. *)
Definition Buffer := list N.

(** The interface [ProcessedComment]; [comments] is the JavaScript value
    the route stores there. *)
Record ProcessedComment : Type := MkProcessed {
  imageName : jsstring;
  comments : json;
  rawResponse : jsstring
}.

(** An uploaded [File]: [arrayBuffer] either yields its bytes or
    rejects. *)
Record File : Type := MkFile {
  name : jsstring;
  type : jsstring;
  arrayBuffer : result Buffer
}.

(** What the model client returns: [response.text()] may throw, and the
    fallback reads a [text] property that may be missing. *)
Record GenerateResult : Type := MkGenerate {
  response_text : result jsstring;
  text_property : option jsstring
}.

(** The response of the route. *)
Inductive Response : Type :=
| JsonResults (results : list ProcessedComment) : Response
| JsonError (status : nat) (error : jsstring) : Response.

(** [viewport = page.getViewport({ scale: 2.0 })]. *)
Definition RENDER_SCALE : N := 2%N.

(** The message of the error [convertPdfToImages] throws when the canvas
    module cannot be loaded. *)
Definition CANVAS_MISSING : jsstring :=
  js "PDF processing is not available. "
  ++ js "Canvas module is not installed. "
  ++ js "This feature requires native dependencies "
  ++ js "that may not be available in all environments.".

Section WithPlatform.

(** The collaborators of the route. The model service has a state of its
    own, so two calls with the same image may differ. *)
Variable JSON_parse : jsstring -> option json.
Variable World : Type.
Variable generateContent :
  World -> Buffer -> jsstring -> result GenerateResult * World.

(** PDF.js and the canvas module. *)
Variables CreateCanvas Page Viewport : Type.
Record PdfDocument : Type := MkPdf {
  numPages : nat;
  getPage : nat -> result Page
}.
(** [getCreateCanvas()]: [None] is the [null] returned when the module
    cannot be loaded. *)
Variable getCreateCanvas : option CreateCanvas.
(** [pdfjsLib.getDocument({ data }).promise]. *)
Variable getDocument : Buffer -> result PdfDocument.
Variable getViewport : Page -> N -> Viewport.
(** [createCanvas], [page.render] on its context and [canvas.toBuffer]. *)
Variable renderToPng : CreateCanvas -> Page -> Viewport -> result Buffer.

(** The state of one request: the [results] array and the model
    service. *)
Record State : Type := MkState {
  results : list ProcessedComment;
  world : World
}.

(** A step of the route: it may throw, and what it did to the state
    before throwing stays done. *)
Definition M (A : Type) : Type := State -> result A * State.

Definition ret {A : Type} (a : A) : M A := fun st => (Ok a, st).

Definition bind {A B : Type} (m : M A) (f : A -> M B) : M B :=
  fun st =>
    match m st with
    | (Ok a, st') => f a st'
    | (Throw e, st') => (Throw e, st')
    end.

Definition lift {A : Type} (r : result A) : M A := fun st => (r, st).

(** [try { m } catch (e) { h e }]. *)
Definition try_catchM {A : Type} (m : M A) (h : exn -> M A) : M A :=
  fun st =>
    match m st with
    | (Ok a, st') => (Ok a, st')
    | (Throw e, st') => h e st'
    end.

(** [results.push(r)]. *)
Definition push (r : ProcessedComment) : M unit :=
  fun st => (Ok tt, MkState (results st ++ [r]) (world st)).

(** The call of the model with one image and the system prompt. *)
Definition invoke (imageBuffer : Buffer) (mimeType : jsstring)
  : M GenerateResult :=
  fun st =>
    let (r, w) := generateContent (world st) imageBuffer mimeType in
    (r, MkState (results st) w).

(** The body of the loop of [convertPdfToImages], for the pages
    [pageNum], ..., [pageNum + count - 1]. *)
Fixpoint renderPages (createCanvas : CreateCanvas) (pdf : PdfDocument)
         (count pageNum : nat) (images : list Buffer)
  : result (list Buffer) :=
  match count with
  | O => Ok images
  | S count' =>
      (page <- getPage pdf pageNum ;;
       let viewport := getViewport page RENDER_SCALE in
       png <- renderToPng createCanvas page viewport ;;
       renderPages createCanvas pdf count' (S pageNum) (images ++ [png])
      )%result
  end.

Definition convertPdfToImages (pdfBuffer : Buffer) : result (list Buffer) :=
  match getCreateCanvas with
  | None => Throw (Exn CANVAS_MISSING)
  | Some createCanvas =>
      (pdf <- getDocument pdfBuffer ;;
       renderPages createCanvas pdf (numPages pdf) 1 [])%result
  end.

(** [pageNumber ? `${fileName} (page ${pageNumber})` : fileName]; a page
    number that is missing or 0 is falsy. *)
Definition displayName (fileName : jsstring) (pageNumber : option nat)
  : jsstring :=
  match pageNumber with
  | Some (S n) =>
      fileName ++ js " (page " ++ numberToString (S n) ++ js ")"
  | _ => fileName
  end.

(** [responseText] from the result of the model, with its two
    fallbacks. *)
Definition responseText_of (r : GenerateResult) : jsstring :=
  match response_text r with
  | Ok t => t
  | Throw _ =>
      match text_property r with
      | Some (x :: t) => x :: t
      | _ => []
      end
  end.

Definition processImage (imageBuffer : Buffer) (mimeType : jsstring)
           (fileName : jsstring) (pageNumber : option nat)
  : M ProcessedComment :=
  bind (invoke imageBuffer mimeType) (fun result =>
  let responseText := responseText_of result in
  bind (lift (Normalizer.normalize JSON_parse responseText)) (fun cs =>
  ret (MkProcessed (displayName fileName pageNumber) cs responseText))).

(** [file.type === "application/pdf" ||
     file.name.toLowerCase().endsWith(".pdf")]. *)
Definition isPdf (file : File) : bool :=
  str_eqb (type file) (js "application/pdf")
  || endsWith (js ".pdf") (toLowerCase (name file)).

(** The loop over [pdfImages], from index [i]. *)
Fixpoint processPages (fileName : jsstring) (pdfImages : list Buffer)
         (i : nat) : M unit :=
  match pdfImages with
  | [] => ret tt
  | image :: rest =>
      bind (processImage image (js "image/png") fileName (Some (i + 1)))
           (fun result =>
      bind (push result) (fun _ => processPages fileName rest (S i)))
  end.

(** The record pushed by a [catch] block. *)
Definition degraded (file : File) (prefix : jsstring) (e : exn)
  : ProcessedComment :=
  MkProcessed (name file) (JArray []) (prefix ++ message e).

(** The [try] block of the PDF branch. *)
Definition pdfBody (file : File) (buffer : Buffer) : M unit :=
  bind (lift (convertPdfToImages buffer)) (fun pdfImages =>
  processPages (name file) pdfImages 0).

(** The branch of a regular image; [file.type || "image/jpeg"]. *)
Definition imageBody (file : File) (buffer : Buffer) : M unit :=
  bind (processImage buffer
          (match type file with [] => js "image/jpeg" | t => t end)
          (name file) None)
       (fun result => push result).

(** The body of the [for (const file of files)] loop. *)
Definition processFile (file : File) : M unit :=
  try_catchM
    (bind (lift (arrayBuffer file)) (fun buffer =>
     if isPdf file then
       try_catchM (pdfBody file buffer)
                  (fun pdfError =>
                     push (degraded file (js "Error processing PDF: ")
                                    pdfError))
     else imageBody file buffer))
    (fun error =>
       push (degraded file (js "Error processing file: ") error)).

Fixpoint processFiles (files : list File) : M unit :=
  match files with
  | [] => ret tt
  | file :: rest => bind (processFile file) (fun _ => processFiles rest)
  end.

(** [POST]: the two validations, the loop, the response. The outer
    [catch] answers 500 with the message of the error. *)
Definition POST (apiKey : option jsstring) (files : list File) (w : World)
  : Response * World :=
  match apiKey with
  | None | Some [] => (JsonError 400 (js "API key is required"), w)
  | Some _ =>
      match files with
      | [] => (JsonError 400 (js "No files provided"), w)
      | _ =>
          match processFiles files (MkState [] w) with
          | (Ok _, st) => (JsonResults (results st), world st)
          | (Throw e, st) =>
              (JsonError 500
                 (match message e with
                  | [] => js "Failed to process images"
                  | m => m
                  end), world st)
          end
      end
  end.

(** The work for one file with both [catch] blocks taken away: the steps
    whose faults the route isolates. *)
Definition unguarded (file : File) : M unit :=
  bind (lift (arrayBuffer file)) (fun buffer =>
  if isPdf file then pdfBody file buffer else imageBody file buffer).

(** ** What the specification expects of the length *)



(** ** Notions used in the statements *)

(** A record produced by [processImage] for page [n] of [fileName]: it is
    named after the page and holds the normalised response. *)
Definition page_result (fileName : jsstring) (n : nat)
           (r : ProcessedComment) : Prop :=
  imageName r = displayName fileName (Some n)
  /\ Normalizer.normalize JSON_parse (rawResponse r) = Ok (comments r).

(** The records one file contributes to [results]. *)
Inductive file_group (file : File) : list ProcessedComment -> Prop :=
| group_image r :
    isPdf file = false -> imageName r = name file ->
    file_group file [r]
| group_unrasterized prefix e :
    isPdf file = true ->
    (forall pdfImages,
        rbind (arrayBuffer file) convertPdfToImages <> Ok pdfImages) ->
    file_group file [degraded file prefix e]
| group_pages pdfImages pages :
    isPdf file = true ->
    rbind (arrayBuffer file) convertPdfToImages = Ok pdfImages ->
    Forall2 (page_result (name file)) (seq 1 (length pdfImages)) pages ->
    file_group file pages
| group_fault pdfImages pages prefix e :
    isPdf file = true ->
    rbind (arrayBuffer file) convertPdfToImages = Ok pdfImages ->
    length pages < length pdfImages ->
    Forall2 (page_result (name file)) (seq 1 (length pages)) pages ->
    file_group file (pages ++ [degraded file prefix e]).

(** ** Facts *)

(** [processImage] leaves [results] alone; when it returns, the record is
    named after the file and the page and holds the normalised response. *)
Lemma processImage_spec image mime fileName page (st : State) :
  match processImage image mime fileName page st with
  | (Ok r, st') =>
      results st' = results st
      /\ imageName r = displayName fileName page
      /\ Normalizer.normalize JSON_parse (rawResponse r) = Ok (comments r)
  | (Throw _, st') => results st' = results st
  end.
Proof.
  unfold processImage, bind, invoke, lift, ret.
  destruct (generateContent (world st) image mime) as [[g|e] w]; cbn.
  - destruct (Normalizer.normalize JSON_parse (responseText_of g))
      as [cs|e] eqn:E; cbn; auto.
  - reflexivity.
Qed.

(** The loop over the pages pushes one record per page, in page order from
    [i + 1], until a page throws. *)
Lemma processPages_spec fileName :
  forall images i (st : State),
  exists pages r w,
    processPages fileName images i st
    = (r, MkState (results st ++ pages) w)
    /\ Forall2 (page_result fileName) (seq (S i) (length pages)) pages
    /\ match r with
       | Ok _ => length pages = length images
       | Throw _ => length pages < length images
       end.
Proof.
  induction images as [|image images IH]; intros i st.
  - exists [], (Ok tt), (world st). cbn. rewrite app_nil_r.
    destruct st; cbn. repeat split; constructor.
  - cbn [processPages]. unfold bind at 1.
    pose proof (processImage_spec image (js "image/png") fileName
                                  (Some (i + 1)) st) as Hp.
    destruct (processImage image (js "image/png") fileName (Some (i + 1)) st)
      as [[r|e] st1].
    + destruct Hp as [Hres [Hname Hnorm]].
      unfold bind at 1, push at 1.
      destruct (IH (S i) (MkState (results st1 ++ [r]) (world st1)))
        as [pages [r' [w [E [Hpages Hlen]]]]].
      exists (r :: pages), r', w. rewrite E. cbn [results].
      rewrite Hres, <- app_assoc. cbn [app]. split; [reflexivity|].
      split.
      * cbn [length seq]. constructor; [|exact Hpages].
        split; [|exact Hnorm]. rewrite Hname. f_equal. f_equal. lia.
      * destruct r'; cbn [length]; lia.
    + exists [], (Throw e), (world st1). rewrite app_nil_r, <- Hp.
      destruct st1; cbn. repeat split; [constructor | lia].
Qed.

Lemma renderPages_spec createCanvas pdf (pages : nat -> Page)
      (pngs : nat -> Buffer) :
  forall count pageNum images,
    (forall n, pageNum <= n < pageNum + count ->
               getPage pdf n = Ok (pages n)
               /\ renderToPng createCanvas (pages n)
                              (getViewport (pages n) RENDER_SCALE)
                  = Ok (pngs n)) ->
    renderPages createCanvas pdf count pageNum images
    = Ok (images ++ map pngs (seq pageNum count)).
Proof.
  induction count as [|count IH]; intros pageNum images H.
  - cbn. rewrite app_nil_r. reflexivity.
  - cbn [renderPages seq map].
    destruct (H pageNum ltac:(lia)) as [Hg Hr].
    rewrite Hg. cbn [rbind]. rewrite Hr. cbn [rbind].
    rewrite IH by (intros n Hn; apply H; lia).
    rewrite <- app_assoc. reflexivity.
Qed.

(** The message prefix of the [catch] block that handles a fault of
    [file]: the inner block for a fault after the bytes of a PDF were
    read, the outer block otherwise. *)
Definition fault_prefix (file : File) : jsstring :=
  match arrayBuffer file with
  | Ok _ => if isPdf file then js "Error processing PDF: "
            else js "Error processing file: "
  | Throw _ => js "Error processing file: "
  end.

(** [processFile] is [unguarded] with a thrown error turned into one
    pushed record. *)
Lemma processFile_unguarded file (st : State) :
  processFile file st
  = match unguarded file st with
    | (Ok u, st1) => (Ok u, st1)
    | (Throw e, st1) =>
        (Ok tt, MkState (results st1 ++ [degraded file (fault_prefix file) e])
                        (world st1))
    end.
Proof.
  unfold processFile, unguarded, fault_prefix, try_catchM, bind, lift.
  destruct (arrayBuffer file) as [buffer|e]; [|reflexivity].
  destruct (isPdf file).
  - destruct (pdfBody file buffer st) as [[u|e] st1]; reflexivity.
  - destruct (imageBody file buffer st) as [[u|e] st1]; reflexivity.
Qed.

(** What [unguarded] pushes before it returns or throws. *)
Lemma unguarded_spec file (st : State) :
  exists pages r w,
    unguarded file st = (r, MkState (results st ++ pages) w)
    /\ match r with
       | Throw _ =>
           Forall2 (page_result (name file)) (seq 1 (length pages)) pages
           /\ (isPdf file = false -> pages = [])
           /\ (forall pdfImages,
                  isPdf file = true ->
                  rbind (arrayBuffer file) convertPdfToImages = Ok pdfImages ->
                  length pages < length pdfImages)
           /\ ((forall pdfImages,
                   rbind (arrayBuffer file) convertPdfToImages
                   <> Ok pdfImages) -> pages = [])
       | Ok _ =>
           if isPdf file then
             exists pdfImages,
               rbind (arrayBuffer file) convertPdfToImages = Ok pdfImages
               /\ Forall2 (page_result (name file))
                          (seq 1 (length pdfImages)) pages
           else exists r0, pages = [r0] /\ imageName r0 = name file
       end.
Proof.
  unfold unguarded, bind at 1, lift.
  destruct (arrayBuffer file) as [buffer|e] eqn:Eb.
  - cbn [rbind]. destruct (isPdf file) eqn:Epdf.
    + unfold pdfBody, bind, lift.
      destruct (convertPdfToImages buffer) as [images|e] eqn:Ec.
      * destruct (processPages_spec (name file) images 0 st)
          as [pages [r [w [E [Hpages Hlen]]]]].
        exists pages, r, w. split; [exact E|].
        destruct r as [u|e].
        -- exists images. split; [reflexivity|]. rewrite <- Hlen. exact Hpages.
        -- split; [exact Hpages|]. split; [discriminate|]. split.
           ++ intros pdfImages _ H. inversion H; subst. exact Hlen.
           ++ intros H. exfalso. apply (H images). reflexivity.
      * exists [], (Throw e), (world st). rewrite app_nil_r.
        destruct st; cbn. repeat split; try constructor; try discriminate.
    + unfold imageBody, bind at 1.
      match goal with
      | |- context [processImage ?b ?m ?n ?pg st] =>
          pose proof (processImage_spec b m n pg st) as Hp;
          destruct (processImage b m n pg st) as [[r|e] st1]
      end.
      * destruct Hp as [Hres [Hname Hnorm]]. unfold push.
        exists [r], (Ok tt), (world st1). rewrite Hres.
        split; [reflexivity|]. exists r. split; [reflexivity | exact Hname].
      * exists [], (Throw e), (world st1). rewrite app_nil_r, <- Hp.
        destruct st1; cbn.
        repeat split; try constructor; try discriminate.
  - exists [], (Throw e), (world st). rewrite app_nil_r.
    destruct st; cbn. repeat split; try constructor; try discriminate.
Qed.


(** One pass of the loop never throws and appends the records of its
    file. *)
Lemma processFile_group file (st : State) :
  exists g w,
    processFile file st = (Ok tt, MkState (results st ++ g) w)
    /\ file_group file g.
Proof.
  rewrite processFile_unguarded.
  destruct (unguarded_spec file st) as [pages [r [w [E H]]]].
  rewrite E. destruct r as [[]|e].
  - exists pages, w. split; [reflexivity|].
    destruct (isPdf file) eqn:Epdf.
    + destruct H as [images [Hc Hpages]].
      apply (group_pages file Epdf Hc Hpages).
    + destruct H as [r0 [-> Hname]]. apply (group_image file r0 Epdf Hname).
  - exists (pages ++ [degraded file (fault_prefix file) e]), w.
    cbn [results world]. rewrite app_assoc. split; [reflexivity|].
    destruct H as [Hpages [Himg [Hlt Hnone]]].
    destruct (isPdf file) eqn:Epdf.
    + destruct (rbind (arrayBuffer file) convertPdfToImages)
        as [images|e0] eqn:Ec.
      * apply (group_fault file _ _ Epdf Ec (Hlt images eq_refl eq_refl)
                           Hpages).
      * rewrite Hnone by (intros images; discriminate).
        apply group_unrasterized; [exact Epdf|].
        intros images. rewrite Ec. discriminate.
    + rewrite (Himg eq_refl). apply group_image; [exact Epdf | reflexivity].
Qed.

(** The loop over the files never throws; [results] grows by the records
    of each file, in the order of the files. *)
Lemma processFiles_groups :
  forall files (st : State),
  exists groups w,
    processFiles files st = (Ok tt, MkState (results st ++ concat groups) w)
    /\ Forall2 file_group files groups.
Proof.
  induction files as [|file files IH]; intros st.
  - exists [], (world st). cbn. rewrite app_nil_r. destruct st.
    split; [reflexivity | constructor].
  - cbn [processFiles]. unfold bind.
    destruct (processFile_group file st) as [g [w [E Hg]]]. rewrite E.
    destruct (IH (MkState (results st ++ g) w)) as [groups [w' [E' Hgs]]].
    exists (g :: groups), w'. rewrite E'. cbn [results concat].
    rewrite <- app_assoc. split; [reflexivity|].
    constructor; assumption.
Qed.







(** ** Claims *)

(** C5. When the work for one file throws at any stage (reading the bytes,
    rasterizing, calling the model for an image or for any page of a
    document), [processFile] does not throw: after the records of the
    pages processed before the fault it pushes exactly one record named
    after the file, with no comment and with a prefixed error message as
    raw response, and the loop goes on with the next file. *)
Theorem fault_isolated_at_file_boundary
        (file : File) (rest : list File) (st st1 : State) (e : exn) :
  unguarded file st = (Throw e, st1) ->
  exists pages,
    let record :=
      MkProcessed (name file) (JArray []) (fault_prefix file ++ message e) in
    let st2 := MkState (results st ++ pages ++ [record]) (world st1) in
    processFile file st = (Ok tt, st2)
    /\ (fault_prefix file = js "Error processing PDF: "
        \/ fault_prefix file = js "Error processing file: ")
    /\ Forall2 (page_result (name file)) (seq 1 (length pages)) pages
    /\ (isPdf file = false -> pages = [])
    /\ processFiles (file :: rest) st = processFiles rest st2.
Proof.
  intros E.
  destruct (unguarded_spec file st) as [pages [r [w [E' H]]]].
  rewrite E in E'. inversion E'; subst r st1. clear E'.
  destruct H as [Hpages [Himg _]].
  exists pages. cbv zeta. cbn [world].
  assert (Hfile : processFile file st
                  = (Ok tt, MkState (results st ++ pages
                                     ++ [MkProcessed (name file) (JArray [])
                                           (fault_prefix file ++ message e)])
                                    w)).
  { rewrite processFile_unguarded, E. cbn [results world].
    rewrite <- app_assoc. reflexivity. }
  split; [exact Hfile|]. split; [|split; [exact Hpages|split; [exact Himg|]]].
  - unfold fault_prefix. destruct (arrayBuffer file); [|right; reflexivity].
    destruct (isPdf file); [left | right]; reflexivity.
  - cbn [processFiles]. unfold bind. rewrite Hfile. reflexivity.
Qed.


(** The loop over the images of a document, image by image: the image
    at index [i] is sent to the model as [image/png] and its record is
    the one of page [i + 1], holding the response and what the
    normaliser reads in it; the loop stops at the first call that
    throws. [page_run fileName i images w records r w'] relates the
    images left from index [i] on and the model service [w] to the
    records pushed, the outcome of the loop and the model service after
    it. *)
Inductive page_run (fileName : jsstring)
  : nat -> list Buffer -> World -> list ProcessedComment ->
    result unit -> World -> Prop :=
| run_done i w : page_run fileName i [] w [] (Ok tt) w
| run_page i image images w g w1 parsed records r w2 :
    generateContent w image (js "image/png") = (Ok g, w1) ->
    Normalizer.normalize JSON_parse (responseText_of g) = Ok parsed ->
    page_run fileName (S i) images w1 records r w2 ->
    page_run fileName i (image :: images) w
             (MkProcessed
                (fileName ++ js " (page " ++ numberToString (i + 1)
                          ++ js ")")
                parsed (responseText_of g) :: records)
             r w2
| run_fault i image images w e w1 :
    generateContent w image (js "image/png") = (Throw e, w1) ->
    page_run fileName i (image :: images) w [] (Throw e) w1.

Lemma processPages_run fileName :
  forall images i (st : State),
  exists records r w',
    processPages fileName images i st
    = (r, MkState (results st ++ records) w')
    /\ page_run fileName i images (world st) records r w'
    /\ match r with
       | Ok _ => length records = length images
       | Throw _ => length records < length images
       end.
Proof.
  induction images as [|image images IH]; intros i st.
  - exists [], (Ok tt), (world st). cbn [processPages]. unfold ret.
    rewrite app_nil_r. destruct st. cbn [results world].
    split; [reflexivity|]. split; [constructor | reflexivity].
  - cbn [processPages]. unfold bind at 1, processImage, bind at 1, invoke.
    destruct (generateContent (world st) image (js "image/png"))
      as [[g|e] w1] eqn:Eg.
    + unfold lift, bind at 1.
      destruct (NormalizerFacts.normalize_ok JSON_parse (responseText_of g))
        as [l El].
      rewrite El. unfold ret, bind at 1, push at 1. cbn [results world].
      destruct (IH (S i)
                   (MkState
                      (results st
                       ++ [MkProcessed (displayName fileName (Some (i + 1)))
                             (JArray l) (responseText_of g)])
                      w1)) as [records [r [w' [E [Hrun Hlen]]]]].
      rewrite E. cbn [results world] in *.
      exists (MkProcessed (displayName fileName (Some (i + 1)))
                          (JArray l) (responseText_of g) :: records),
             r, w'.
      rewrite <- app_assoc. split; [reflexivity|]. split.
      * replace (displayName fileName (Some (i + 1)))
          with (fileName ++ js " (page " ++ numberToString (i + 1)
                         ++ js ")")
          by (rewrite Nat.add_1_r; reflexivity).
        eapply run_page; eassumption.
      * destruct r; cbn [length]; lia.
    + exists [], (Throw e), w1. rewrite app_nil_r.
      split; [reflexivity|]. split; [|cbn [length]; lia].
      eapply run_fault; eassumption.
Qed.

(** C7. When the canvas module is there and every page of the document
    loads and renders, [convertPdfToImages] returns one image per page, in
    page order, each rendered with the viewport of scale 2. The loop of
    [POST] sends these images to the model in their order, the image at
    index [i] as page [i + 1], and pushes one record per image named
    after its page, up to the first call that throws, after which the
    document gets one degraded record. When the canvas module is missing,
    [convertPdfToImages] throws and the file gets exactly one degraded
    record carrying the message, after which the loop goes on. *)
Theorem rasterizer_pages_and_backend (pdfBuffer : Buffer) :
  (forall createCanvas pdf (pages : nat -> Page) (pngs : nat -> Buffer),
      getCreateCanvas = Some createCanvas ->
      getDocument pdfBuffer = Ok pdf ->
      (forall n, 1 <= n <= numPages pdf ->
                 getPage pdf n = Ok (pages n)
                 /\ renderToPng createCanvas (pages n)
                                (getViewport (pages n) RENDER_SCALE)
                    = Ok (pngs n)) ->
      convertPdfToImages pdfBuffer = Ok (map pngs (seq 1 (numPages pdf))))
  /\ (2 <= RENDER_SCALE)%N
  /\ (forall file pdfImages (st : State),
         isPdf file = true -> arrayBuffer file = Ok pdfBuffer ->
         convertPdfToImages pdfBuffer = Ok pdfImages ->
         exists records r w',
           page_run (name file) 0 pdfImages (world st) records r w'
           /\ processFile file st
              = (Ok tt,
                 MkState (results st ++ records
                          ++ match r with
                             | Ok _ => []
                             | Throw e =>
                                 [MkProcessed (name file) (JArray [])
                                    (js "Error processing PDF: "
                                     ++ message e)]
                             end)
                         w')
           /\ match r with
              | Ok _ => length records = length pdfImages
              | Throw _ => length records < length pdfImages
              end
           /\ Forall2 (page_result (name file))
                      (seq 1 (length records)) records)
  /\ (getCreateCanvas = None ->
      convertPdfToImages pdfBuffer = Throw (Exn CANVAS_MISSING)
      /\ forall file rest (st : State),
          isPdf file = true -> arrayBuffer file = Ok pdfBuffer ->
          let st2 :=
            MkState (results st
                     ++ [MkProcessed (name file) (JArray [])
                           (js "Error processing PDF: " ++ CANVAS_MISSING)])
                    (world st) in
          processFile file st = (Ok tt, st2)
          /\ processFiles (file :: rest) st = processFiles rest st2).
Proof.
  split; [|split; [|split]].
  - intros createCanvas pdf pages pngs Hc Hd Hpages.
    unfold convertPdfToImages. rewrite Hc, Hd. cbn [rbind].
    rewrite (@renderPages_spec createCanvas pdf pages pngs
               (numPages pdf) 1 []); [reflexivity|].
    intros n Hn. apply Hpages. lia.
  - discriminate.
  - intros file pdfImages st Hpdf Hbuf Hconv.
    destruct (processPages_run (name file) pdfImages 0 st)
      as [records [r [w' [E [Hrun Hlen]]]]].
    destruct (processPages_spec (name file) pdfImages 0 st)
      as [pages [r0 [w0 [E0 [Hpages _]]]]].
    assert (Hsame : pages = records).
    { rewrite E in E0. inversion E0 as [[Hr Hres Hw]].
      apply app_inv_head in Hres. symmetry. exact Hres. }
    subst pages.
    exists records, r, w'. split; [exact Hrun|].
    split; [|split; [exact Hlen | exact Hpages]].
    unfold processFile, try_catchM, bind at 1, lift, pdfBody.
    rewrite Hbuf, Hpdf. unfold bind at 1, lift. rewrite Hconv, E.
    destruct r as [[]|e].
    + rewrite app_nil_r. reflexivity.
    + unfold push, degraded. cbn [results world].
      rewrite <- app_assoc. reflexivity.
  - intros Hnone.
    assert (Hthrow : convertPdfToImages pdfBuffer
                     = Throw (Exn CANVAS_MISSING))
      by (unfold convertPdfToImages; rewrite Hnone; reflexivity).
    split; [exact Hthrow|].
    intros file rest st Hpdf Hbuf. cbv zeta.
    assert (Hfile : processFile file st
                    = (Ok tt,
                       MkState (results st
                                ++ [MkProcessed (name file) (JArray [])
                                      (js "Error processing PDF: "
                                       ++ CANVAS_MISSING)])
                               (world st))).
    { unfold processFile, try_catchM, bind, lift, pdfBody.
      rewrite Hbuf, Hpdf. unfold bind, lift. rewrite Hthrow. reflexivity. }
    split; [exact Hfile|].
    cbn [processFiles]. unfold bind. rewrite Hfile. reflexivity.
Qed.

(** ** The validations and the rendering of a document *)

(** Page [n] of a document loads and renders. *)
Definition renders (createCanvas : CreateCanvas) (pdf : PdfDocument)
           (n : nat) : Prop :=
  exists page png,
    getPage pdf n = Ok page
    /\ renderToPng createCanvas page (getViewport page RENDER_SCALE)
       = Ok png.

(** Page [n] of a document throws [e] while it loads or renders. *)
Definition render_fails (createCanvas : CreateCanvas) (pdf : PdfDocument)
           (n : nat) (e : exn) : Prop :=
  getPage pdf n = Throw e
  \/ exists page,
      getPage pdf n = Ok page
      /\ renderToPng createCanvas page (getViewport page RENDER_SCALE)
         = Throw e.

(** The loop of [convertPdfToImages] throws the error of the first page
    that fails. *)
Lemma renderPages_fault createCanvas pdf k e :
  render_fails createCanvas pdf k e ->
  forall count pageNum images,
  pageNum <= k < pageNum + count ->
  (forall n, pageNum <= n < k -> renders createCanvas pdf n) ->
  renderPages createCanvas pdf count pageNum images = Throw e.
Proof.
  intros Hfail. induction count as [|count IH]; intros pageNum images Hk Hok.
  - lia.
  - cbn [renderPages]. destruct (Nat.eq_dec pageNum k) as [->|Hne].
    + destruct Hfail as [E|[page [E1 E2]]].
      * rewrite E. reflexivity.
      * rewrite E1. cbn [rbind]. rewrite E2. reflexivity.
    + destruct (Hok pageNum ltac:(lia)) as [page [png [E1 E2]]].
      rewrite E1. cbn [rbind]. rewrite E2. cbn [rbind].
      apply IH; [lia|]. intros n Hn. apply Hok. lia.
Qed.

(** When the document does not load, or one of its pages does not load
    or render, no page of the document is sent to the model, not even
    those in front of the failing one, which rendered: the file gets the
    one degraded record with the message of the error, and the model
    service is as it was. *)
Theorem rendering_fault_loses_document
        (file : File) (st : State) (buffer : Buffer)
        (createCanvas : CreateCanvas) (e : exn) :
  isPdf file = true -> arrayBuffer file = Ok buffer ->
  getCreateCanvas = Some createCanvas ->
  (getDocument buffer = Throw e
   \/ exists pdf k,
       getDocument buffer = Ok pdf /\ 1 <= k <= numPages pdf
       /\ (forall n, 1 <= n < k -> renders createCanvas pdf n)
       /\ render_fails createCanvas pdf k e) ->
  convertPdfToImages buffer = Throw e
  /\ processFile file st
     = (Ok tt,
        MkState (results st
                 ++ [MkProcessed (name file) (JArray [])
                       (js "Error processing PDF: " ++ message e)])
                (world st)).
Proof.
  intros Hpdf Hbuf Hcanvas Hfault.
  assert (Hthrow : convertPdfToImages buffer = Throw e).
  { unfold convertPdfToImages. rewrite Hcanvas.
    destruct Hfault as [E|[pdf [k [E [Hk [Hok Hfail]]]]]].
    - rewrite E. reflexivity.
    - rewrite E. cbn [rbind].
      apply (renderPages_fault Hfail); [lia | exact Hok]. }
  split; [exact Hthrow|].
  unfold processFile, try_catchM, bind, lift, pdfBody.
  rewrite Hbuf, Hpdf. unfold bind, lift. rewrite Hthrow. reflexivity.
Qed.

(** [POST] answers 400 exactly when the key or the files are missing,
    the key being looked at first, and the model service is then as it
    was; it never answers 500 once the form is read. Otherwise it answers
    with the records of the files, group after group in the order of the
    files. *)
Theorem POST_answers_400_or_results
        (apiKey : option jsstring) (files : list File) (w : World) :
  match POST apiKey files w with
  | (JsonResults rs, _) =>
      (exists x key, apiKey = Some (x :: key)) /\ files <> []
      /\ exists groups, rs = concat groups /\ Forall2 file_group files groups
  | (JsonError status error, w') =>
      status = 400 /\ w' = w
      /\ match apiKey with
         | Some (_ :: _) => files = [] /\ error = js "No files provided"
         | _ => error = js "API key is required"
         end
  end.
Proof.
  unfold POST. destruct apiKey as [[|x key]|].
  - split; [reflexivity|]. split; reflexivity.
  - destruct files as [|file files'].
    + split; [reflexivity|]. split; [reflexivity|]. split; reflexivity.
    + destruct (processFiles_groups (file :: files') (MkState [] w))
        as [groups [w' [E Hgroups]]].
      rewrite E. cbn [results app].
      split; [eexists; eexists; reflexivity|]. split; [discriminate|].
      exists groups. split; [reflexivity | exact Hgroups].
  - split; [reflexivity|]. split; reflexivity.
Qed.

(** The media type an image is sent with: [file.type || "image/jpeg"]. *)
Definition mimeType_of (file : File) : jsstring :=
  match type file with [] => js "image/jpeg" | t => t end.

(** A file that is not a document and whose bytes can be read is sent to
    the model exactly once, with its bytes and its media type, or
    [image/jpeg] when it has none. The file gets one record named after
    it: when the call returns, the record holds the text of the response
    as it is and the comments the normaliser reads in it; when the call
    throws, it holds no comment and the message of the error. *)
Theorem image_sent_once_with_its_type
        (file : File) (st : State) (buffer : Buffer) :
  isPdf file = false -> arrayBuffer file = Ok buffer ->
  exists record,
    processFile file st
    = (Ok tt,
       MkState (results st ++ [record])
               (snd (generateContent (world st) buffer (mimeType_of file))))
    /\ imageName record = name file
    /\ match fst (generateContent (world st) buffer (mimeType_of file)) with
       | Ok g =>
           rawResponse record = responseText_of g
           /\ Normalizer.normalize JSON_parse (responseText_of g)
              = Ok (comments record)
       | Throw e =>
           rawResponse record = js "Error processing file: " ++ message e
           /\ comments record = JArray []
       end.
Proof.
  intros Hpdf Hbuf.
  unfold processFile, try_catchM, bind at 1, lift. rewrite Hbuf, Hpdf.
  unfold imageBody, processImage, bind, invoke, lift, ret, push.
  fold (mimeType_of file).
  destruct (generateContent (world st) buffer (mimeType_of file))
    as [[g|e] w]; cbn [fst snd results world].
  - destruct (NormalizerFacts.normalize_ok JSON_parse (responseText_of g))
      as [l El].
    rewrite El. eexists. split; [reflexivity|]. split; [reflexivity|].
    split; reflexivity.
  - eexists. split; [reflexivity|]. split; [reflexivity|].
    split; reflexivity.
Qed.

End WithPlatform.

End Batch.


(* ================================================================== *)
(** * A batch with a page fault *)
(* ================================================================== *)

(** A three-page document and a screenshot, with a model service that
    answers every call but its second. *)
Module Scenario.
Import Batch.

(** The number of calls made so far. *)
Definition World : Type := nat.

Definition reply : jsstring := jsq "{'comments':[{'text':'hi'}]}".

Definition generateContent (w : World) (image : Buffer) (mime : jsstring)
  : result GenerateResult * World :=
  if Nat.eqb w 1 then (Throw (Exn (js "quota exceeded")), S w)
  else (Ok (MkGenerate (Ok reply) None), S w).

(** Every document has three pages; a page is its number, a viewport its
    scale, and a rendered page holds both. *)
Definition getDocument (data : Buffer) : result (PdfDocument nat) :=
  Ok (MkPdf 3 (fun pageNum => Ok pageNum)).

Definition getViewport (page : nat) (scale : N) : N := scale.

Definition renderToPng (createCanvas : unit) (page : nat) (viewport : N)
  : result Buffer :=
  Ok [N.of_nat page; viewport].

Definition pdf_bytes : Buffer := [37; 80; 68; 70]%N.

Definition thread_pdf : File :=
  MkFile (js "thread.pdf") (js "application/pdf") (Ok pdf_bytes).

Definition shot_png : File :=
  MkFile (js "shot.png") (js "image/png") (Ok [137; 80; 78; 71]%N).

Definition hi : json := JArray [Normalizer.text_comment (js "hi")].

Definition page1 : ProcessedComment :=
  MkProcessed (js "thread.pdf (page 1)") hi reply.



Lemma fault_isolated_witness :
  unguarded parse generateContent (Some tt) getDocument getViewport
            renderToPng thread_pdf (MkState [] 0)
  = (Throw (Exn (js "quota exceeded")), MkState [page1] 2)
  /\ exists pages,
      let record :=
        MkProcessed (name thread_pdf) (JArray [])
                    (fault_prefix thread_pdf
                     ++ message (Exn (js "quota exceeded"))) in
      let st2 := MkState ([] ++ pages ++ [record]) 2 in
      processFile parse generateContent (Some tt) getDocument getViewport
                  renderToPng thread_pdf (MkState [] 0)
      = (Ok tt, st2)
      /\ (fault_prefix thread_pdf = js "Error processing PDF: "
          \/ fault_prefix thread_pdf = js "Error processing file: ")
      /\ Forall2 (page_result parse (name thread_pdf))
                 (seq 1 (length pages)) pages
      /\ (isPdf thread_pdf = false -> pages = [])
      /\ processFiles parse generateContent (Some tt) getDocument
                      getViewport renderToPng [thread_pdf; shot_png]
                      (MkState [] 0)
         = processFiles parse generateContent (Some tt) getDocument
                        getViewport renderToPng [shot_png] st2.
Proof.
  assert (H : unguarded parse generateContent (Some tt) getDocument
                        getViewport renderToPng thread_pdf (MkState [] 0)
              = (Throw (Exn (js "quota exceeded")), MkState [page1] 2))
    by (vm_compute; reflexivity).
  split; [exact H|].
  apply (fault_isolated_at_file_boundary parse generateContent (Some tt)
           getDocument getViewport renderToPng thread_pdf [shot_png]
           (MkState [] 0) H).
Defined.



(** The records of the three pages when the model answers every call,
    and the record of the document when the canvas module is missing. *)
Definition page2 : ProcessedComment :=
  MkProcessed (js "thread.pdf (page 2)") hi reply.

Definition page3 : ProcessedComment :=
  MkProcessed (js "thread.pdf (page 3)") hi reply.

Definition thread_no_canvas : ProcessedComment :=
  MkProcessed (js "thread.pdf") (JArray [])
              (js "Error processing PDF: " ++ CANVAS_MISSING).

(** From its third call on the model service answers: the three pages of
    the document are sent in order and give the records of page 1, 2
    and 3. *)
Lemma rasterizer_pages_and_backend_witness :
  convertPdfToImages (Some tt) getDocument getViewport renderToPng pdf_bytes
  = Ok (map (fun n => [N.of_nat n; RENDER_SCALE]) (seq 1 3))
  /\ (exists records r w',
         page_run parse generateContent (name thread_pdf) 0
                  [[1; 2]; [2; 2]; [3; 2]]%N 2 records r w'
         /\ processFile parse generateContent (Some tt) getDocument
                        getViewport renderToPng thread_pdf (MkState [] 2)
            = (Ok tt,
               MkState ([] ++ records
                        ++ match r with
                           | Ok _ => []
                           | Throw e =>
                               [MkProcessed (name thread_pdf) (JArray [])
                                  (js "Error processing PDF: "
                                   ++ message e)]
                           end)
                       w')
         /\ match r with
            | Ok _ => length records = 3
            | Throw _ => length records < 3
            end)
  /\ processFile parse generateContent (Some tt) getDocument getViewport
                 renderToPng thread_pdf (MkState [] 2)
     = (Ok tt, MkState [page1; page2; page3] 5)
  /\ convertPdfToImages (@None unit) getDocument getViewport renderToPng
                        pdf_bytes
     = Throw (Exn CANVAS_MISSING)
  /\ processFile parse generateContent (@None unit) getDocument getViewport
                 renderToPng thread_pdf (MkState [] 2)
     = (Ok tt, MkState [thread_no_canvas] 2).
Proof.
  pose proof (rasterizer_pages_and_backend parse generateContent
                (Some tt) getDocument getViewport renderToPng pdf_bytes)
    as [Hrender [_ [Hloop _]]].
  pose proof (rasterizer_pages_and_backend parse generateContent
                (@None unit) getDocument getViewport renderToPng pdf_bytes)
    as [_ [_ [_ Hmissing]]].
  split; [|split; [|split; [|split]]].
  - apply (Hrender tt (MkPdf 3 (fun pageNum => Ok pageNum))
                   (fun n => n) (fun n => [N.of_nat n; RENDER_SCALE])
                   eq_refl eq_refl).
    intros n Hn. split; reflexivity.
  - destruct (Hloop thread_pdf [[1; 2]; [2; 2]; [3; 2]]%N (MkState [] 2)
                    eq_refl eq_refl eq_refl)
      as [records [r [w' [Hrun [Hfile [Hlen _]]]]]].
    exists records, r, w'. split; [exact Hrun|].
    split; [exact Hfile | exact Hlen].
  - vm_compute. reflexivity.
  - apply (proj1 (Hmissing eq_refl)).
  - apply (proj1 (proj2 (Hmissing eq_refl) thread_pdf [] (MkState [] 2)
                        eq_refl eq_refl)).
Defined.

End Scenario.

(* ================================================================== *)
(** * CSV export: the whole document *)
(* ================================================================== *)

(** [generateCSV] joins its lines with line feeds and a value may hold
    line feeds of its own, inside quotes. This module reads a document
    back: records are cut at the line feeds that are not inside double
    quotes, then each record is read with [parseRecord]. *)
Module CsvDocument.
Import JsFacts Csv.

(** The records of a document. [quoted] tells whether a quote is open and
    [record] holds the record read so far. *)
Fixpoint splitRecords (s : jsstring) (quoted : bool) (record : jsstring)
  : list jsstring :=
  match s with
  | [] => [record]
  | c :: s' =>
      if char_eqb c DQUOTE
      then splitRecords s' (negb quoted) (record ++ [c])
      else if char_eqb c LF && negb quoted
           then record :: splitRecords s' false []
           else splitRecords s' quoted (record ++ [c])
  end.

Definition parseCSV (document : jsstring) : list (list (option jsstring)) :=
  map parseRecord (splitRecords document false []).

(** The five values of a comment, in the order of the columns. *)
Definition values (comment : Comment) : list (option jsstring) :=
  [Some (imageName comment); username comment; Some (text comment);
   timestamp comment; likes comment].

(** What a reader gets for a comment: an absent value reads as the empty
    text. *)
Definition fields (comment : Comment) : list (option jsstring) :=
  map (fun v => Some (text_of v)) (values comment).

(** A line of the document: the escaped values joined by commas. *)
Definition line (vs : list (option jsstring)) : jsstring :=
  join [COMMA] (map escapeCSV vs).

(** ** Facts *)

Lemma records_inside_quotes v rest record :
  splitRecords (double_quotes v ++ rest) true record
  = splitRecords rest true (record ++ double_quotes v).
Proof.
  unfold double_quotes. revert record.
  induction v as [|x v IH]; intros record.
  - cbn. rewrite app_nil_r. reflexivity.
  - cbn [flat_map]. destruct (char_eqb x DQUOTE) eqn:E.
    + apply N.eqb_eq in E. subst x. cbn [app splitRecords].
      change (char_eqb DQUOTE DQUOTE) with true. cbn iota. cbn [negb].
      rewrite IH. f_equal. list_norm.
    + cbn [app splitRecords]. rewrite E, andb_false_r, IH.
      f_equal. list_norm.
Qed.

Lemma records_plain v rest record :
  needs_quoting v = false ->
  splitRecords (v ++ rest) false record
  = splitRecords rest false (record ++ v).
Proof.
  unfold needs_quoting. revert record.
  induction v as [|x v IH]; intros record H.
  - cbn. rewrite app_nil_r. reflexivity.
  - cbn [existsb] in H. apply orb_false_iff in H. destruct H as [Hx Hv].
    apply orb_false_iff in Hx. destruct Hx as [Hx Hl].
    apply orb_false_iff in Hx. destruct Hx as [_ Hq].
    assert (E1 : char_eqb x DQUOTE = false)
      by (unfold char_eqb in *; rewrite N.eqb_sym; exact Hq).
    assert (E2 : char_eqb x LF = false)
      by (unfold char_eqb in *; rewrite N.eqb_sym; exact Hl).
    cbn [app splitRecords]. rewrite E1, E2. cbn [andb].
    rewrite (IH _ Hv). f_equal. list_norm.
Qed.

(** An escaped value never ends a record, whatever it holds. *)
Lemma records_escaped value rest record :
  splitRecords (escapeCSV value ++ rest) false record
  = splitRecords rest false (record ++ escapeCSV value).
Proof.
  destruct value as [v|]; [|cbn; rewrite app_nil_r; reflexivity].
  rewrite escapeCSV_form. destruct (needs_quoting v) eqn:E.
  - cbn [app splitRecords]. change (char_eqb DQUOTE DQUOTE) with true.
    cbn iota. cbn [negb]. rewrite <- app_assoc, records_inside_quotes.
    cbn [app splitRecords]. change (char_eqb DQUOTE DQUOTE) with true.
    cbn iota. cbn [negb]. f_equal. list_norm.
  - apply records_plain, E.
Qed.

(** Nor does a line of escaped values. *)
Lemma records_line vs rest record :
  splitRecords (line vs ++ rest) false record
  = splitRecords rest false (record ++ line vs).
Proof.
  unfold line. revert record.
  induction vs as [|v vs IH]; intros record.
  - cbn. rewrite app_nil_r. reflexivity.
  - destruct vs as [|w vs].
    + cbn [map join]. apply records_escaped.
    + change (join [COMMA] (map escapeCSV (v :: w :: vs)))
        with (escapeCSV v ++ [COMMA]
              ++ join [COMMA] (map escapeCSV (w :: vs))).
      rewrite <- !app_assoc. rewrite records_escaped.
      cbn [app splitRecords].
      change (char_eqb COMMA DQUOTE) with false.
      change (char_eqb COMMA LF) with false. cbn iota. cbn [andb].
      rewrite IH. f_equal. list_norm.
Qed.

(** The lines of a document are its records. *)
Lemma records_joined l ls :
  splitRecords (join [LF] (map line (l :: ls))) false []
  = map line (l :: ls).
Proof.
  revert l. induction ls as [|m ls IH]; intros l.
  - cbn [map join].
    rewrite <- (app_nil_r (line l)) at 1.
    rewrite records_line. reflexivity.
  - change (join [LF] (map line (l :: m :: ls)))
      with (line l ++ [LF] ++ join [LF] (map line (m :: ls))).
    rewrite records_line. cbn [app splitRecords].
    change (char_eqb LF DQUOTE) with false.
    change (char_eqb LF LF) with true. cbn iota. cbn [andb negb].
    rewrite IH. reflexivity.
Qed.

Lemma parseRecord_line vs :
  vs <> [] -> parseRecord (line vs) = map (fun v => Some (text_of v)) vs.
Proof.
  destruct vs as [|v vs]; [contradiction|]. intros _.
  apply record_round_trips.
Qed.

Lemma generateCSV_as_lines comments :
  generateCSV comments
  = join [LF] (map line (map Some headers :: map values comments)).
Proof.
  assert (H : join [COMMA] headers = line (map Some headers))
    by (vm_compute; reflexivity).
  unfold generateCSV. rewrite H, map_map.
  change (map line (map Some headers :: map values comments))
    with (line (map Some headers) :: map line (map values comments)).
  rewrite map_map. reflexivity.
Qed.

Lemma parseCSV_generateCSV (comments : list Comment) :
  parseCSV (generateCSV comments)
  = map Some headers :: map fields comments.
Proof.
  unfold parseCSV. rewrite generateCSV_as_lines, records_joined.
  change (map parseRecord
            (map line (map Some headers :: map values comments)))
    with (parseRecord (line (map Some headers))
          :: map parseRecord (map line (map values comments))).
  rewrite parseRecord_line by discriminate.
  rewrite !map_map. apply (f_equal2 cons); [reflexivity|].
  apply map_ext. intros comment.
  apply parseRecord_line. discriminate.
Qed.

(** The document read back: the header, then for each comment, in order,
    its five values, an absent one as the empty text. A value inside the
    document may hold commas, double quotes and line feeds; one record
    comes back per comment all the same. *)
Theorem document_round_trips (comments : list Comment) :
  parseCSV (generateCSV comments)
  = map Some headers :: map fields comments
  /\ length (parseCSV (generateCSV comments)) = S (length comments).
Proof.
  rewrite parseCSV_generateCSV. split; [reflexivity|].
  cbn [length]. rewrite length_map. reflexivity.
Qed.

End CsvDocument.

(* ================================================================== *)
(** * The list of selected files: [src/components/file-upload.tsx] *)
(* ================================================================== *)

(** [FileUpload] shows [acceptedFiles] and hands every new list to
    [onFilesSelected]. Its two handlers are modelled by the list they
    hand over: [None] when the handler returns without calling
    [onFilesSelected]. *)
Module FileUpload.

Section WithFile.

Variable File : Type.

(** [Array.prototype.slice(start, end)]: a negative index counts from the
    end and both indices are clamped to the array. *)
Definition slice (l : list File) (start end_ : Z) : list File :=
  let len := Z.of_nat (length l) in
  let k := if (start <? 0)%Z then Z.max (len + start) 0
           else Z.min start len in
  let final := if (end_ <? 0)%Z then Z.max (len + end_) 0
               else Z.min end_ len in
  firstn (Z.to_nat (final - k)) (skipn (Z.to_nat k) l).

(** [l.filter((x, i) => f(x, i))], the index starting at [i]. *)
Fixpoint filter_index (f : File -> nat -> bool) (l : list File) (i : nat)
  : list File :=
  match l with
  | [] => []
  | x :: l' =>
      if f x i then x :: filter_index f l' (S i)
      else filter_index f l' (S i)
  end.

(** [onDrop]: the dropped files fill the slots that are left. The limit
    [maxFiles] is a whole number (100 by default, 50 on the page). *)
Definition onDrop (maxFiles : Z) (acceptedFiles newFiles : list File)
  : option (list File) :=
  let remainingSlots := (maxFiles - Z.of_nat (length acceptedFiles))%Z in
  if (remainingSlots <=? 0)%Z then None
  else
    let filesToAdd := slice newFiles 0 remainingSlots in
    Some (acceptedFiles ++ filesToAdd).

(** [removeFile]. *)
Definition removeFile (acceptedFiles : list File) (index : nat)
  : list File :=
  filter_index (fun _ i => negb (Nat.eqb i index)) acceptedFiles 0.

(** What the user does to the list, and the list the parent component
    holds afterwards: the parent stores what [onFilesSelected] receives
    and keeps its list when the handler does not call it. *)
Inductive event : Type :=
| Drop (newFiles : list File)
| Remove (index : nat).

Definition step (maxFiles : Z) (acceptedFiles : list File) (e : event)
  : list File :=
  match e with
  | Drop newFiles =>
      match onDrop maxFiles acceptedFiles newFiles with
      | Some l => l
      | None => acceptedFiles
      end
  | Remove index => removeFile acceptedFiles index
  end.

Definition run (maxFiles : Z) (events : list event)
           (acceptedFiles : list File) : list File :=
  fold_left (step maxFiles) events acceptedFiles.

(** ** Facts *)

Lemma slice_prefix (l : list File) (n : Z) :
  (0 < n)%Z -> slice l 0 n = firstn (Z.to_nat n) l.
Proof.
  intros Hn. unfold slice.
  replace (0 <? 0)%Z with false by reflexivity.
  replace (n <? 0)%Z with false by (symmetry; apply Z.ltb_ge; lia).
  replace (Z.min 0 (Z.of_nat (length l))) with 0%Z by lia.
  cbn [Z.to_nat skipn]. rewrite Z.sub_0_r.
  destruct (Z.le_ge_cases n (Z.of_nat (length l))) as [H|H].
  - rewrite Z.min_l by exact H. reflexivity.
  - rewrite Z.min_r by lia. rewrite Nat2Z.id.
    rewrite !firstn_all2; [reflexivity|lia|lia].
Qed.

Lemma filter_index_past (l : list File) (index i : nat) :
  index < i ->
  filter_index (fun _ j => negb (Nat.eqb j index)) l i = l.
Proof.
  revert i. induction l as [|x l IH]; intros i H; [reflexivity|].
  cbn [filter_index].
  replace (Nat.eqb i index) with false
    by (symmetry; apply Nat.eqb_neq; lia).
  cbn [negb]. f_equal. apply IH. lia.
Qed.

Lemma filter_index_spec (l : list File) (index i : nat) :
  filter_index (fun _ j => negb (Nat.eqb j (i + index))) l i
  = firstn index l ++ skipn (S index) l.
Proof.
  revert index i. induction l as [|x l IH]; intros index i.
  - destruct index; reflexivity.
  - cbn [filter_index]. destruct index as [|index].
    + rewrite Nat.add_0_r, Nat.eqb_refl. cbn [negb firstn skipn app].
      apply filter_index_past. lia.
    + replace (Nat.eqb i (i + S index)) with false
        by (symmetry; apply Nat.eqb_neq; lia).
      cbn [negb firstn skipn app]. f_equal.
      replace (i + S index) with (S i + index) by lia.
      apply IH.
Qed.

Lemma removeFile_eq (acceptedFiles : list File) (index : nat) :
  removeFile acceptedFiles index
  = firstn index acceptedFiles ++ skipn (S index) acceptedFiles.
Proof. apply (filter_index_spec acceptedFiles index 0). Qed.

(** [removeFile] takes out the file at [index] and nothing else; an
    index past the end leaves the list as it is. *)
Theorem removeFile_removes_index (acceptedFiles : list File)
        (index : nat) :
  removeFile acceptedFiles index
  = firstn index acceptedFiles ++ skipn (S index) acceptedFiles
  /\ (index < length acceptedFiles ->
      S (length (removeFile acceptedFiles index)) = length acceptedFiles)
  /\ (length acceptedFiles <= index ->
      removeFile acceptedFiles index = acceptedFiles).
Proof.
  pose proof (removeFile_eq acceptedFiles index) as E.
  split; [exact E|]. rewrite E. split.
  - intros H. rewrite length_app, length_firstn, length_skipn. lia.
  - intros H. rewrite firstn_all2 by exact H.
    rewrite skipn_all2 by lia. apply app_nil_r.
Qed.

Lemma onDrop_some maxFiles (acceptedFiles newFiles : list File) :
  (Z.of_nat (length acceptedFiles) < maxFiles)%Z ->
  onDrop maxFiles acceptedFiles newFiles
  = Some (acceptedFiles
          ++ firstn (Z.to_nat maxFiles - length acceptedFiles) newFiles).
Proof.
  intros H. unfold onDrop.
  replace (maxFiles - Z.of_nat (length acceptedFiles) <=? 0)%Z with false
    by (symmetry; apply Z.leb_gt; lia).
  rewrite slice_prefix by lia. do 3 f_equal. lia.
Qed.

Lemma onDrop_none maxFiles (acceptedFiles newFiles : list File) :
  (maxFiles <= Z.of_nat (length acceptedFiles))%Z ->
  onDrop maxFiles acceptedFiles newFiles = None.
Proof.
  intros H. unfold onDrop.
  replace (maxFiles - Z.of_nat (length acceptedFiles) <=? 0)%Z with true
    by (symmetry; apply Z.leb_le; lia).
  reflexivity.
Qed.

(** [onDrop] ignores a drop exactly when no slot is left. Otherwise the
    new list is the old one followed by the first dropped files, as many
    as there are slots; the files that do not fit are left out, and the
    new length is the least of the limit and of the number of files at
    hand. *)
Theorem onDrop_fills_remaining_slots (maxFiles : Z)
        (acceptedFiles newFiles : list File) :
  match onDrop maxFiles acceptedFiles newFiles with
  | None => (maxFiles <= Z.of_nat (length acceptedFiles))%Z
  | Some l =>
      (Z.of_nat (length acceptedFiles) < maxFiles)%Z
      /\ (exists added left_out,
             newFiles = added ++ left_out /\ l = acceptedFiles ++ added)
      /\ Z.of_nat (length l)
         = Z.min maxFiles
                 (Z.of_nat (length acceptedFiles + length newFiles))
  end.
Proof.
  destruct (Z.lt_ge_cases (Z.of_nat (length acceptedFiles)) maxFiles)
    as [H|H].
  - rewrite (onDrop_some _ _ H). split; [exact H|]. split.
    + exists (firstn (Z.to_nat maxFiles - length acceptedFiles) newFiles),
             (skipn (Z.to_nat maxFiles - length acceptedFiles) newFiles).
      split; [symmetry; apply firstn_skipn | reflexivity].
    + rewrite length_app, length_firstn. lia.
  - rewrite (onDrop_none _ _ H). exact H.
Qed.

Lemma step_within_limit maxFiles (acceptedFiles : list File) e :
  (Z.of_nat (length acceptedFiles) <= maxFiles)%Z ->
  (Z.of_nat (length (step maxFiles acceptedFiles e)) <= maxFiles)%Z.
Proof.
  intros H. destruct e as [newFiles|index]; cbn [step].
  - destruct (Z.lt_ge_cases (Z.of_nat (length acceptedFiles)) maxFiles)
      as [L|L].
    + rewrite (onDrop_some _ _ L). rewrite length_app, length_firstn. lia.
    + rewrite (onDrop_none _ _ L). exact H.
  - rewrite removeFile_eq.
    rewrite length_app, length_firstn, length_skipn. lia.
Qed.

(** Whatever the user drops and removes, a list within the limit stays
    within the limit. *)
Theorem selection_stays_within_limit (maxFiles : Z) (events : list event)
        (acceptedFiles : list File) :
  (Z.of_nat (length acceptedFiles) <= maxFiles)%Z ->
  (Z.of_nat (length (run maxFiles events acceptedFiles)) <= maxFiles)%Z.
Proof.
  unfold run. revert acceptedFiles.
  induction events as [|e events IH]; intros acceptedFiles H.
  - exact H.
  - cbn [fold_left]. apply IH, step_within_limit, H.
Qed.

End WithFile.

(** Files stand for themselves by a number: three files dropped on a list
    of two with a limit of four, then the first file removed. *)
Definition dropped_then_removed : list (event nat) :=
  [Drop [3; 4; 5]%nat; Remove nat 0].

Lemma selection_stays_within_limit_witness :
  run 4 dropped_then_removed [1; 2]%nat = [2; 3; 4]%nat
  /\ (Z.of_nat (length (run 4 dropped_then_removed [1; 2]%nat)) <= 4)%Z.
Proof.
  split; [reflexivity|].
  apply (@selection_stays_within_limit nat 4 dropped_then_removed
           [1; 2]%nat).
  cbn. lia.
Defined.

End FileUpload.

(* ================================================================== *)
(** * The page: [src/app/page.tsx] *)
(* ================================================================== *)

(** The state of the component [Home] and its handlers. The state holds
    the five [useState] values and what the handlers do to the world
    around the component: the toasts shown, the requests sent and
    [localStorage]. A handler is a function on this state; the answer to
    a request is a parameter. The handler of the export is in
    [PageExport] below. *)
Module Page.
Import JsFacts.

(** An element of [ProcessedResult.comments]. *)
Record ResultComment : Type := MkResultComment {
  username : option jsstring;
  text : jsstring;
  timestamp : option jsstring;
  likes : option jsstring
}.

(** The interface [ProcessedResult]. *)
Record ProcessedResult : Type := MkResult {
  imageName : jsstring;
  comments : list ResultComment;
  rawResponse : jsstring
}.

(** A call of [toast]; [destructive] is [variant: "destructive"]. *)
Record Toast : Type := MkToast {
  title : jsstring;
  description : jsstring;
  destructive : bool
}.

(** [localStorage]: the latest value of a key comes first. *)
Definition Storage := list (jsstring * jsstring).

Fixpoint getItem (key : jsstring) (storage : Storage) : option jsstring :=
  match storage with
  | [] => None
  | (k, v) :: storage' =>
      if str_eqb k key then Some v else getItem key storage'
  end.

Definition setItem (key value : jsstring) (storage : Storage) : Storage :=
  (key, value) :: storage.

Definition API_KEY_ITEM : jsstring := js "gemini_api_key".

(** What the request to [/api/process-images] comes to. *)
Inductive FetchOutcome : Type :=
| Failed (e : exn)
    (** [fetch] or [response.json()] rejects *)
| HttpError (error : option jsstring)
    (** [!response.ok]; the [error] property of the body, if any *)
| Success (data_results : list ProcessedResult)
    (** the [results] of the body *).

Section WithFetch.

Variable File : Type.

(** The request carries the key and the files. *)
Variable fetch : jsstring -> list File -> FetchOutcome.

Record State : Type := MkState {
  files : list File;
  apiKey : jsstring;
  isProcessing : bool;
  results : list ProcessedResult;
  showSettings : bool;
  toasts : list Toast;
  requests : list (jsstring * list File);
  localStorage : Storage
}.

(** The state of the first render. *)
Definition initial (storage : Storage) : State :=
  MkState [] [] false [] false [] [] storage.

Definition setApiKey (v : jsstring) (st : State) : State :=
  MkState (files st) v (isProcessing st) (results st) (showSettings st)
          (toasts st) (requests st) (localStorage st).

Definition setIsProcessing (v : bool) (st : State) : State :=
  MkState (files st) (apiKey st) v (results st) (showSettings st)
          (toasts st) (requests st) (localStorage st).

Definition setResults (v : list ProcessedResult) (st : State) : State :=
  MkState (files st) (apiKey st) (isProcessing st) v (showSettings st)
          (toasts st) (requests st) (localStorage st).

Definition setShowSettings (v : bool) (st : State) : State :=
  MkState (files st) (apiKey st) (isProcessing st) (results st) v
          (toasts st) (requests st) (localStorage st).

Definition toast (t : Toast) (st : State) : State :=
  MkState (files st) (apiKey st) (isProcessing st) (results st)
          (showSettings st) (toasts st ++ [t]) (requests st)
          (localStorage st).

Definition send (key : jsstring) (fs : list File) (st : State) : State :=
  MkState (files st) (apiKey st) (isProcessing st) (results st)
          (showSettings st) (toasts st) (requests st ++ [(key, fs)])
          (localStorage st).

Definition store (key value : jsstring) (st : State) : State :=
  MkState (files st) (apiKey st) (isProcessing st) (results st)
          (showSettings st) (toasts st) (requests st)
          (setItem key value (localStorage st)).

(** The effect run on mount: a saved key that is not empty is loaded. *)
Definition loadApiKey (st : State) : State :=
  match getItem API_KEY_ITEM (localStorage st) with
  | Some (x :: savedApiKey) => setApiKey (x :: savedApiKey) st
  | _ => st
  end.

Definition handleApiKeyChange (value : jsstring) (st : State) : State :=
  store API_KEY_ITEM value (setApiKey value st).

(** [results.reduce((sum, result) => sum + result.comments.length, 0)]. *)
Definition totalComments (rs : list ProcessedResult) : nat :=
  fold_left (fun sum result => sum + length (comments result)) rs 0.

(** [a || b] on strings: the empty string is falsy. *)
Definition or_else (a : option jsstring) (b : jsstring) : jsstring :=
  match a with
  | Some (x :: a') => x :: a'
  | _ => b
  end.

(** [handleProcess]. The [try] block either completes or throws an error
    whose message the [catch] block shows; [finally] clears the flag. *)
Definition handleProcess (st : State) : State :=
  match apiKey st with
  | [] =>
      setShowSettings true
        (toast (MkToast (js "API Key Required")
                        (js "Please enter your API key in settings.")
                        true) st)
  | _ =>
      match files st with
      | [] =>
          toast (MkToast (js "No Files Selected")
                   (js "Please select at least one image to process.")
                   true) st
      | _ =>
          let st1 := setResults [] (setIsProcessing true st) in
          let st2 := send (apiKey st) (files st) st1 in
          let failure (message : jsstring) :=
            toast (MkToast (js "Processing Failed")
                     (or_else (Some message)
                        (js "An error occurred while processing images."))
                     true) st2 in
          let st3 :=
            match fetch (apiKey st) (files st) with
            | Failed e => failure (message e)
            | HttpError error =>
                failure (or_else error (js "Failed to process images"))
            | Success data_results =>
                toast (MkToast (js "Processing Complete")
                         (js "Extracted "
                          ++ numberToString (totalComments data_results)
                          ++ js " comments from "
                          ++ numberToString (length data_results)
                          ++ js " image(s).")
                         false)
                      (setResults data_results st2)
            end in
          setIsProcessing false st3
      end
  end.

(** ** Facts *)

(** A key typed in the settings is there again after a reload: the state
    of the first render over the storage left by [handleApiKeyChange],
    once the effect of the mount has run, holds the key. The empty key is
    stored and not loaded, and the first render starts from it. *)
Theorem api_key_survives_reload (value : jsstring) (st : State) :
  apiKey (loadApiKey
            (initial (localStorage (handleApiKeyChange value st))))
  = value.
Proof.
  unfold loadApiKey, initial, handleApiKeyChange, store, setItem.
  cbn [localStorage getItem].
  change (str_eqb API_KEY_ITEM API_KEY_ITEM) with true. cbn iota.
  destruct value; reflexivity.
Qed.

(** [handleProcess] never touches the files or the key and shows exactly
    one toast. Without a key or without a file it sends nothing and keeps
    the results; otherwise it sends one request with the key and the
    files, which are then not empty, leaves [isProcessing] cleared, and
    the results are those of the answer when the request succeeds and
    none at all when it fails: the results of an earlier run are gone. *)
Theorem handleProcess_settles (st : State) :
  let st' := handleProcess st in
  files st' = files st /\ apiKey st' = apiKey st
  /\ length (toasts st') = S (length (toasts st))
  /\ ((apiKey st = [] \/ files st = []) ->
      requests st' = requests st /\ results st' = results st
      /\ isProcessing st' = isProcessing st
      /\ exists t, toasts st' = toasts st ++ [t] /\ destructive t = true)
  /\ (apiKey st <> [] -> files st <> [] ->
      requests st' = requests st ++ [(apiKey st, files st)]
      /\ isProcessing st' = false
      /\ match fetch (apiKey st) (files st) with
         | Success data_results =>
             results st' = data_results
             /\ exists t, toasts st' = toasts st ++ [t]
                          /\ destructive t = false
         | _ =>
             results st' = []
             /\ exists t, toasts st' = toasts st ++ [t]
                          /\ destructive t = true
                          /\ description t <> []
         end).
Proof.
  cbv zeta. unfold handleProcess.
  destruct (apiKey st) as [|k key] eqn:Ek.
  - cbn. rewrite length_app. cbn [length].
    split; [reflexivity|]. split; [exact Ek|]. split; [lia|]. split.
    + intros _. split; [reflexivity|]. split; [reflexivity|].
      split; [reflexivity|]. eexists. split; reflexivity.
    + intros H. contradiction.
  - destruct (files st) as [|f fs] eqn:Ef.
    + cbn. rewrite length_app. cbn [length].
      split; [exact Ef|]. split; [exact Ek|]. split; [lia|]. split.
      * intros _. split; [reflexivity|]. split; [reflexivity|].
        split; [reflexivity|]. eexists. split; reflexivity.
      * intros _ H. contradiction.
    + assert (Hno : ~ (k :: key = [] \/ f :: fs = []))
        by (intros [H|H]; discriminate).
      destruct (fetch (k :: key) (f :: fs)) as [e|error|data_results];
        cbn; rewrite length_app; cbn [length];
        (split; [exact Ef|]); (split; [exact Ek|]); (split; [lia|]);
        (split; [intros H; contradiction|]); intros _ _;
        rewrite ?Ek, ?Ef; (split; [reflexivity|]); (split; [reflexivity|]);
        (split; [reflexivity|]); eexists; (split; [reflexivity|]).
      * split; [reflexivity|]. cbn. destruct (message e); discriminate.
      * split; [reflexivity|]. cbn.
        destruct error as [[|x m]|]; cbn; discriminate.
      * reflexivity.
Qed.

End WithFetch.

End Page.

(* ================================================================== *)
(** * The loop of [src/app/api/process-images/route.ts] *)
(* ================================================================== *)

(** The image-only route: every file is sent to the model as one image
    and the response goes through the ladder of [RouteTs]. The records,
    the files, the response of the route and the steps of the loop are
    those of [Batch]. *)
Module RouteTsBatch.
Import Batch.

Section WithPlatform.

Variable JSON_parse : jsstring -> option json.
Variable World : Type.

(** [ai.models.generateContent]: the call may reject, and the [text] of
    its response may be [undefined]. *)
Variable generateContent :
  World -> Buffer -> jsstring -> result (option jsstring) * World.

Definition call (buffer : Buffer) (mimeType : jsstring)
  : M World (option jsstring) :=
  fun st =>
    let (r, w) := generateContent (world st) buffer mimeType in
    (r, MkState (results st) w).

(** [response.text || ""]. *)
Definition responseText_of (text : option jsstring) : jsstring :=
  match text with
  | Some t => t
  | None => []
  end.

Definition ERROR_PREFIX : jsstring := js "Error processing image: ".

(** The body of the loop. The object pushed in the [try] block reads
    [parsedComments.comments] while it is built, so an error there leaves
    [results] alone and reaches the [catch] block. *)
Definition processFile (file : File) : M World unit :=
  try_catchM
    (bind (lift (arrayBuffer file)) (fun buffer =>
     let mimeType :=
       match type file with [] => js "image/jpeg" | t => t end in
     bind (call buffer mimeType) (fun text =>
     let responseText := responseText_of text in
     bind (lift (RouteTs.normalize JSON_parse responseText))
          (fun parsed =>
     push (MkProcessed (name file) parsed responseText)))))
    (fun error =>
       push (MkProcessed (name file) (JArray [])
                         (ERROR_PREFIX ++ message error))).

Fixpoint processFiles (files : list File) : M World unit :=
  match files with
  | [] => ret tt
  | file :: rest => bind (processFile file) (fun _ => processFiles rest)
  end.

Definition POST (apiKey : option jsstring) (files : list File) (w : World)
  : Response * World :=
  match apiKey with
  | None | Some [] => (JsonError 400 (js "API key is required"), w)
  | Some _ =>
      match files with
      | [] => (JsonError 400 (js "No files provided"), w)
      | _ =>
          match processFiles files (MkState [] w) with
          | (Ok _, st) => (JsonResults (results st), world st)
          | (Throw e, st) =>
              (JsonError 500
                 (match message e with
                  | [] => js "Failed to process images"
                  | m => m
                  end), world st)
          end
      end
  end.

(** ** Notions used in the statements *)

(** A record of the loop for [file]: it is named after the file, and
    either it holds the response and what the ladder made of it, or it
    is the record of the [catch] block. *)
Definition record_of (file : File) (r : ProcessedComment) : Prop :=
  imageName r = name file
  /\ (RouteTs.normalize JSON_parse (rawResponse r) = Ok (comments r)
      \/ (comments r = JArray []
          /\ startsWith ERROR_PREFIX (rawResponse r) = true)).

(** ** Facts *)

Lemma processFile_one_record (file : File) (st : State World) :
  exists r w,
    processFile file st = (Ok tt, MkState (results st ++ [r]) w)
    /\ record_of file r.
Proof.
  assert (Hcatch : forall e,
             record_of file
               (MkProcessed (name file) (JArray [])
                            (ERROR_PREFIX ++ message e))).
  { intros e. split; [reflexivity|]. right. split; [reflexivity|].
    cbn [rawResponse]. apply JsFacts.startsWith_app. }
  unfold processFile, try_catchM, bind, lift, call, push.
  destruct (arrayBuffer file) as [buffer|e].
  - cbn [results world].
    destruct (generateContent (world st) buffer
                (match type file with [] => js "image/jpeg" | t => t end))
      as [[text|e] w].
    + cbn [results world].
      destruct (RouteTs.normalize JSON_parse (responseText_of text))
        as [parsed|e] eqn:E.
      * eexists. eexists. split; [reflexivity|].
        split; [reflexivity|]. left. exact E.
      * eexists. eexists. split; [reflexivity|]. apply Hcatch.
    + cbn [results world].
      eexists. eexists. split; [reflexivity|]. apply Hcatch.
  - eexists. eexists. split; [reflexivity|]. apply Hcatch.
Qed.

Lemma processFiles_records (files : list File) :
  forall st : State World,
  exists rs w,
    processFiles files st = (Ok tt, MkState (results st ++ rs) w)
    /\ Forall2 record_of files rs.
Proof.
  induction files as [|file files IH]; intros st.
  - exists [], (world st). cbn. rewrite app_nil_r. destruct st.
    split; [reflexivity | constructor].
  - cbn [processFiles]. unfold bind at 1.
    destruct (processFile_one_record file st) as [r [w [E Hr]]].
    rewrite E.
    destruct (IH (MkState (results st ++ [r]) w)) as [rs [w' [E' Hrs]]].
    exists (r :: rs), w'. rewrite E'. cbn [results].
    rewrite <- app_assoc. split; [reflexivity|].
    constructor; assumption.
Qed.

(** The route answers 400, without calling the model, exactly when the
    key or the files are missing, and never 500 once the form is read.
    Otherwise the response lists exactly one record per file, in the
    order of the files and named after them, whatever fails on the way:
    a record holds the response of the model and what the ladder read in
    it, or no comment and the message of the error. *)
Theorem route_one_record_per_file (apiKey : option jsstring)
        (files : list File) (w : World) :
  match POST apiKey files w with
  | (JsonResults rs, _) =>
      (exists x key, apiKey = Some (x :: key)) /\ files <> []
      /\ Forall2 record_of files rs
      /\ map imageName rs = map name files
  | (JsonError status error, w') =>
      status = 400 /\ w' = w
      /\ (apiKey = None \/ apiKey = Some [] \/ files = [])
  end.
Proof.
  unfold POST. destruct apiKey as [[|x key]|].
  - split; [reflexivity|]. split; [reflexivity|]. right. left. reflexivity.
  - destruct files as [|file files'].
    + split; [reflexivity|]. split; [reflexivity|]. right. right.
      reflexivity.
    + destruct (processFiles_records (file :: files') (MkState [] w))
        as [rs [w' [E Hrs]]].
      rewrite E. cbn [results app]. split; [eexists; eexists; reflexivity|].
      split; [discriminate|]. split; [exact Hrs|].
      clear E. induction Hrs as [|f r fs rs' Hr _ IH]; [reflexivity|].
      cbn [map]. f_equal; [apply Hr | exact IH].
  - split; [reflexivity|]. split; [reflexivity|]. left. reflexivity.
Qed.

End WithPlatform.

End RouteTsBatch.

(* ================================================================== *)
(** * JSON in the middle of a text *)
(* ================================================================== *)

(** Both routes look for the JSON object of a response between its first
    opening brace and its last closing brace: the layered route with
    [indexOf] and [lastIndexOf] on the trimmed text, the route of
    [route.ts] with the pattern [braces_re]. This module relates the two
    and shows what they recover from a JSON object with text around
    it. *)
Module BraceSpan.
Import JsFacts RegexFacts Normalizer NormalizerFacts.

(** A text without the code unit [c]. *)
Definition free_of (c : char) (s : jsstring) : bool :=
  forallb (fun x => negb (char_eqb c x)) s.

(** The test of [braceSpan]: both braces are there, the opening one
    first. *)
Definition has_span (s : jsstring) : bool :=
  let firstBrace := indexOf [LBRACE] s in
  let lastBrace := lastIndexOf [RBRACE] s in
  negb (firstBrace =? -1)%Z && negb (lastBrace =? -1)%Z
  && (firstBrace <? lastBrace)%Z.

(** [}] in front of a continuation that completes the match. *)
Definition rbrace_k (s : jsstring) (c : captures)
  : option (jsstring * captures) :=
  match s with
  | y :: rest => if char_eqb RBRACE y then Some (rest, c) else None
  | [] => None
  end.

(** ** Strings *)

Lemma indexOf_lower_bound p s : (-1 <= indexOf p s)%Z.
Proof.
  induction s as [|x s IH]; cbn [indexOf].
  - destruct (startsWith p []); lia.
  - destruct (startsWith p (x :: s)); [lia|].
    destruct (indexOf p s <? 0)%Z eqn:E; [lia|].
    apply Z.ltb_ge in E. lia.
Qed.

Lemma lastIndexOf_upper_bound c s :
  (lastIndexOf [c] s < Z.of_nat (length s))%Z.
Proof.
  induction s as [|x s IH]; cbn [lastIndexOf startsWith length].
  - lia.
  - destruct (0 <=? lastIndexOf [c] s)%Z; [lia|].
    destruct (char_eqb c x && true); lia.
Qed.

Lemma lastIndexOf_none c s :
  free_of c s = true -> lastIndexOf [c] s = (-1)%Z.
Proof.
  unfold free_of. induction s as [|x s IH]; cbn [forallb lastIndexOf];
    intros H.
  - reflexivity.
  - apply andb_true_iff in H. destruct H as [Hx Hs].
    rewrite (IH Hs). cbn [startsWith].
    apply negb_true_iff in Hx. rewrite Hx. reflexivity.
Qed.

Lemma lastIndexOf_before c a post :
  free_of c post = true ->
  lastIndexOf [c] (a ++ c :: post) = Z.of_nat (length a).
Proof.
  intros H. induction a as [|x a IH].
  - cbn [app lastIndexOf]. rewrite (lastIndexOf_none _ _ H).
    cbn [startsWith]. unfold char_eqb. rewrite N.eqb_refl. reflexivity.
  - change ((x :: a) ++ c :: post) with (x :: (a ++ c :: post)).
    cbn [lastIndexOf]. rewrite IH.
    replace (0 <=? Z.of_nat (length a))%Z with true
      by (symmetry; apply Z.leb_le; lia).
    cbn [length]. lia.
Qed.

(** The brace span of a braced text between a prefix without opening
    brace and a suffix without closing brace is the braced text. *)
Lemma brace_span_around pre body post :
  free_of LBRACE pre = true -> free_of RBRACE post = true ->
  braced body -> braceSpan (pre ++ body ++ post) = body.
Proof.
  intros Hpre Hpost [mid ->]. unfold braceSpan.
  replace (pre ++ (LBRACE :: mid ++ [RBRACE]) ++ post)
    with (pre ++ LBRACE :: (mid ++ RBRACE :: post)) by list_norm.
  rewrite (indexOf_skip LBRACE pre (mid ++ RBRACE :: post) Hpre).
  replace (pre ++ LBRACE :: (mid ++ RBRACE :: post))
    with ((pre ++ LBRACE :: mid) ++ RBRACE :: post) by list_norm.
  rewrite (lastIndexOf_before RBRACE (pre ++ LBRACE :: mid) post Hpost).
  rewrite length_app. cbn [length].
  replace (negb (Z.of_nat (length pre) =? -1)%Z) with true
    by (symmetry; apply negb_true_iff, Z.eqb_neq; lia).
  replace (negb (Z.of_nat (length pre + S (length mid)) =? -1)%Z) with true
    by (symmetry; apply negb_true_iff, Z.eqb_neq; lia).
  replace (Z.of_nat (length pre) <? Z.of_nat (length pre + S (length mid)))%Z
    with true by (symmetry; apply Z.ltb_lt; lia).
  cbn [andb].
  replace ((pre ++ LBRACE :: mid) ++ RBRACE :: post)
    with (pre ++ (LBRACE :: mid ++ [RBRACE]) ++ post) by list_norm.
  replace (Z.of_nat (length pre + S (length mid)) + 1)%Z
    with (Z.of_nat (length pre + length (LBRACE :: mid ++ [RBRACE])))
    by (cbn [length]; rewrite length_app; cbn [length]; lia).
  apply substring_middle.
Qed.

Lemma trimStart_before x pre t :
  is_space x = false -> trimStart (pre ++ x :: t) = trimStart pre ++ x :: t.
Proof.
  intros Hx. induction pre as [|y pre IH]; cbn [app trimStart].
  - rewrite Hx. reflexivity.
  - destruct (is_space y); [exact IH | reflexivity].
Qed.

Lemma trimEnd_after y t post :
  is_space y = false -> trimEnd (t ++ y :: post) = t ++ y :: trimEnd post.
Proof.
  intros Hy. unfold trimEnd.
  rewrite rev_app_distr. cbn [rev]. rewrite <- app_assoc. cbn [app].
  rewrite trimStart_before by exact Hy.
  rewrite rev_app_distr. cbn [rev]. rewrite rev_involutive.
  list_norm.
Qed.

Lemma trimStart_is_suffix s :
  exists ws, s = ws ++ trimStart s.
Proof.
  induction s as [|x s [ws IH]]; cbn [trimStart].
  - exists []. reflexivity.
  - destruct (is_space x).
    + exists (x :: ws). cbn [app]. f_equal. exact IH.
    + exists []. reflexivity.
Qed.

Lemma trimEnd_is_prefix s :
  exists ws, s = trimEnd s ++ ws.
Proof.
  unfold trimEnd. destruct (trimStart_is_suffix (rev s)) as [ws E].
  exists (rev ws). rewrite <- rev_app_distr, <- E, rev_involutive.
  reflexivity.
Qed.

Lemma trim_is_infix s : exists ws1 ws2, s = ws1 ++ trim s ++ ws2.
Proof.
  unfold trim. destruct (trimStart_is_suffix s) as [ws1 E1].
  destruct (trimEnd_is_prefix (trimStart s)) as [ws2 E2].
  exists ws1, ws2. rewrite <- E2. exact E1.
Qed.

Lemma forallb_trimStart f s :
  forallb f s = true -> forallb f (trimStart s) = true.
Proof.
  destruct (trimStart_is_suffix s) as [ws E]. intros H.
  rewrite E, forallb_app in H. apply andb_true_iff in H. apply H.
Qed.

Lemma forallb_trimEnd f s :
  forallb f s = true -> forallb f (trimEnd s) = true.
Proof.
  destruct (trimEnd_is_prefix s) as [ws E]. intros H.
  rewrite E, forallb_app in H. apply andb_true_iff in H. apply H.
Qed.

(** [trim] of a text around a part that starts and ends on a code unit
    that is not white space. *)
Lemma trim_around pre x mid y post :
  is_space x = false -> is_space y = false ->
  trim (pre ++ (x :: mid ++ [y]) ++ post)
  = trimStart pre ++ (x :: mid ++ [y]) ++ trimEnd post.
Proof.
  intros Hx Hy. unfold trim.
  replace (pre ++ (x :: mid ++ [y]) ++ post)
    with (pre ++ x :: (mid ++ [y] ++ post)) by list_norm.
  rewrite trimStart_before by exact Hx.
  replace (trimStart pre ++ x :: mid ++ [y] ++ post)
    with ((trimStart pre ++ x :: mid) ++ y :: post) by list_norm.
  rewrite trimEnd_after by exact Hy. list_norm.
Qed.

Lemma startsWith_prefix p s t :
  startsWith p s = true -> startsWith p (s ++ t) = true.
Proof.
  revert s. induction p as [|x p IH]; intros s H; [reflexivity|].
  destruct s as [|y s]; [discriminate|].
  cbn [startsWith app] in *. apply andb_true_iff in H.
  destruct H as [H1 H2]. rewrite H1, (IH _ H2). reflexivity.
Qed.

Lemma includes_false_prefix p a b :
  includes p (a ++ b) = false -> includes p a = false.
Proof.
  induction a as [|x a IH]; intros H.
  - unfold includes. cbn [indexOf].
    destruct (startsWith p []) eqn:E; [|reflexivity].
    apply includes_false_startsWith in H.
    pose proof (startsWith_prefix p [] b E) as E'.
    cbn [app] in *. congruence.
  - change ((x :: a) ++ b) with (x :: (a ++ b)) in H.
    apply includes_cons_false in H. destruct H as [H1 H2].
    specialize (IH H2). unfold includes in *. cbn [indexOf].
    destruct (startsWith p (x :: a)) eqn:E.
    + pose proof (startsWith_prefix p (x :: a) b E) as E'.
      cbn [app] in E'. congruence.
    + apply Z.leb_gt in IH.
      replace (indexOf p a <? 0)%Z with true
        by (symmetry; apply Z.ltb_lt; exact IH).
      reflexivity.
Qed.

Lemma includes_trim p s :
  includes p s = false -> includes p (trim s) = false.
Proof.
  destruct (trim_is_infix s) as [ws1 [ws2 E]]. intros H.
  rewrite E in H. apply includes_false_suffix in H.
  apply includes_false_prefix in H. exact H.
Qed.

Lemma substring_cons x s a b :
  (0 <= a)%Z -> (0 <= b)%Z ->
  substring (x :: s) (a + 1) (b + 1) = substring s a b.
Proof.
  intros Ha Hb. unfold substring. cbn [length].
  set (len := Z.of_nat (length s)).
  replace (Z.of_nat (S (length s))) with (len + 1)%Z by (unfold len; lia).
  replace (Z.min (Z.max (a + 1) 0) (len + 1))
    with (Z.min (Z.max a 0) len + 1)%Z by lia.
  replace (Z.min (Z.max (b + 1) 0) (len + 1))
    with (Z.min (Z.max b 0) len + 1)%Z by lia.
  set (a' := Z.min (Z.max a 0) len). set (b' := Z.min (Z.max b 0) len).
  assert (Ha' : (0 <= a')%Z) by (unfold a', len; lia).
  assert (Hb' : (0 <= b')%Z) by (unfold b', len; lia).
  replace (Z.min (a' + 1) (b' + 1)) with (Z.min a' b' + 1)%Z by lia.
  replace (Z.max (a' + 1) (b' + 1)) with (Z.max a' b' + 1)%Z by lia.
  replace (Z.max a' b' + 1 - (Z.min a' b' + 1))%Z
    with (Z.max a' b' - Z.min a' b')%Z by lia.
  replace (Z.to_nat (Z.min a' b' + 1)) with (S (Z.to_nat (Z.min a' b')))
    by lia.
  reflexivity.
Qed.

(** ** The pattern [braces_re] *)

(** The greedy run of [braces_re] ends on the last closing brace. *)
Lemma greedy_any_last_rbrace t c :
  greedy_class any rbrace_k t c
  = if (0 <=? lastIndexOf [RBRACE] t)%Z
    then Some (skipn (Z.to_nat (lastIndexOf [RBRACE] t + 1)) t, c)
    else None.
Proof.
  induction t as [|x t IH]; cbn [greedy_class lastIndexOf startsWith any].
  - reflexivity.
  - rewrite IH. destruct (0 <=? lastIndexOf [RBRACE] t)%Z eqn:E.
    + apply Z.leb_le in E.
      replace (0 <=? lastIndexOf [RBRACE] t + 1)%Z with true
        by (symmetry; apply Z.leb_le; lia).
      replace (Z.to_nat (lastIndexOf [RBRACE] t + 1 + 1))
        with (S (Z.to_nat (lastIndexOf [RBRACE] t + 1))) by lia.
      reflexivity.
    + cbn [rbrace_k]. rewrite andb_true_r.
      destruct (char_eqb RBRACE x); reflexivity.
Qed.

Lemma exec_braces s :
  exec_at RouteTs.braces_re s
  = match s with
    | x :: t =>
        if char_eqb LBRACE x then
          if (0 <=? lastIndexOf [RBRACE] t)%Z
          then Some (skipn (Z.to_nat (lastIndexOf [RBRACE] t + 1)) t, [])
          else None
        else None
    | [] => None
    end.
Proof.
  unfold exec_at, RouteTs.braces_re. rewrite run_seq_cons.
  destruct s as [|x t]; cbn [run]; [reflexivity|].
  destruct (char_eqb LBRACE x); [|reflexivity].
  rewrite run_seq_cons, run_star.
  rewrite (greedy_class_ext any _ rbrace_k).
  - apply greedy_any_last_rbrace.
  - intros s0 c0. cbn [sequence run]. reflexivity.
Qed.

Lemma search_braces_none s :
  lastIndexOf [RBRACE] s = (-1)%Z -> search RouteTs.braces_re s = None.
Proof.
  induction s as [|x s IH]; cbn [search]; rewrite exec_braces.
  - reflexivity.
  - cbn [lastIndexOf]. intros H.
    destruct (0 <=? lastIndexOf [RBRACE] s)%Z eqn:E.
    + apply Z.leb_le in E. lia.
    + destruct (char_eqb LBRACE x); apply IH;
        pose proof (lastIndexOf_nonneg_bound [RBRACE] s);
        apply Z.leb_gt in E; lia.
Qed.

(** A match of [braces_re] is the brace span computed with [indexOf] and
    [lastIndexOf], and there is one exactly when the test of [braceSpan]
    passes. *)
Lemma search_braces s :
  search RouteTs.braces_re s
  = if has_span s
    then Some (substring s (indexOf [LBRACE] s)
                         (lastIndexOf [RBRACE] s + 1), [])
    else None.
Proof.
  unfold has_span. induction s as [|x s IH].
  - reflexivity.
  - cbn [search]. rewrite exec_braces.
    pose proof (lastIndexOf_nonneg_bound [RBRACE] s) as Bj.
    pose proof (lastIndexOf_upper_bound RBRACE s) as Uj.
    pose proof (indexOf_lower_bound [LBRACE] s) as Bi.
    cbn [indexOf lastIndexOf startsWith]. rewrite !andb_true_r.
    destruct (char_eqb LBRACE x) eqn:Ex.
    + assert (Er : char_eqb RBRACE x = false).
      { apply N.eqb_eq in Ex. subst x. reflexivity. }
      rewrite Er.
      destruct (0 <=? lastIndexOf [RBRACE] s)%Z eqn:E.
      * apply Z.leb_le in E.
        replace (negb (lastIndexOf [RBRACE] s + 1 =? -1)%Z) with true
          by (symmetry; apply negb_true_iff, Z.eqb_neq; lia).
        replace (0 <? lastIndexOf [RBRACE] s + 1)%Z with true
          by (symmetry; apply Z.ltb_lt; lia).
        cbn [negb andb Z.eqb]. f_equal. f_equal.
        replace (lastIndexOf [RBRACE] s + 1 + 1)%Z
          with (Z.of_nat (S (Z.to_nat (lastIndexOf [RBRACE] s + 1))))
          by lia.
        rewrite substring_prefix. unfold consumed.
        rewrite length_skipn. cbn [length]. f_equal. lia.
      * cbn [negb andb Z.eqb]. rewrite andb_false_r. cbn [andb].
        apply search_braces_none. apply Z.leb_gt in E. lia.
    + rewrite IH.
      destruct (indexOf [LBRACE] s <? 0)%Z eqn:Ei.
      * apply Z.ltb_lt in Ei.
        replace (indexOf [LBRACE] s =? -1)%Z with true
          by (symmetry; apply Z.eqb_eq; lia).
        reflexivity.
      * apply Z.ltb_ge in Ei.
        replace (indexOf [LBRACE] s =? -1)%Z with false
          by (symmetry; apply Z.eqb_neq; lia).
        replace (indexOf [LBRACE] s + 1 =? -1)%Z with false
          by (symmetry; apply Z.eqb_neq; lia).
        cbn [negb andb].
        destruct (0 <=? lastIndexOf [RBRACE] s)%Z eqn:E.
        -- apply Z.leb_le in E.
           replace (lastIndexOf [RBRACE] s =? -1)%Z with false
             by (symmetry; apply Z.eqb_neq; lia).
           replace (lastIndexOf [RBRACE] s + 1 =? -1)%Z with false
             by (symmetry; apply Z.eqb_neq; lia).
           cbn [negb andb].
           replace (indexOf [LBRACE] s + 1 <? lastIndexOf [RBRACE] s + 1)%Z
             with (indexOf [LBRACE] s <? lastIndexOf [RBRACE] s)%Z
             by (destruct (indexOf [LBRACE] s <? lastIndexOf [RBRACE] s)%Z
                   eqn:L; symmetry;
                 [apply Z.ltb_lt; apply Z.ltb_lt in L; lia
                 |apply Z.ltb_ge; apply Z.ltb_ge in L; lia]).
           destruct (indexOf [LBRACE] s <? lastIndexOf [RBRACE] s)%Z;
             [|reflexivity].
           rewrite substring_cons by lia. reflexivity.
        -- apply Z.leb_gt in E.
           replace (lastIndexOf [RBRACE] s =? -1)%Z with true
             by (symmetry; apply Z.eqb_eq; lia).
           cbn [negb andb].
           destruct (char_eqb RBRACE x).
           ++ cbn [Z.eqb negb andb].
              replace (indexOf [LBRACE] s + 1 <? 0)%Z with false
                by (symmetry; apply Z.ltb_ge; lia).
              reflexivity.
           ++ reflexivity.
Qed.

(** ** The fenced patterns of [route.ts] *)

Lemma startsWith_longer p q s :
  startsWith p s = false -> startsWith (p ++ q) s = false.
Proof.
  revert s. induction p as [|x p IH]; intros s H; [discriminate|].
  destruct s as [|y s]; [reflexivity|].
  cbn [startsWith app] in *. destruct (char_eqb x y); [|reflexivity].
  cbn [andb] in *. apply IH, H.
Qed.

Lemma exec_jsonFence_eq s :
  exec_at RouteTs.jsonFence_re s
  = if startsWith (js "```json") s then after_tag (skipn 7 s) [] else None.
Proof.
  unfold exec_at, RouteTs.jsonFence_re. rewrite run_seq_cons, run_lit.
  destruct (startsWith (js "```json") s); [|reflexivity].
  change (length (js "```json")) with 7. fold done.
  apply run_after_tag.
Qed.

Lemma exec_fence_eq s :
  exec_at RouteTs.fence_re s
  = if startsWith bt3 s then after_tag (skipn 3 s) [] else None.
Proof.
  unfold exec_at, RouteTs.fence_re. rewrite run_seq_cons, run_lit.
  fold bt3. destruct (startsWith bt3 s); [|reflexivity].
  change (length bt3) with 3. fold done.
  apply run_after_tag.
Qed.

Lemma search_fences_none s :
  includes bt3 s = false ->
  search RouteTs.jsonFence_re s = None /\ search RouteTs.fence_re s = None.
Proof.
  induction s as [|x s IH]; intros H; cbn [search];
    rewrite exec_jsonFence_eq, exec_fence_eq;
    pose proof (includes_false_startsWith _ _ H) as H0;
    rewrite H0;
    change (js "```json") with (bt3 ++ js "json");
    rewrite (startsWith_longer _ (js "json") _ H0).
  - split; reflexivity.
  - apply IH. apply includes_cons_false in H. apply H.
Qed.

(** Without three backticks in a row, the text [route.ts] hands to the
    parser is the brace span of the response. *)
Lemma selected_no_fence s :
  includes bt3 s = false -> RouteTs.selected s = braceSpan s.
Proof.
  intros H. unfold RouteTs.selected, RouteTs.jsonMatch.
  destruct (search_fences_none s H) as [-> ->].
  rewrite search_braces. unfold braceSpan. fold (has_span s).
  destruct (has_span s); reflexivity.
Qed.

(** Behind the fence tagged [json], it is the braced text the fence
    wraps. *)
Lemma selected_json_fence ws1 body ws2 :
  forallb is_space ws1 = true -> forallb is_space ws2 = true ->
  braced body -> includes bt3 body = false ->
  RouteTs.selected (js "```json" ++ ws1 ++ body ++ ws2 ++ bt3) = body.
Proof.
  intros H1 H2 Hb Hf. unfold RouteTs.selected, RouteTs.jsonMatch.
  assert (E : search RouteTs.jsonFence_re
                     (js "```json" ++ ws1 ++ body ++ ws2 ++ bt3)
              = Some (js "```json" ++ ws1 ++ body ++ ws2 ++ bt3,
                      [(1, body)])).
  { assert (Hexec : exec_at RouteTs.jsonFence_re
                      (js "```json" ++ ws1 ++ body ++ ws2 ++ bt3)
                    = Some ([], [(1, body)])).
    { rewrite exec_jsonFence_eq, startsWith_app.
      change (skipn 7 (js "```json" ++ ws1 ++ body ++ ws2 ++ bt3))
        with ([] ++ ws1 ++ body ++ ws2 ++ bt3).
      apply (@after_tag_wrapped [] ws1 body ws2 eq_refl H1 H2 Hb Hf). }
    change (js "```json" ++ ws1 ++ body ++ ws2 ++ bt3)
      with (BACKTICK :: tl (js "```json") ++ ws1 ++ body ++ ws2 ++ bt3)
      in *.
    cbn [search]. rewrite Hexec, consumed_nil. reflexivity. }
  rewrite E. unfold RouteTs.matched_text. cbn [capture snd Nat.eqb].
  destruct Hb as [mid ->]. reflexivity.
Qed.

(** ** What the routes recover *)

Lemma route_accepts (P : jsstring -> option json) text fields arr :
  P (RouteTs.selected text) = Some (JObject fields) ->
  lookup (js "comments") fields = Some (JArray arr) ->
  RouteTs.normalize P text = Ok (JArray arr).
Proof.
  intros Hp Hl. unfold RouteTs.normalize, RouteTs.parsedComments_of.
  replace (match RouteTs.jsonMatch text with
           | Some m => P (RouteTs.matched_text m)
           | None => P text
           end) with (P (RouteTs.selected text))
    by (unfold RouteTs.selected; destruct (RouteTs.jsonMatch text);
        reflexivity).
  rewrite Hp. cbn [getProp rbind]. rewrite Hl. reflexivity.
Qed.

Lemma candidate_around pre body post :
  free_of LBRACE pre = true -> free_of RBRACE post = true ->
  includes bt3 (pre ++ body ++ post) = false -> braced body ->
  jsonCandidate (pre ++ body ++ post) = Ok body.
Proof.
  intros Hpre Hpost Hf Hb.
  rewrite candidate_no_fence
    by (apply search_jsonBlock_none, includes_trim, Hf).
  f_equal. destruct Hb as [mid ->].
  rewrite trim_around by reflexivity.
  apply brace_span_around.
  - apply forallb_trimStart, Hpre.
  - apply forallb_trimEnd, Hpost.
  - exists mid. reflexivity.
Qed.

(** A response and the words around its JSON object. *)
Definition chatty_pre : jsstring := js "Here are the comments I found: ".
Definition chatty_post : jsstring := js " Let me know if you need more.".

(** The third pattern of [route.ts] and the brace span of the layered
    route are one computation: the pattern matches exactly when the
    response holds an opening brace in front of its last closing brace,
    and what it matches is the text from the first opening brace to the
    last closing one. So on a response without three backticks in a row
    the text [route.ts] parses is the brace span of the response. *)
Theorem braces_pattern_is_brace_span (s : jsstring) :
  match search RouteTs.braces_re s with
  | Some (m, caps) => m = braceSpan s /\ caps = [] /\ has_span s = true
  | None => braceSpan s = s /\ has_span s = false
  end
  /\ (includes bt3 s = false -> RouteTs.selected s = braceSpan s).
Proof.
  split; [|apply selected_no_fence].
  rewrite search_braces. unfold braceSpan. fold (has_span s).
  destruct (has_span s); repeat split.
Qed.

(** The layered route reads a JSON object of the expected shape whatever
    stands around it, white space or words, as long as there is no
    opening brace in front of it, no closing brace behind it and no three
    backticks in a row anywhere: the result is the [comments] array of
    the object. *)
Theorem prose_around_json_is_ignored (P : jsstring -> option json)
        (pre body post : jsstring) (fields : list (jsstring * json))
        (arr : list json) :
  free_of LBRACE pre = true -> free_of RBRACE post = true ->
  includes bt3 (pre ++ body ++ post) = false ->
  braced body ->
  P body = Some (JObject fields) ->
  lookup (js "comments") fields = Some (JArray arr) ->
  normalize P (pre ++ body ++ post) = Ok (JArray arr).
Proof.
  intros Hpre Hpost Hf Hb Hp Hl.
  apply NormalizerClaims.normalize_accepts
    with (c := body) (fields := fields); [|assumption..].
  apply candidate_around; assumption.
Qed.

Lemma prose_around_json_is_ignored_witness :
  normalize parse
    (chatty_pre ++ NormalizerClaims.two_comments ++ chatty_post)
  = Ok (JArray NormalizerClaims.two_comments_parsed).
Proof.
  apply (prose_around_json_is_ignored parse
           chatty_pre (body := NormalizerClaims.two_comments) chatty_post
           (fields := [(js "comments",
                        JArray NormalizerClaims.two_comments_parsed)])).
  - reflexivity.
  - reflexivity.
  - vm_compute. reflexivity.
  - exists (removelast (tl NormalizerClaims.two_comments)).
    vm_compute. reflexivity.
  - vm_compute. reflexivity.
  - reflexivity.
Defined.

(** [route.ts] recovers the comments of a JSON object of the expected
    shape in the same two settings as the layered route: with text
    around it that holds no brace on the wrong side and no three
    backticks, and inside a fence tagged [json]. *)
Theorem route_recovers_wrapped_json (P : jsstring -> option json)
        (body : jsstring) (fields : list (jsstring * json))
        (arr : list json) :
  braced body -> includes bt3 body = false ->
  P body = Some (JObject fields) ->
  lookup (js "comments") fields = Some (JArray arr) ->
  (forall pre post,
      free_of LBRACE pre = true -> free_of RBRACE post = true ->
      includes bt3 (pre ++ body ++ post) = false ->
      RouteTs.normalize P (pre ++ body ++ post) = Ok (JArray arr))
  /\ (forall ws1 ws2,
         forallb is_space ws1 = true -> forallb is_space ws2 = true ->
         RouteTs.normalize P (js "```json" ++ ws1 ++ body ++ ws2 ++ bt3)
         = Ok (JArray arr)).
Proof.
  intros Hb Hf Hp Hl. split.
  - intros pre post Hpre Hpost Hfree.
    apply route_accepts with (fields := fields); [|exact Hl].
    rewrite selected_no_fence by exact Hfree.
    rewrite brace_span_around by assumption. exact Hp.
  - intros ws1 ws2 H1 H2.
    apply route_accepts with (fields := fields); [|exact Hl].
    rewrite selected_json_fence by assumption. exact Hp.
Qed.

Lemma route_recovers_wrapped_json_witness :
  RouteTs.normalize parse
    (chatty_pre ++ NormalizerClaims.two_comments ++ chatty_post)
  = Ok (JArray NormalizerClaims.two_comments_parsed)
  /\ RouteTs.normalize parse
       (js "```json" ++ [LF] ++ NormalizerClaims.two_comments
        ++ [LF] ++ bt3)
     = Ok (JArray NormalizerClaims.two_comments_parsed).
Proof.
  destruct (@route_recovers_wrapped_json parse
              NormalizerClaims.two_comments
              [(js "comments",
                JArray NormalizerClaims.two_comments_parsed)]
              NormalizerClaims.two_comments_parsed) as [Ha Hb].
  - exists (removelast (tl NormalizerClaims.two_comments)).
    vm_compute. reflexivity.
  - vm_compute. reflexivity.
  - vm_compute. reflexivity.
  - reflexivity.
  - split.
    + apply (Ha chatty_pre chatty_post); vm_compute; reflexivity.
    + apply (Hb [LF] [LF]); reflexivity.
Defined.

End BraceSpan.

(* ================================================================== *)
(** * File names: documents and their pages *)
(* ================================================================== *)

(** How [POST] tells a document from an image, and how it names the
    records of the pages of a document. *)
Module FileNames.
Import JsFacts Batch.

(** The number a decimal text denotes. *)
Definition parseDecimal (s : jsstring) : N :=
  fold_left (fun v d => (10 * v + (d - 48))%N) s 0%N.

(** ** Facts *)

Lemma str_eqb_eq a b : str_eqb a b = true <-> a = b.
Proof.
  revert b. induction a as [|x a IH]; intros [|y b]; cbn [str_eqb];
    try (split; [discriminate | discriminate]).
  - split; reflexivity.
  - rewrite andb_true_iff, IH. unfold char_eqb. rewrite N.eqb_eq.
    split; [intros [-> ->]; reflexivity | intros H; inversion H; auto].
Qed.

Lemma endsWith_iff p s :
  endsWith p s = true <-> exists base, s = base ++ p.
Proof.
  unfold endsWith. split.
  - intros H. apply startsWith_inv in H.
    exists (rev (skipn (length (rev p)) (rev s))).
    rewrite <- (rev_involutive s), H at 1.
    rewrite rev_app_distr, rev_involutive. reflexivity.
  - intros [base ->]. rewrite rev_app_distr. apply startsWith_app.
Qed.

Lemma parseDecimal_snoc ds d :
  parseDecimal (ds ++ [d]) = (10 * parseDecimal ds + (d - 48))%N.
Proof. unfold parseDecimal. rewrite fold_left_app. reflexivity. Qed.

Lemma digits_fuel_spec fuel :
  forall n acc,
    (n < 2 ^ N.of_nat fuel)%N ->
    exists ds, digits_fuel fuel n acc = ds ++ acc /\ parseDecimal ds = n.
Proof.
  induction fuel as [|fuel IH]; intros n acc Hn.
  - exists []. split; [reflexivity|]. unfold parseDecimal.
    cbn [fold_left]. change (2 ^ N.of_nat 0)%N with 1%N in Hn. lia.
  - cbn [digits_fuel]. destruct (n <? 10)%N eqn:E.
    + apply N.ltb_lt in E. exists [(48 + n mod 10)%N].
      split; [reflexivity|]. unfold parseDecimal. cbn [fold_left].
      rewrite (N.add_comm 48), N.add_sub, N.mod_small by exact E.
      reflexivity.
    + apply N.ltb_ge in E.
      assert (Hq : (n / 10 < 2 ^ N.of_nat fuel)%N).
      { apply N.Div0.div_lt_upper_bound.
        rewrite Nat2N.inj_succ, N.pow_succ_r' in Hn. lia. }
      destruct (IH (n / 10)%N ((48 + n mod 10)%N :: acc) Hq)
        as [ds [E1 E2]].
      exists (ds ++ [(48 + n mod 10)%N]). split.
      * rewrite E1. list_norm.
      * rewrite parseDecimal_snoc, E2.
        rewrite (N.add_comm 48), N.add_sub. symmetry.
        apply N.div_mod'.
Qed.

(** A number printed and read back is the number. *)
Lemma parseDecimal_numberToString n :
  parseDecimal (numberToString n) = N.of_nat n.
Proof.
  unfold numberToString.
  destruct (@digits_fuel_spec (S (N.to_nat (N.log2 (N.of_nat n))))
              (N.of_nat n) []) as [ds [E1 E2]].
  - rewrite Nat2N.inj_succ, N2Nat.id.
    destruct (N.eq_dec (N.of_nat n) 0) as [->|Hz]; [reflexivity|].
    apply N.log2_spec. lia.
  - rewrite E1, app_nil_r. exact E2.
Qed.

Lemma displayName_page fileName n :
  displayName fileName (Some (S n))
  = fileName ++ js " (page " ++ numberToString (S n) ++ js ")".
Proof. reflexivity. Qed.

Lemma displayName_injective fileName n m :
  displayName fileName (Some n) = displayName fileName (Some m) -> n = m.
Proof.
  assert (Hne : forall k, displayName fileName (Some (S k)) <> fileName).
  { intros k H. rewrite displayName_page in H.
    rewrite <- (app_nil_r fileName) in H at 2.
    apply app_inv_head in H. discriminate H. }
  destruct n as [|n], m as [|m]; intros H.
  - reflexivity.
  - symmetry in H. destruct (Hne m H).
  - destruct (Hne n H).
  - rewrite !displayName_page in H.
    apply app_inv_head in H. apply app_inv_head in H.
    apply app_inv_tail in H.
    apply (f_equal parseDecimal) in H.
    rewrite !parseDecimal_numberToString in H. lia.
Qed.

(** A file is handled as a document exactly when its type is
    [application/pdf] or its name ends in [.pdf], whatever the case of
    the four code units: the type of a file named [SCAN.PDF] does not
    matter. *)
Theorem pdf_by_type_or_extension (file : File) :
  isPdf file = true
  <-> type file = js "application/pdf"
      \/ exists base ext,
          name file = base ++ ext /\ toLowerCase ext = js ".pdf".
Proof.
  unfold isPdf. rewrite orb_true_iff, str_eqb_eq, endsWith_iff.
  split; (intros [H|H]; [left; exact H|right]).
  - destruct H as [base E]. unfold toLowerCase in *.
    exists (firstn (length base) (name file)),
           (skipn (length base) (name file)).
    split; [symmetry; apply firstn_skipn|].
    rewrite <- (firstn_skipn (length base) (name file)), map_app in E.
    assert (L : length (map toLowerChar
                            (firstn (length base) (name file)))
                = length base).
    { rewrite length_map, length_firstn.
      apply (f_equal (@length _)) in E.
      rewrite !length_app, !length_map, length_firstn, length_skipn in E.
      lia. }
    apply app_eq_app in E. destruct E as [l [[E1 E2]|[E1 E2]]].
    + apply (f_equal (@length _)) in E1. rewrite length_app in E1.
      assert (l = []) by (destruct l; [reflexivity|cbn in E1; lia]).
      subst l. symmetry. exact E2.
    + apply (f_equal (@length _)) in E1. rewrite length_app in E1.
      assert (l = []) by (destruct l; [reflexivity|cbn in E1; lia]).
      subst l. exact E2.
  - destruct H as [base [ext [E1 E2]]].
    exists (toLowerCase base). rewrite E1. unfold toLowerCase in *.
    rewrite map_app, E2. reflexivity.
Qed.

(** The name of a record tells its page: two pages of a file never share
    a name, no page has the name of the file itself, and so the records
    of the pages of a document have pairwise different names. *)
Theorem page_names_distinct (fileName : jsstring) :
  (forall n m,
      displayName fileName (Some n) = displayName fileName (Some m)
      <-> n = m)
  /\ (forall n, displayName fileName (Some (S n)) <> fileName)
  /\ (forall pages : list ProcessedComment,
         Forall2 (fun n r => imageName r = displayName fileName (Some n))
                 (seq 1 (length pages)) pages ->
         NoDup (map imageName pages)).
Proof.
  split; [|split].
  - intros n m. split; [apply displayName_injective | intros ->; reflexivity].
  - intros n H.
    assert (E : S n = 0)
      by (apply (@displayName_injective fileName); exact H).
    discriminate E.
  - intros pages H.
    assert (E : map imageName pages
                = map (fun n => displayName fileName (Some n))
                      (seq 1 (length pages))).
    { generalize dependent (seq 1 (length pages)). intros l H.
      induction H as [|n r l' pages' Hr _ IH]; [reflexivity|].
      cbn [map]. f_equal; assumption. }
    rewrite E. generalize (seq_NoDup (length pages) 1).
    generalize (seq 1 (length pages)). intros l Hl.
    induction Hl as [|n l Hn _ IH]; cbn [map]; constructor; [|exact IH].
    intros Hin. apply in_map_iff in Hin. destruct Hin as [m [Em Hm]].
    apply displayName_injective in Em. subst m. contradiction.
Qed.

End FileNames.

(* ================================================================== *)
(** * A document with a page that does not render *)
(* ================================================================== *)

(** A three-page document whose second page fails to render, with a
    model service that counts its calls. *)
Module RenderScenario.
Import Batch.

Definition World : Type := nat.

Definition generateContent (w : World) (image : Buffer) (mime : jsstring)
  : result GenerateResult * World :=
  (Ok (MkGenerate (Ok Scenario.reply) None), S w).

Definition three_pages : PdfDocument nat :=
  MkPdf 3 (fun pageNum => Ok pageNum).

Definition getDocument (data : Buffer) : result (PdfDocument nat) :=
  Ok three_pages.

Definition getViewport (page : nat) (scale : N) : N := scale.

Definition out_of_memory : exn := Exn (js "out of memory").

Definition renderToPng (createCanvas : unit) (page : nat) (viewport : N)
  : result Buffer :=
  if Nat.eqb page 2 then Throw out_of_memory
  else Ok [N.of_nat page; viewport].

Lemma rendering_fault_loses_document_witness :
  generateContent 0 [1%N; 2%N] (js "image/png")
  = (Ok (MkGenerate (Ok Scenario.reply) None), 1)
  /\ processFile parse generateContent (Some tt) getDocument getViewport
                 renderToPng Scenario.thread_pdf (MkState [] 0)
     = (Ok tt,
        MkState [MkProcessed (js "thread.pdf") (JArray [])
                   (js "Error processing PDF: out of memory")] 0).
Proof.
  split; [reflexivity|].
  assert (Hfault :
            getDocument Scenario.pdf_bytes = Throw out_of_memory
            \/ exists pdf k,
                getDocument Scenario.pdf_bytes = Ok pdf
                /\ 1 <= k <= numPages pdf
                /\ (forall n, 1 <= n < k ->
                               renders getViewport renderToPng tt pdf n)
                /\ render_fails getViewport renderToPng tt pdf k
                                out_of_memory).
  { right. exists three_pages, 2. split; [reflexivity|].
    split; [cbn; lia|]. split.
    - intros n Hn. assert (n = 1) by lia. subst n.
      exists 1, [1%N; 2%N]. split; reflexivity.
    - right. exists 2. split; reflexivity. }
  apply (proj2 (@rendering_fault_loses_document parse _ generateContent
                  _ _ _ (Some tt) getDocument getViewport renderToPng
                  Scenario.thread_pdf (MkState [] 0) Scenario.pdf_bytes
                  tt out_of_memory eq_refl eq_refl eq_refl Hfault)).
Defined.

(** A screenshot without media type. *)
Definition untyped_shot : File :=
  MkFile (js "shot") [] (Ok [137; 80; 78; 71]%N).

Lemma image_sent_once_with_its_type_witness :
  mimeType_of untyped_shot = js "image/jpeg"
  /\ exists record,
      processFile parse generateContent (Some tt) getDocument getViewport
                  renderToPng untyped_shot (MkState [] 0)
      = (Ok tt, MkState ([] ++ [record]) 1)
      /\ imageName record = js "shot"
      /\ rawResponse record = Scenario.reply
      /\ Normalizer.normalize parse Scenario.reply = Ok (comments record).
Proof.
  split; [reflexivity|].
  destruct (@image_sent_once_with_its_type parse _ generateContent
              _ _ _ (Some tt) getDocument getViewport renderToPng
              untyped_shot (MkState [] 0) [137; 80; 78; 71]%N
              eq_refl eq_refl) as [record [E [Hname Hrec]]].
  exists record. split; [exact E|]. split; [exact Hname|]. exact Hrec.
Defined.

End RenderScenario.

(* ================================================================== *)
(** * Fenced blocks in [route.ts] *)
(* ================================================================== *)

(** What the first two patterns of [route.ts] select in a fenced block,
    for any language tag. The pattern tagged [json] takes the four
    letters off the tag; whatever is left of the tag stays in group 1, in
    front of the JSON text. *)
Module FenceTags.
Import JsFacts RegexFacts Normalizer NormalizerFacts BraceSpan.

(** The tag without a leading [json]. *)
Definition untagged (tag : jsstring) : jsstring :=
  if startsWith (js "json") tag then skipn 4 tag else tag.

(** A fenced block. *)
Definition fenced_block (tag ws1 body ws2 : jsstring) : jsstring :=
  bt3 ++ tag ++ ws1 ++ body ++ ws2 ++ bt3.

(** ** Facts *)

Lemma startsWith_bt3_grow Y :
  Y <> [] ->
  startsWith bt3 (Y ++ [BACKTICK; BACKTICK]) = false ->
  startsWith bt3 (Y ++ bt3) = false.
Proof.
  change bt3 with [BACKTICK; BACKTICK; BACKTICK].
  destruct Y as [|a [|b [|c Y]]]; intros Hne H;
    [contradiction | | |]; cbn [app startsWith] in *;
    rewrite ?andb_true_r in *; exact H.
Qed.

Lemma search_jsonFence_tail X :
  includes bt3 (X ++ [BACKTICK; BACKTICK]) = false ->
  search RouteTs.jsonFence_re (X ++ bt3) = None.
Proof.
  induction X as [|x X IH]; intros H.
  - vm_compute. reflexivity.
  - change ((x :: X) ++ bt3) with (x :: (X ++ bt3)). cbn [search].
    rewrite exec_jsonFence_eq.
    change (js "```json") with (bt3 ++ js "json").
    rewrite startsWith_longer.
    + apply IH.
      change ((x :: X) ++ [BACKTICK; BACKTICK])
        with (x :: (X ++ [BACKTICK; BACKTICK])) in H.
      apply includes_cons_false in H. apply H.
    + change (x :: (X ++ bt3)) with ((x :: X) ++ bt3).
      apply startsWith_bt3_grow; [discriminate|].
      apply includes_false_startsWith, H.
Qed.

Lemma includes_bt3_after_brace b0 t :
  includes bt3 (b0 ++ [RBRACE]) = false -> includes bt3 t = false ->
  includes bt3 (b0 ++ [RBRACE] ++ t) = false.
Proof.
  intros H Ht. induction b0 as [|x b0 IH].
  - apply (includes_bt3_prefix [RBRACE] t eq_refl Ht).
  - change ((x :: b0) ++ [RBRACE]) with (x :: (b0 ++ [RBRACE])) in H.
    apply includes_cons_false in H. destruct H as [H1 H2].
    specialize (IH H2).
    change ((x :: b0) ++ [RBRACE] ++ t) with (x :: (b0 ++ [RBRACE] ++ t)).
    unfold includes in *. cbn [indexOf].
    assert (E : startsWith bt3 (x :: b0 ++ [RBRACE] ++ t) = false).
    { change bt3 with [BACKTICK; BACKTICK; BACKTICK] in *.
      destruct b0 as [|y [|z b0]]; cbn [startsWith app] in *.
      - destruct (char_eqb BACKTICK x); reflexivity.
      - destruct (char_eqb BACKTICK x), (char_eqb BACKTICK y); reflexivity.
      - exact H1. }
    rewrite E. apply Z.leb_gt in IH.
    replace (indexOf bt3 (b0 ++ [RBRACE] ++ t) <? 0)%Z with true
      by (symmetry; apply Z.ltb_lt; exact IH).
    reflexivity.
Qed.

Lemma no_backtick_tag tag :
  forallb tag_char tag = true ->
  forallb (fun c => negb (char_eqb BACKTICK c)) tag = true.
Proof.
  apply forallb_impl. intros y Hy. apply negb_true_iff.
  apply (tag_char_inv _ Hy).
Qed.

Lemma no_backtick_space ws :
  forallb is_space ws = true ->
  forallb (fun c => negb (char_eqb BACKTICK c)) ws = true.
Proof.
  apply forallb_impl. intros y Hy.
  apply negb_true_iff, space_not_backtick, Hy.
Qed.

(** The content of a block, with two backticks after it, holds no three
    backticks in a row. *)
Lemma content_free tag ws1 body ws2 :
  forallb tag_char tag = true ->
  forallb is_space ws1 = true -> forallb is_space ws2 = true ->
  braced body -> includes bt3 body = false ->
  includes bt3 ((tag ++ ws1 ++ body ++ ws2) ++ [BACKTICK; BACKTICK])
  = false.
Proof.
  intros Ht H1 H2 [mid ->] Hf.
  replace ((tag ++ ws1 ++ (LBRACE :: mid ++ [RBRACE]) ++ ws2)
           ++ [BACKTICK; BACKTICK])
    with (tag ++ ws1 ++ (LBRACE :: mid) ++ [RBRACE]
              ++ (ws2 ++ [BACKTICK; BACKTICK])) by list_norm.
  apply includes_bt3_prefix; [apply no_backtick_tag, Ht|].
  apply includes_bt3_prefix; [apply no_backtick_space, H1|].
  apply includes_bt3_after_brace; [exact Hf|].
  apply includes_bt3_prefix; [apply no_backtick_space, H2|].
  reflexivity.
Qed.

(** The content of a block does not start on a backtick. *)
Lemma content_head tag ws1 body rest :
  forallb tag_char tag = true -> forallb is_space ws1 = true ->
  braced body ->
  exists h r, tag ++ ws1 ++ body ++ rest = h :: r
              /\ char_eqb BACKTICK h = false.
Proof.
  intros Ht H1 Hb. destruct tag as [|x tag].
  - destruct (@head_after_tag ws1 body rest H1 Hb) as [h [r [E Hh]]].
    exists h, r. split; [exact E|].
    destruct Hh as [Hh| ->]; [apply space_not_backtick, Hh | reflexivity].
  - cbn [forallb] in Ht. apply andb_true_iff in Ht.
    exists x. eexists. split; [reflexivity|].
    apply (tag_char_inv _ (proj1 Ht)).
Qed.

Lemma search_jsonFence_other tag ws1 body ws2 :
  forallb tag_char tag = true ->
  forallb is_space ws1 = true -> forallb is_space ws2 = true ->
  braced body -> includes bt3 body = false ->
  startsWith (js "json") tag = false ->
  search RouteTs.jsonFence_re (fenced_block tag ws1 body ws2) = None.
Proof.
  intros Ht H1 H2 Hb Hf Hj. unfold fenced_block.
  assert (Hrest : startsWith (js "json")
                             (tag ++ ws1 ++ body ++ ws2 ++ bt3) = false).
  { destruct (startsWith (js "json") (tag ++ ws1 ++ body ++ ws2 ++ bt3))
      eqn:E; [|reflexivity].
    destruct (@json_prefix_tag _ _ _ _ H1 Hb E) as [tag' ->].
    rewrite startsWith_app in Hj. discriminate. }
  destruct (@content_head tag ws1 body (ws2 ++ bt3) Ht H1 Hb)
    as [h [r [E Hh]]].
  assert (Htail : search RouteTs.jsonFence_re
                         (tag ++ ws1 ++ body ++ ws2 ++ bt3) = None).
  { replace (tag ++ ws1 ++ body ++ ws2 ++ bt3)
      with ((tag ++ ws1 ++ body ++ ws2) ++ bt3) by list_norm.
    apply search_jsonFence_tail, content_free; assumption. }
  change bt3 with [BACKTICK; BACKTICK; BACKTICK] at 1. cbn [app].
  cbn [search]. rewrite !exec_jsonFence_eq.
  change (js "```json") with ([BACKTICK; BACKTICK; BACKTICK] ++ js "json").
  cbn [app startsWith].
  change (char_eqb BACKTICK BACKTICK) with true. cbn [andb].
  change (startsWith (106%N :: 115%N :: 111%N :: 110%N :: nil))
    with (startsWith (js "json")).
  rewrite Hrest. rewrite E in *. rewrite Hh. cbn [andb].
  exact Htail.
Qed.

Lemma captured_nonempty tag ws1 body :
  braced body -> exists x g, captured tag ws1 body = x :: g.
Proof.
  intros [mid ->]. unfold captured. destruct tag as [|x tag].
  - eexists. eexists. reflexivity.
  - eexists. eexists. reflexivity.
Qed.

Lemma untagged_tag_char tag :
  forallb tag_char tag = true -> forallb tag_char (untagged tag) = true.
Proof.
  intros H. unfold untagged.
  destruct (startsWith (js "json") tag); [|exact H].
  rewrite <- (firstn_skipn 4 tag), forallb_app in H.
  apply andb_true_iff in H. apply H.
Qed.

(** The text [route.ts] hands to the parser for a fenced block: the
    braced text when the tag is empty or [json], and otherwise the rest
    of the tag, the white space and the braced text. *)
Lemma selected_fenced tag ws1 body ws2 :
  forallb tag_char tag = true ->
  forallb is_space ws1 = true -> forallb is_space ws2 = true ->
  braced body -> includes bt3 body = false ->
  RouteTs.selected (fenced_block tag ws1 body ws2)
  = captured (untagged tag) ws1 body.
Proof.
  intros Ht H1 H2 Hb Hf.
  destruct (@captured_nonempty (untagged tag) ws1 body Hb) as [x [g Eg]].
  unfold RouteTs.selected, RouteTs.jsonMatch, untagged in *.
  destruct (startsWith (js "json") tag) eqn:Ej.
  - pose proof (untagged_tag_char tag Ht) as Ht'. unfold untagged in Ht'.
    rewrite Ej in Ht'. apply startsWith_inv in Ej.
    change (length (js "json")) with 4 in Ej.
    remember (skipn 4 tag) as tag' eqn:Et. clear Et. subst tag.
    assert (Hexec : exec_at RouteTs.jsonFence_re
                      (fenced_block (js "json" ++ tag') ws1 body ws2)
                    = Some ([], [(1, captured tag' ws1 body)])).
    { rewrite exec_jsonFence_eq. unfold fenced_block.
      replace (bt3 ++ (js "json" ++ tag') ++ ws1 ++ body ++ ws2 ++ bt3)
        with (js "```json" ++ tag' ++ ws1 ++ body ++ ws2 ++ bt3)
        by (change (js "```json") with (bt3 ++ js "json"); list_norm).
      rewrite startsWith_app.
      change (skipn 7 (js "```json" ++ tag' ++ ws1 ++ body ++ ws2 ++ bt3))
        with (tag' ++ ws1 ++ body ++ ws2 ++ bt3).
      apply after_tag_wrapped; assumption. }
    unfold fenced_block in *.
    change bt3 with [BACKTICK; BACKTICK; BACKTICK] in Hexec at 1.
    change bt3 with [BACKTICK; BACKTICK; BACKTICK] at 1.
    cbn [app] in *. cbn [search]. rewrite Hexec.
    unfold RouteTs.matched_text. cbn [capture snd Nat.eqb].
    rewrite Eg. reflexivity.
  - fold (fenced_block tag ws1 body ws2).
    rewrite (@search_jsonFence_other tag ws1 body ws2 Ht H1 H2 Hb Hf Ej).
    assert (Hexec : exec_at RouteTs.fence_re
                      (fenced_block tag ws1 body ws2)
                    = Some ([], [(1, captured tag ws1 body)])).
    { rewrite exec_fence_eq. unfold fenced_block.
      rewrite startsWith_app.
      change (skipn 3 (bt3 ++ tag ++ ws1 ++ body ++ ws2 ++ bt3))
        with (tag ++ ws1 ++ body ++ ws2 ++ bt3).
      apply after_tag_wrapped; assumption. }
    unfold fenced_block in *.
    change bt3 with [BACKTICK; BACKTICK; BACKTICK] in Hexec at 1.
    change bt3 with [BACKTICK; BACKTICK; BACKTICK] at 1.
    cbn [app] in *. cbn [search]. rewrite Hexec.
    unfold RouteTs.matched_text. cbn [capture snd Nat.eqb].
    rewrite Eg. reflexivity.
Qed.

Lemma route_parse_failure (P : jsstring -> option json) text :
  P (RouteTs.selected text) = None ->
  RouteTs.normalize P text
  = Ok (JArray [JObject [(js "text", JString text)]]).
Proof.
  intros H. unfold RouteTs.normalize, RouteTs.parsedComments_of.
  replace (match RouteTs.jsonMatch text with
           | Some m => P (RouteTs.matched_text m)
           | None => P text
           end) with (P (RouteTs.selected text))
    by (unfold RouteTs.selected; destruct (RouteTs.jsonMatch text);
        reflexivity).
  rewrite H. reflexivity.
Qed.

(** A block tagged [javascript] around two comments. *)
Definition javascript_block : jsstring :=
  fenced_block (js "javascript") [LF] NormalizerClaims.two_comments [LF].

(** [route.ts] on a fenced block around a JSON object of the expected
    shape. With no tag or the tag [json] it reads the object and returns
    its comments. With any other tag, what is left of the tag goes to the
    parser in front of the object; when the parser rejects that text the
    result is one comment holding the whole response, fence included,
    where the layered route, which takes the brace span of the fenced
    content, returns the comments of the object. *)
Theorem route_fence_keeps_other_tag (P : jsstring -> option json)
        (tag ws1 body ws2 : jsstring) (fields : list (jsstring * json))
        (arr : list json) :
  forallb tag_char tag = true ->
  forallb is_space ws1 = true -> forallb is_space ws2 = true ->
  braced body -> includes bt3 body = false ->
  P body = Some (JObject fields) ->
  lookup (js "comments") fields = Some (JArray arr) ->
  let text := fenced_block tag ws1 body ws2 in
  (untagged tag = [] ->
   RouteTs.selected text = body
   /\ RouteTs.normalize P text = Ok (JArray arr))
  /\ (untagged tag <> [] ->
      RouteTs.selected text = untagged tag ++ ws1 ++ body
      /\ (P (untagged tag ++ ws1 ++ body) = None ->
          RouteTs.normalize P text
          = Ok (JArray [JObject [(js "text", JString text)]])
          /\ normalize P text = Ok (JArray arr))).
Proof.
  intros Ht H1 H2 Hb Hf Hp Hl. cbv zeta.
  pose proof (@selected_fenced tag ws1 body ws2 Ht H1 H2 Hb Hf) as Hs.
  split.
  - intros Hu. rewrite Hu in Hs. cbn [captured] in Hs.
    split; [exact Hs|].
    apply route_accepts with (fields := fields); [|exact Hl].
    rewrite Hs. exact Hp.
  - intros Hu.
    assert (Hs' : RouteTs.selected (fenced_block tag ws1 body ws2)
                  = untagged tag ++ ws1 ++ body).
    { rewrite Hs. unfold captured.
      destruct (untagged tag); [contradiction | reflexivity]. }
    split; [exact Hs'|]. intros Hnone. split.
    + apply route_parse_failure. rewrite Hs'. exact Hnone.
    + apply NormalizerClaims.normalize_accepts
        with (c := body) (fields := fields); [|assumption..].
      apply candidate_wrapped; assumption.
Qed.

Lemma route_fence_keeps_other_tag_witness :
  RouteTs.selected javascript_block
  = js "javascript" ++ [LF] ++ NormalizerClaims.two_comments
  /\ RouteTs.normalize parse javascript_block
     = Ok (JArray [JObject [(js "text", JString javascript_block)]])
  /\ normalize parse javascript_block
     = Ok (JArray NormalizerClaims.two_comments_parsed).
Proof.
  assert (Hb : braced NormalizerClaims.two_comments).
  { exists (removelast (tl NormalizerClaims.two_comments)).
    vm_compute. reflexivity. }
  destruct (proj2 (@route_fence_keeps_other_tag parse
                     (js "javascript") [LF]
                     NormalizerClaims.two_comments [LF]
                     [(js "comments",
                       JArray NormalizerClaims.two_comments_parsed)]
                     NormalizerClaims.two_comments_parsed
                     eq_refl eq_refl eq_refl Hb eq_refl eq_refl eq_refl))
    as [Hs Hn].
  - vm_compute. discriminate.
  - split; [exact Hs|]. apply Hn. vm_compute. reflexivity.
Defined.

End FenceTags.

(* ================================================================== *)
(** * The first route with documents: [src/unnamed/part_001] *)
(* ================================================================== *)

(** This version of the route renders documents as [Batch] does and
    parses the responses with the ladder of [RouteTs]. Reading the
    comments of the parsed value is part of [processImage] here, so a
    response the ladder cannot read is a fault of the file. *)
Module PdfRouteV1.
Import Batch.

Section WithPlatform.

Variable JSON_parse : jsstring -> option json.
Variable World : Type.
Variable generateContent :
  World -> Buffer -> jsstring -> result (option jsstring) * World.
Variables CreateCanvas Page Viewport : Type.
Variable getCreateCanvas : option CreateCanvas.
Variable getDocument : Buffer -> result (PdfDocument Page).
Variable getViewport : Page -> N -> Viewport.
Variable renderToPng : CreateCanvas -> Page -> Viewport -> result Buffer.

Definition processImage (imageBuffer : Buffer) (mimeType : jsstring)
           (fileName : jsstring) (pageNumber : option nat)
  : M World ProcessedComment :=
  bind (RouteTsBatch.call generateContent imageBuffer mimeType)
       (fun text =>
  let responseText := RouteTsBatch.responseText_of text in
  bind (lift (RouteTs.normalize JSON_parse responseText)) (fun parsed =>
  ret (MkProcessed (displayName fileName pageNumber) parsed
                   responseText))).

Fixpoint processPages (fileName : jsstring) (pdfImages : list Buffer)
         (i : nat) : M World unit :=
  match pdfImages with
  | [] => ret tt
  | image :: rest =>
      bind (processImage image (js "image/png") fileName (Some (i + 1)))
           (fun result =>
      bind (push result) (fun _ => processPages fileName rest (S i)))
  end.

Definition pdfBody (file : File) (buffer : Buffer) : M World unit :=
  bind (lift (convertPdfToImages getCreateCanvas getDocument getViewport
                                 renderToPng buffer))
       (fun pdfImages => processPages (name file) pdfImages 0).

Definition imageBody (file : File) (buffer : Buffer) : M World unit :=
  bind (processImage buffer
          (match type file with [] => js "image/jpeg" | t => t end)
          (name file) None)
       (fun result => push result).

Definition processFile (file : File) : M World unit :=
  try_catchM
    (bind (lift (arrayBuffer file)) (fun buffer =>
     if isPdf file then
       try_catchM (pdfBody file buffer)
                  (fun pdfError =>
                     push (degraded file (js "Error processing PDF: ")
                                    pdfError))
     else imageBody file buffer))
    (fun error =>
       push (degraded file (js "Error processing file: ") error)).

Fixpoint processFiles (files : list File) : M World unit :=
  match files with
  | [] => ret tt
  | file :: rest => bind (processFile file) (fun _ => processFiles rest)
  end.

Definition POST (apiKey : option jsstring) (files : list File) (w : World)
  : Response * World :=
  match apiKey with
  | None | Some [] => (JsonError 400 (js "API key is required"), w)
  | Some _ =>
      match files with
      | [] => (JsonError 400 (js "No files provided"), w)
      | _ =>
          match processFiles files (MkState [] w) with
          | (Ok _, st) => (JsonResults (results st), world st)
          | (Throw e, st) =>
              (JsonError 500
                 (match message e with
                  | [] => js "Failed to process images"
                  | m => m
                  end), world st)
          end
      end
  end.

(** ** Notions used in the statements *)





(** ** Facts *)






(** A response whose selected text parses to [null] is a fault of the
    file in this version: reading [comments] throws in [processImage], no
    record is pushed for the response, and the image gets the record of
    the outer [catch] block with no comment. *)
Theorem v1_null_response_is_a_fault
        (file : File) (st : State World) (buffer : Buffer)
        (text : option jsstring) (w : World) :
  isPdf file = false -> arrayBuffer file = Ok buffer ->
  generateContent (world st) buffer
    (match type file with [] => js "image/jpeg" | t => t end)
  = (Ok text, w) ->
  JSON_parse (RouteTs.selected (RouteTsBatch.responseText_of text))
  = Some JNull ->
  exists e,
    processFile file st
    = (Ok tt,
       MkState (results st
                ++ [MkProcessed (name file) (JArray [])
                      (js "Error processing file: " ++ message e)])
               w).
Proof.
  intros Hpdf Hbuf Hgen Hnull.
  unfold processFile, try_catchM, bind at 1, lift. rewrite Hbuf, Hpdf.
  unfold imageBody, processImage, bind, RouteTsBatch.call, lift.
  rewrite Hgen.
  assert (E : exists e,
             RouteTs.normalize JSON_parse
               (RouteTsBatch.responseText_of text) = Throw e).
  { unfold RouteTs.normalize, RouteTs.parsedComments_of.
    replace (match RouteTs.jsonMatch (RouteTsBatch.responseText_of text)
             with
             | Some m => JSON_parse (RouteTs.matched_text m)
             | None => JSON_parse (RouteTsBatch.responseText_of text)
             end)
      with (JSON_parse
              (RouteTs.selected (RouteTsBatch.responseText_of text)))
      by (unfold RouteTs.selected;
          destruct (RouteTs.jsonMatch (RouteTsBatch.responseText_of text));
          reflexivity).
    rewrite Hnull. eexists. reflexivity. }
  destruct E as [e E]. rewrite E. exists e. reflexivity.
Qed.

End WithPlatform.

(** A screenshot whose response is the text [null]. *)
Definition answers_null (w : nat) (image : Buffer) (mime : jsstring)
  : result (option jsstring) * nat :=
  (Ok (Some (js "null")), S w).

Lemma v1_null_response_is_a_fault_witness :
  exists e,
    processFile parse answers_null (@None unit)
                RenderScenario.getDocument RenderScenario.getViewport
                RenderScenario.renderToPng Scenario.shot_png
                (MkState [] 0)
    = (Ok tt,
       MkState ([] ++ [MkProcessed (js "shot.png") (JArray [])
                         (js "Error processing file: " ++ message e)])
               1).
Proof.
  apply (@v1_null_response_is_a_fault parse _ answers_null _ _ _
           (@None unit) RenderScenario.getDocument
           RenderScenario.getViewport RenderScenario.renderToPng
           Scenario.shot_png (MkState [] 0) [137; 80; 78; 71]%N
           (Some (js "null")) 1 eq_refl eq_refl eq_refl).
  vm_compute. reflexivity.
Defined.

End PdfRouteV1.

(* ================================================================== *)
(** * The page: exporting the results *)
(* ================================================================== *)

(** [handleExportCSV] of [src/app/page.tsx] with [generateCSV] of
    [src/lib/csv-export.ts], on the results as the page receives them.
    The page stores [data.results] of the answer as it is: the name of an
    image is a text, and [comments] is whatever value the route read in
    the response of the model. A value of the wrong shape makes the
    handler throw, and then it shows no toast and downloads nothing. *)
Module PageExport.
Import JsFacts.

(** An entry of [allComments]: the name of the image and the four
    properties of a comment as they are read; [None] is [undefined]. *)
Record Comment : Type := MkComment {
  imageName : jsstring;
  username : option json;
  text : option json;
  timestamp : option json;
  likes : option json
}.

(** What the handler reads and writes: the results, the toasts shown and
    the files handed to [downloadCSV], content first. *)
Record State : Type := MkState {
  results : list Batch.ProcessedComment;
  toasts : list Page.Toast;
  downloads : list (jsstring * jsstring)
}.

Definition toast (t : Page.Toast) (st : State) : State :=
  MkState (results st) (toasts st ++ [t]) (downloads st).

Definition downloadCSV (csvContent filename : jsstring) (st : State)
  : State :=
  MkState (results st) (toasts st)
          (downloads st ++ [(csvContent, filename)]).

(** [l.map(f)] and [l.forEach(f)] with a callback that may throw. *)
Fixpoint mapM {A B : Type} (f : A -> result B) (l : list A)
  : result (list B) :=
  match l with
  | [] => Ok []
  | a :: l' =>
      (b <- f a;; bs <- mapM f l';; Ok (b :: bs))%result
  end.

(** [escapeCSV]: a falsy value gives the empty field; [value.replace] is
    a function on a text only, so any other truthy value throws. *)
Definition escapeCSV (value : option json) : result jsstring :=
  if negb (truthy value) then Ok []
  else
    match value with
    | Some (JString s) => Ok (Csv.escapeCSV (Some s))
    | _ => Throw (Exn (js "value.replace is not a function"))
    end.

Definition row (comment : Comment) : result (list jsstring) :=
  (a <- escapeCSV (Some (JString (imageName comment)));;
   b <- escapeCSV (username comment);;
   c <- escapeCSV (text comment);;
   d <- escapeCSV (timestamp comment);;
   e <- escapeCSV (likes comment);;
   Ok [a; b; c; d; e])%result.

Definition generateCSV (comments : list Comment) : result jsstring :=
  (rows <- mapM row comments;;
   Ok (join [LF] (join [COMMA] Csv.headers
                  :: map (fun r => join [COMMA] r) rows)))%result.

(** The body of the inner loop for one comment. *)
Definition entry (name : jsstring) (comment : json) : result Comment :=
  (u <- getProp comment (js "username");;
   t <- getProp comment (js "text");;
   s <- getProp comment (js "timestamp");;
   l <- getProp comment (js "likes");;
   Ok (MkComment name u t s l))%result.

(** [result.comments.forEach(...)]: only an array has [forEach]. *)
Definition entries (processed : Batch.ProcessedComment)
  : result (list Comment) :=
  match Batch.comments processed with
  | JArray l => mapM (entry (Batch.imageName processed)) l
  | JNull => Throw (Exn (js "Cannot read properties of null"))
  | _ => Throw (Exn (js "result.comments.forEach is not a function"))
  end.

(** The two loops that fill [allComments]. *)
Definition allComments (rs : list Batch.ProcessedComment)
  : result (list Comment) :=
  (groups <- mapM entries rs;; Ok (concat groups))%result.

(** [s.split("T")[0]]: the text in front of the first [T]. *)
Definition beforeT (s : jsstring) : jsstring :=
  take_while (fun c => negb (char_eqb c 84%N)) s.

(** [handleExportCSV]; [isoNow] is [new Date().toISOString()]. *)
Definition handleExportCSV (isoNow : jsstring) (st : State)
  : result State :=
  match results st with
  | [] =>
      Ok (toast (Page.MkToast (js "No Data to Export")
                   (js "Please process images first.") true) st)
  | _ =>
      (all <- allComments (results st);;
       match all with
       | [] =>
           Ok (toast (Page.MkToast (js "No Comments Found")
                        (js "No comments were extracted from the images.")
                        true) st)
       | _ =>
           csvContent <- generateCSV all;;
           let timestamp := beforeT isoNow in
           Ok (toast (Page.MkToast (js "Export Complete")
                        (js "Exported " ++ numberToString (length all)
                         ++ js " comments to CSV.")
                        false)
                     (downloadCSV csvContent
                        (js "comments_" ++ timestamp ++ js ".csv") st))
       end)%result
  end.

(** ** Notions used in the statements *)

(** The four properties the export reads in a comment. *)
Definition COLUMNS : list jsstring :=
  [js "username"; js "text"; js "timestamp"; js "likes"].

(** A value the export can write: a text, or a falsy value. *)
Definition exportable_value (v : option json) : bool :=
  match v with
  | Some (JString _) => true
  | _ => negb (truthy v)
  end.

(** A comment the export can write: its properties can be read and each
    of the four is a text or falsy. *)
Definition exportable (comment : json) : bool :=
  forallb (fun key =>
             match getProp comment key with
             | Ok v => exportable_value v
             | Throw _ => false
             end)
          COLUMNS.

(** A result the export can write: its comments are an array of such
    comments. *)
Definition well_formed (processed : Batch.ProcessedComment) : bool :=
  match Batch.comments processed with
  | JArray l => forallb exportable l
  | _ => false
  end.

(** The text a reader of the document gets for a property of a comment:
    the text itself, and the empty text for an absent or falsy value. *)
Definition field (comment : json) (key : jsstring) : jsstring :=
  match getProp comment key with
  | Ok (Some (JString s)) => s
  | _ => []
  end.

(** The records a reader of the exported document gets for a list of
    results: one per element of the comments, the image name of its
    result first. *)
Definition exported_records (rs : list Batch.ProcessedComment)
  : list (list (option jsstring)) :=
  flat_map
    (fun processed =>
       match Batch.comments processed with
       | JArray l =>
           map (fun comment =>
                  Some (Batch.imageName processed)
                  :: map (fun key => Some (field comment key)) COLUMNS)
               l
       | _ => []
       end)
    rs.

(** ** Facts *)

(** A property as [entry] reads it in a comment that is not [null]. *)
Definition prop (comment : json) (key : jsstring) : option json :=
  match getProp comment key with
  | Ok v => v
  | Throw _ => None
  end.

Definition entry_of (name : jsstring) (comment : json) : Comment :=
  MkComment name (prop comment (js "username")) (prop comment (js "text"))
            (prop comment (js "timestamp")) (prop comment (js "likes")).

Definition not_null (comment : json) : bool :=
  match comment with
  | JNull => false
  | _ => true
  end.

Definition checked (comment : Comment) : bool :=
  forallb exportable_value
          [username comment; text comment; timestamp comment;
           likes comment].

Definition text_of_value (v : option json) : jsstring :=
  match v with
  | Some (JString s) => s
  | _ => []
  end.

(** The typed comment of [Csv] that stands for an entry whose values can
    be written. *)
Definition typed (comment : Comment) : Csv.Comment :=
  Csv.MkComment (imageName comment)
                (Some (text_of_value (username comment)))
                (text_of_value (text comment))
                (Some (text_of_value (timestamp comment)))
                (Some (text_of_value (likes comment))).

Lemma mapM_spec {A B : Type} (f : A -> result B) (g : A -> B)
      (p : A -> bool) :
  (forall a, match f a with
             | Ok b => p a = true /\ b = g a
             | Throw _ => p a = false
             end) ->
  forall l,
    match mapM f l with
    | Ok bs => forallb p l = true /\ bs = map g l
    | Throw _ => forallb p l = false
    end.
Proof.
  intros Hf. induction l as [|a l IH]; cbn [mapM forallb map rbind].
  - split; reflexivity.
  - pose proof (Hf a) as Ha. destruct (f a) as [b|e]; cbn [rbind].
    + destruct Ha as [Hp ->]. rewrite Hp. cbn [andb].
      destruct (mapM f l) as [bs|e]; cbn [rbind].
      * destruct IH as [Hl ->]. split; [exact Hl | reflexivity].
      * exact IH.
    + rewrite Ha. reflexivity.
Qed.

Lemma escapeCSV_spec (v : option json) :
  match escapeCSV v with
  | Ok s =>
      exportable_value v = true
      /\ s = Csv.escapeCSV (Some (text_of_value v))
  | Throw _ => exportable_value v = false
  end.
Proof.
  unfold escapeCSV, exportable_value.
  destruct v as [[|b|m e|s|l|fields]|]; cbn [truthy negb text_of_value].
  - split; reflexivity.
  - destruct b; cbn [negb]; [reflexivity | split; reflexivity].
  - destruct (number_is_zero m e); cbn [negb];
      [split; reflexivity | reflexivity].
  - destruct s; cbn [negb]; split; reflexivity.
  - reflexivity.
  - reflexivity.
  - split; reflexivity.
Qed.

Lemma row_spec (comment : Comment) :
  match row comment with
  | Ok r => checked comment = true /\ r = Csv.row (typed comment)
  | Throw _ => checked comment = false
  end.
Proof.
  unfold row, checked, Csv.row, typed.
  cbn [forallb Csv.imageName Csv.username Csv.text Csv.timestamp Csv.likes].
  pose proof (escapeCSV_spec (Some (JString (imageName comment)))) as Hi.
  destruct (escapeCSV (Some (JString (imageName comment)))) as [a|e];
    [|discriminate Hi].
  destruct Hi as [_ ->]. cbn [rbind text_of_value].
  pose proof (escapeCSV_spec (username comment)) as Hu.
  destruct (escapeCSV (username comment)) as [b|e]; cbn [rbind];
    [destruct Hu as [-> ->]|rewrite Hu; reflexivity].
  pose proof (escapeCSV_spec (text comment)) as Ht.
  destruct (escapeCSV (text comment)) as [c|e]; cbn [rbind];
    [destruct Ht as [-> ->]|rewrite Ht; reflexivity].
  pose proof (escapeCSV_spec (timestamp comment)) as Hs.
  destruct (escapeCSV (timestamp comment)) as [d|e]; cbn [rbind];
    [destruct Hs as [-> ->]|rewrite Hs; reflexivity].
  pose proof (escapeCSV_spec (likes comment)) as Hl.
  destruct (escapeCSV (likes comment)) as [f|e]; cbn [rbind];
    [destruct Hl as [-> ->]|rewrite Hl; reflexivity].
  split; reflexivity.
Qed.

Lemma generateCSV_spec (comments : list Comment) :
  match generateCSV comments with
  | Ok csvContent =>
      forallb checked comments = true
      /\ csvContent = Csv.generateCSV (map typed comments)
  | Throw _ => forallb checked comments = false
  end.
Proof.
  unfold generateCSV.
  pose proof (mapM_spec row (fun c => Csv.row (typed c)) checked row_spec
                        comments) as H.
  destruct (mapM row comments) as [rows|e]; cbn [rbind]; [|exact H].
  destruct H as [Hc ->]. split; [exact Hc|].
  unfold Csv.generateCSV. rewrite !map_map. reflexivity.
Qed.

Lemma entry_spec (name : jsstring) (comment : json) :
  match entry name comment with
  | Ok c => not_null comment = true /\ c = entry_of name comment
  | Throw _ => not_null comment = false
  end.
Proof.
  unfold entry, entry_of, prop.
  destruct comment; cbn; first [split; reflexivity | reflexivity].
Qed.

(** The comments of a result as the loops read them. *)
Definition entries_of (processed : Batch.ProcessedComment) : list Comment :=
  match Batch.comments processed with
  | JArray l => map (entry_of (Batch.imageName processed)) l
  | _ => []
  end.

Definition readable (processed : Batch.ProcessedComment) : bool :=
  match Batch.comments processed with
  | JArray l => forallb not_null l
  | _ => false
  end.

Lemma entries_spec (processed : Batch.ProcessedComment) :
  match entries processed with
  | Ok cs => readable processed = true /\ cs = entries_of processed
  | Throw _ => readable processed = false
  end.
Proof.
  unfold entries, readable, entries_of.
  destruct (Batch.comments processed) as [|b|m e|s|l|fields];
    try reflexivity.
  apply (mapM_spec (entry (Batch.imageName processed))
                   (entry_of (Batch.imageName processed)) not_null).
  intros comment. apply entry_spec.
Qed.

Lemma allComments_spec (rs : list Batch.ProcessedComment) :
  match allComments rs with
  | Ok all => forallb readable rs = true /\ all = flat_map entries_of rs
  | Throw _ => forallb readable rs = false
  end.
Proof.
  unfold allComments.
  pose proof (mapM_spec entries entries_of readable entries_spec rs) as H.
  destruct (mapM entries rs) as [groups|e]; cbn [rbind]; [|exact H].
  destruct H as [Hr ->]. split; [exact Hr|].
  symmetry. apply flat_map_concat_map.
Qed.

Lemma exportable_checked (name : jsstring) (comment : json) :
  exportable comment = not_null comment && checked (entry_of name comment).
Proof.
  unfold exportable, checked, entry_of, prop, COLUMNS.
  destruct comment; reflexivity.
Qed.

Lemma well_formed_checked (processed : Batch.ProcessedComment) :
  well_formed processed
  = readable processed && forallb checked (entries_of processed).
Proof.
  unfold well_formed, readable, entries_of.
  destruct (Batch.comments processed) as [|b|m e|s|l|fields];
    try reflexivity.
  induction l as [|c l IH]; [reflexivity|].
  cbn [forallb map]. rewrite IH.
  rewrite (exportable_checked (Batch.imageName processed) c).
  destruct (not_null c), (checked (entry_of (Batch.imageName processed) c)),
    (forallb not_null l); reflexivity.
Qed.

Lemma forallb_flat_map {A B : Type} (p : B -> bool) (f : A -> list B)
      (l : list A) :
  forallb p (flat_map f l) = forallb (fun a => forallb p (f a)) l.
Proof.
  induction l as [|a l IH]; [reflexivity|].
  cbn [flat_map forallb]. rewrite forallb_app, IH. reflexivity.
Qed.

Lemma forallb_well_formed (rs : list Batch.ProcessedComment) :
  forallb well_formed rs
  = forallb readable rs && forallb checked (flat_map entries_of rs).
Proof.
  rewrite forallb_flat_map.
  induction rs as [|r rs IH]; [reflexivity|].
  cbn [forallb]. rewrite IH, well_formed_checked.
  destruct (readable r), (forallb checked (entries_of r)),
    (forallb readable rs); reflexivity.
Qed.

Lemma fields_entries (rs : list Batch.ProcessedComment) :
  map CsvDocument.fields (map typed (flat_map entries_of rs))
  = exported_records rs.
Proof.
  unfold exported_records.
  induction rs as [|r rs IH]; [reflexivity|].
  cbn [flat_map]. rewrite !map_app, IH. f_equal.
  unfold entries_of.
  destruct (Batch.comments r) as [|b|m e|s|l|fields]; try reflexivity.
  rewrite !map_map. apply map_ext. intros comment.
  unfold CsvDocument.fields, CsvDocument.values, typed, entry_of, field,
    prop, COLUMNS.
  cbn [map Csv.imageName Csv.username Csv.text Csv.timestamp Csv.likes
       imageName username text timestamp likes Csv.text_of].
  repeat f_equal;
    match goal with
    | |- context [getProp comment ?k] =>
        destruct (getProp comment k) as [[[]|]|]; reflexivity
    end.
Qed.

(** [handleExportCSV] throws exactly when there are results and one of
    them cannot be written: its comments are no array, or hold [null], or
    hold a comment with a truthy user name, text, time stamp or likes
    that is no text. It then shows nothing and downloads nothing.
    Otherwise it keeps the results and hands a file to [downloadCSV]
    exactly when the results hold a comment. The file is named after the
    date and its document, read back, holds the header and then one
    record per comment of the results, in their order, each with the
    image name of its result; the toast tells their number. *)
Theorem export_has_one_record_per_comment (isoNow : jsstring)
        (st : State) :
  match handleExportCSV isoNow st with
  | Throw _ =>
      results st <> [] /\ forallb well_formed (results st) = false
  | Ok st' =>
      results st' = results st
      /\ (results st = [] \/ forallb well_formed (results st) = true)
      /\ (exported_records (results st) = [] ->
          downloads st' = downloads st
          /\ exists t,
              toasts st' = toasts st ++ [t]
              /\ Page.destructive t = true)
      /\ (exported_records (results st) <> [] ->
          exists csvContent,
            downloads st'
            = downloads st
              ++ [(csvContent,
                   js "comments_" ++ beforeT isoNow ++ js ".csv")]
            /\ CsvDocument.parseCSV csvContent
               = map Some Csv.headers :: exported_records (results st)
            /\ toasts st'
               = toasts st
                 ++ [Page.MkToast (js "Export Complete")
                       (js "Exported "
                        ++ numberToString
                             (length (exported_records (results st)))
                        ++ js " comments to CSV.")
                       false])
  end.
Proof.
  unfold handleExportCSV.
  destruct (results st) as [|r rs] eqn:Er.
  - cbn [toast results downloads toasts].
    split; [exact Er|]. split; [left; reflexivity|]. split.
    + intros _. split; [reflexivity|]. eexists. split; reflexivity.
    + intros H. contradiction H. reflexivity.
  - rewrite forallb_well_formed, <- fields_entries.
    pose proof (allComments_spec (r :: rs)) as Ha.
    destruct (allComments (r :: rs)) as [all|e]; cbn [rbind].
    + destruct Ha as [Hr ->]. rewrite Hr. cbn [andb].
      destruct (flat_map entries_of (r :: rs)) as [|c cs] eqn:Ec.
      * cbn [toast results downloads toasts map forallb].
        split; [exact Er|]. split; [right; reflexivity|]. split.
        -- intros _. split; [reflexivity|]. eexists. split; reflexivity.
        -- intros H. contradiction H. reflexivity.
      * pose proof (generateCSV_spec (c :: cs)) as Hg.
        destruct (generateCSV (c :: cs)) as [csvContent|e]; cbn [rbind].
        -- destruct Hg as [Hc ->].
           cbn [toast downloadCSV results downloads toasts].
           split; [exact Er|]. split; [right; exact Hc|]. split.
           ++ intros H. discriminate H.
           ++ intros _. eexists. split; [reflexivity|]. split.
              ** apply CsvDocument.parseCSV_generateCSV.
              ** rewrite !length_map. reflexivity.
        -- split; [discriminate | exact Hg].
    + split; [discriminate|]. rewrite Ha. reflexivity.
Qed.

(** Two comments on one screenshot: the second has its likes as a
    number. *)
Definition likes_as_number : json :=
  JArray [JObject [(js "username", JString (js "ann"));
                   (js "text", JString (js "so, true"))];
          JObject [(js "text", JString (js "ok"));
                   (js "likes", JNumber 5 0)]].

(** The same comments with the likes as a text. *)
Definition likes_as_text : json :=
  JArray [JObject [(js "username", JString (js "ann"));
                   (js "text", JString (js "so, true"))];
          JObject [(js "text", JString (js "ok"));
                   (js "likes", JString (js "5"))]].

Definition shown (comments : json) : State :=
  MkState [Batch.MkProcessed (js "shot.png") comments (js "...")] [] [].

Definition ISO_NOW : jsstring := js "2024-05-01T10:00:00.000Z".

Lemma export_has_one_record_per_comment_witness :
  handleExportCSV ISO_NOW (shown likes_as_number)
  = Throw (Exn (js "value.replace is not a function"))
  /\ forallb well_formed (results (shown likes_as_number)) = false
  /\ exists st',
      handleExportCSV ISO_NOW (shown likes_as_text) = Ok st'
      /\ exists csvContent,
          downloads st' = [(csvContent, js "comments_2024-05-01.csv")]
          /\ CsvDocument.parseCSV csvContent
             = [map Some Csv.headers;
                [Some (js "shot.png"); Some (js "ann");
                 Some (js "so, true"); Some []; Some []];
                [Some (js "shot.png"); Some []; Some (js "ok"); Some [];
                 Some (js "5")]].
Proof.
  assert (Ethrow : handleExportCSV ISO_NOW (shown likes_as_number)
                   = Throw (Exn (js "value.replace is not a function")))
    by (vm_compute; reflexivity).
  pose proof (export_has_one_record_per_comment ISO_NOW
                (shown likes_as_number)) as Hthrow.
  rewrite Ethrow in Hthrow.
  split; [exact Ethrow|]. split; [exact (proj2 Hthrow)|].
  pose proof (export_has_one_record_per_comment ISO_NOW
                (shown likes_as_text)) as Hok.
  destruct (handleExportCSV ISO_NOW (shown likes_as_text)) as [st'|e]
    eqn:E.
  - exists st'. split; [reflexivity|].
    destruct Hok as [_ [_ [_ Hdown]]].
    destruct Hdown as [csvContent [Hd [Hp _]]];
      [vm_compute; discriminate|].
    exists csvContent. split; [exact Hd | exact Hp].
  - vm_compute in E. discriminate E.
Defined.

End PageExport.
